(** * cath-tools: the SSAP double dynamic-programming core

    A shallow embedding of the parts of cath-tools that the specification's
    claims are about:

    - [entry_querier.cpp]: [pair_is_not_excluded], [_num_comparable_impl],
      [num_comparable];
    - [alignment_refiner.cpp]: [iterate_step],
      [iterate_step_for_alignment_split_list],
      [iterate_step_for_alignment_split], [iterate];
    - [context_res.h]: [score_of_squared_distance];
    - [ssap.cpp]: [residues_have_similar_area_angle_props],
      [populate_upper_score_matrix], [compare_upper_cell],
      [calculate_log_score].

    Conventions.  [size_t] is a 64-bit unsigned integer: a [Z] in
    [[0, 2^64)] whose arithmetic wraps around ([SizeT]).  [score_type] is
    [ptrdiff_t]: a [Z]; signed overflow is undefined behaviour in C++ and
    lies outside the model.  [double] is IEEE-754 binary64: Rocq's primitive
    [float]; where a statement is about the formula that the doubles
    approximate, the same expressions are read over the real numbers, and
    the statement says so.  A call returns, throws a value of [exn], or has
    undefined behaviour.  Writes to [std::cerr] and to the log are left
    out.  What the sources at hand do not contain (the alignment and
    protein classes, the queriers, the aligner, the window arithmetic)
    enters either as a parameter of a [Section] or as a definition whose
    comment says what it was modelled from.

    Beyond these, "Further definitions" embeds more of the same files:
    from [ssap.cpp], [update_best_pair_selections], [select_pairs],
    [read_clique_file], [set_mask_matrix], [compare], [fast_ssap],
    [align_proteins], [plot_aln], [save_ssap_scores], [save_zero_scores],
    [print_ssap_scores] and [reset_ssap_global_variables], as state-passing
    functions on the file's static variables; from [context_res.h],
    [context_res_vec] and [simplified_context_res_vec].
 *)

From Stdlib Require Import String Reals Lra ZArith List Bool Lia Floats Sorted Permutation.
Import ListNotations.

Local Open Scope Z_scope.

(** ** Machine integers *)

Module SizeT.

Definition modulus : Z := 2 ^ 64.

Definition max_value : Z := modulus - 1.

Definition wrap (z : Z) : Z := z mod modulus.

Definition add (a b : Z) : Z := wrap (a + b).

Definition sub (a b : Z) : Z := wrap (a - b).

Definition mul (a b : Z) : Z := wrap (a * b).

Definition in_range (z : Z) : Prop := 0 <= z < modulus.

End SizeT.

(** ** entry_querier.cpp *)

Module EntryQuerier.

(** Modelled from the spec: the querier classes are not among the sources.
    There are two kinds of entry, residues and secondary structures; the
    exclusion radii are the ones [entry_querier_test.cpp] pins down
    (residues: pairs at most 5 apart are excluded, secondary structures:
    only equal indices are). *)
Inductive entry_querier : Type :=
| residue_querier
| sec_struc_querier.

Definition temp_hacky_is_residue (q : entry_querier) : bool :=
  match q with
  | residue_querier => true
  | sec_struc_querier => false
  end.

Definition num_excluded_on_either_size (q : entry_querier) : Z :=
  match q with
  | residue_querier => 5
  | sec_struc_querier => 0
  end.

(** [pair_is_not_excluded( num_excluded, index1, index2 )] *)
Definition pair_is_not_excluded (num_excluded_on_either_size prm_index1 prm_index2 : Z) : bool :=
  let max_index := Z.max prm_index1 prm_index2 in
  let min_index := Z.min prm_index1 prm_index2 in
  let abs_index_diff := SizeT.sub max_index min_index in
  num_excluded_on_either_size <? abs_index_diff.

(** [_num_comparable_impl( prm_num_excluded, prm_length )] *)
Definition _num_comparable_impl (prm_num_excluded prm_length : Z) : Z :=
  if prm_length <=? SizeT.add prm_num_excluded 1
  then 0
  else SizeT.mul (SizeT.sub prm_length prm_num_excluded)
                 (SizeT.sub (SizeT.sub prm_length prm_num_excluded) 1).

(** [num_comparable( prm_entry_querier, prm_length )] *)
Definition num_comparable (q : entry_querier) (prm_length : Z) : Z :=
  _num_comparable_impl (num_excluded_on_either_size q) prm_length.

(** The specification's reference: the number of ordered pairs [(i, j)]
    with [i, j] in [[0, L)], [i <> j] and [|i - j| > n], by enumeration. *)
Definition indices (L : nat) : list Z := map Z.of_nat (seq 0 L).

Definition is_comparable_pair (n : Z) (ij : Z * Z) : bool :=
  negb (fst ij =? snd ij) && (n <? Z.abs (fst ij - snd ij)).

Definition count_if {A : Type} (p : A -> bool) (l : list A) : nat :=
  length (filter p l).

Definition brute_force_num_comparable (n : Z) (L : nat) : nat :=
  count_if (is_comparable_pair n) (list_prod (indices L) (indices L)).

(** The closed form of the specification, over the integers. *)
Definition closed_form_num_comparable (n L : Z) : Z :=
  if n + 1 <? L then (L - n) * (L - n - 1) else 0.


End EntryQuerier.

(** ** Exceptions and results *)

(** The exceptions the modelled functions throw: cath's
    [not_implemented_exception] (with its message) and boost's
    [bad_numeric_cast] family, thrown by [numeric_cast]. *)
Inductive exn : Type :=
| not_implemented_exception (msg : string)
| negative_overflow
| positive_overflow.

Inductive result (A : Type) : Type :=
| Ok (a : A)
| Throw (e : exn).

Arguments Ok {A} a.
Arguments Throw {A} e.

(** ** The alignment data model *)

Module Alignment.

(** Modelled from the spec: the [alignment] class is not among the sources.
    An alignment is an ordered sequence of columns; each column holds, for
    each of the [num_entries] entries, a present 0-based position or a gap.
    The per-column scores play no part in what follows ([operator==]
    compares the positions) and are left out. *)
Record alignment : Type := mk_alignment {
  num_entries : nat;
  columns : list (list (option nat))
}.

Definition NUM_ENTRIES_IN_PAIR_ALIGNMENT : nat := 2.

Definition PAIR_A_IDX : nat := 0.

Definition PAIR_B_IDX : nat := 1.

(** [alignment( num_entries )]: the empty alignment of that many entries. *)
Definition empty_alignment (n : nat) : alignment := mk_alignment n [].

Definition length (a : alignment) : nat := List.length (columns a).

Definition position_of_entry_of_index (a : alignment) (entry index : nat) : option nat :=
  match nth_error (columns a) index with
  | Some column =>
      match nth_error column entry with
      | Some posn => posn
      | None => None
      end
  | None => None
  end.

Definition has_position_of_entry_of_index (a : alignment) (entry index : nat) : bool :=
  match position_of_entry_of_index a entry index with
  | Some _ => true
  | None => false
  end.

Definition has_both_positions_of_index (a : alignment) (index : nat) : bool :=
  has_position_of_entry_of_index a PAIR_A_IDX index
  && has_position_of_entry_of_index a PAIR_B_IDX index.

(** The 1-based ("offset_1") positions of the two entries of a pair
    alignment; [0] stands in where the position is absent, which the
    callers rule out with [has_both_positions_of_index]. *)
Definition get_a_offset_1_position_of_index (a : alignment) (index : nat) : nat :=
  match position_of_entry_of_index a PAIR_A_IDX index with
  | Some posn => S posn
  | None => 0
  end.

Definition get_b_offset_1_position_of_index (a : alignment) (index : nat) : nat :=
  match position_of_entry_of_index a PAIR_B_IDX index with
  | Some posn => S posn
  | None => 0
  end.

Definition alignment_eq_dec (a b : alignment) : {a = b} + {a <> b}.
Proof.
  decide equality.
  - apply (list_eq_dec (list_eq_dec (fun x y : option nat =>
      ltac:(decide equality; apply Nat.eq_dec)))).
  - apply Nat.eq_dec.
Defined.

(** [operator==] on alignments. *)
Definition alignment_eqb (a b : alignment) : bool :=
  if alignment_eq_dec a b then true else false.

End Alignment.

(** ** alignment_refiner.cpp *)

Module AlignmentRefiner.

Import Alignment.

Section Refiner.

(** The collaborators that are not among the sources: proteins, view
    caches, gap penalties and alignment splits with their accessors, the
    splits generated for an alignment, and the part of
    [iterate_step_for_alignment_split] that follows its entry-count check
    (the split mappings, the rescoring into the refiner's two score
    matrices, the dynamic programming and the rebuilt alignment). *)
Variable protein : Type.
Variable view_cache_list : Type.
Variable gap_penalty : Type.
Variable alignment_split : Type.
Variable get_num_entries : alignment_split -> nat.
Variable get_standard_alignment_splits : alignment -> list alignment_split.
Variable make_view_cache_list : list protein -> view_cache_list.

(** The refiner's two members, [from_alignment_scores] and
    [to_alignment_scores]. *)
Record refiner_state : Type := mk_refiner_state {
  from_alignment_scores : list (list float);
  to_alignment_scores : list (list float)
}.

Variable rescore_and_realign :
  refiner_state -> alignment -> list protein -> view_cache_list -> gap_penalty ->
  alignment_split -> result (bool * alignment) * refiner_state.

Definition split_mismatch_message : string :=
  "Number of entries in alignment split doesn't match number in alignment".

Definition protein_mismatch_message : string :=
  "Mismatch between number of entries in alignment and in protein list".

(** [alignment_refiner::iterate_step_for_alignment_split] *)
Definition iterate_step_for_alignment_split
  (st : refiner_state) (arg_alignment : alignment) (arg_proteins : list protein)
  (arg_view_cache_list : view_cache_list) (arg_gap_penalty : gap_penalty)
  (arg_alignment_split : alignment_split)
  : result (bool * alignment) * refiner_state :=
  if negb (get_num_entries arg_alignment_split =? num_entries arg_alignment)%nat
  then (Throw (not_implemented_exception split_mismatch_message), st)
  else rescore_and_realign st arg_alignment arg_proteins arg_view_cache_list
                           arg_gap_penalty arg_alignment_split.

(** The [for] loop of [iterate_step_for_alignment_split_list], from the
    current [iter_aln] and [inserted_residues]. *)
Fixpoint iterate_over_splits
  (st : refiner_state) (iter_aln : alignment) (inserted_residues : bool)
  (arg_proteins : list protein) (arg_view_cache_list : view_cache_list)
  (arg_gap_penalty : gap_penalty) (splits : list alignment_split)
  : result (bool * alignment) * refiner_state :=
  match splits with
  | [] => (Ok (inserted_residues, iter_aln), st)
  | the_split :: rest =>
      match iterate_step_for_alignment_split st iter_aln arg_proteins
              arg_view_cache_list arg_gap_penalty the_split with
      | (Ok inserted_res_and_aln, st') =>
          iterate_over_splits st' (snd inserted_res_and_aln)
            (fst inserted_res_and_aln || inserted_residues)
            arg_proteins arg_view_cache_list arg_gap_penalty rest
      | (Throw e, st') => (Throw e, st')
      end
  end.

(** [alignment_refiner::iterate_step_for_alignment_split_list] *)
Definition iterate_step_for_alignment_split_list
  (st : refiner_state) (arg_alignment : alignment) (arg_proteins : list protein)
  (arg_view_cache_list : view_cache_list) (arg_gap_penalty : gap_penalty)
  (arg_alignment_split_list : list alignment_split)
  : result (bool * alignment) * refiner_state :=
  iterate_over_splits st arg_alignment false arg_proteins arg_view_cache_list
                      arg_gap_penalty arg_alignment_split_list.

(** [alignment_refiner::iterate_step] *)
Definition iterate_step
  (st : refiner_state) (arg_alignment : alignment) (arg_proteins : list protein)
  (arg_view_cache_list : view_cache_list) (arg_gap_penalty : gap_penalty)
  : result (bool * alignment) * refiner_state :=
  let num_entries := num_entries arg_alignment in
  if negb (List.length arg_proteins =? num_entries)%nat
  then (Throw (not_implemented_exception protein_mismatch_message), st)
  else iterate_step_for_alignment_split_list st arg_alignment arg_proteins
         arg_view_cache_list arg_gap_penalty
         (get_standard_alignment_splits arg_alignment).

(** The local variables of [alignment_refiner::iterate]. *)
Record loop_state : Type := mk_loop_state {
  iter_ctr : Z;
  prev_alignment : alignment;
  curr_alignment : alignment;
  inserted_residues : bool
}.

Definition initial_loop_state (arg_alignment : alignment) : loop_state :=
  mk_loop_state 0 (empty_alignment NUM_ENTRIES_IN_PAIR_ALIGNMENT) arg_alignment true.

(** The [while] condition. *)
Definition loop_condition (s : loop_state) : bool :=
  inserted_residues s || negb (alignment_eqb (curr_alignment s) (prev_alignment s)).

(** How one pass through the loop body ends. *)
Inductive body_result : Type :=
| Continue (s : loop_state)
| Break (s : loop_state)
| Raise (e : exn).

(** The loop body: one call of [iterate_step], the comparison of its
    output with [prev_alignment], the two swaps, and the [break]. *)
Definition loop_body
  (st : refiner_state) (s : loop_state) (arg_proteins : list protein)
  (arg_view_cache_list : view_cache_list) (arg_gap_penalty : gap_penalty)
  : body_result * refiner_state :=
  match iterate_step st (curr_alignment s) arg_proteins arg_view_cache_list
                     arg_gap_penalty with
  | (Throw e, st') => (Raise e, st')
  | (Ok ins_res_and_next_aln, st') =>
      let inserted_residues := fst ins_res_and_next_aln in
      let next_alignment := snd ins_res_and_next_aln in
      let next_matches_prev := alignment_eqb next_alignment (prev_alignment s) in
      let prev_alignment' := curr_alignment s in
      let curr_alignment' := next_alignment in
      if next_matches_prev
      then (Break (mk_loop_state (iter_ctr s) prev_alignment' curr_alignment'
                                 inserted_residues), st')
      else (Continue (mk_loop_state (SizeT.add (iter_ctr s) 1) prev_alignment'
                                    curr_alignment' inserted_residues), st')
  end.

(** How a run of [iterate] ends; [Out_of_fuel] when the loop was still
    running after the given number of passes. *)
Inductive iterate_outcome : Type :=
| Returned (a : alignment)
| Thrown (e : exn)
| Out_of_fuel.

(** A run, with the number of calls of [iterate_step] it made. *)
Record iterate_run : Type := mk_iterate_run {
  outcome : iterate_outcome;
  num_steps : nat;
  final_refiner_state : refiner_state
}.

Fixpoint iterate_loop
  (fuel : nat) (steps_so_far : nat) (st : refiner_state) (s : loop_state)
  (arg_proteins : list protein) (arg_view_cache_list : view_cache_list)
  (arg_gap_penalty : gap_penalty) : iterate_run :=
  if loop_condition s then
    match fuel with
    | O => mk_iterate_run Out_of_fuel steps_so_far st
    | S fuel' =>
        match loop_body st s arg_proteins arg_view_cache_list arg_gap_penalty with
        | (Raise e, st') => mk_iterate_run (Thrown e) (S steps_so_far) st'
        | (Break s', st') =>
            mk_iterate_run (Returned (curr_alignment s')) (S steps_so_far) st'
        | (Continue s', st') =>
            iterate_loop fuel' (S steps_so_far) st' s' arg_proteins
                         arg_view_cache_list arg_gap_penalty
        end
    end
  else mk_iterate_run (Returned (curr_alignment s)) steps_so_far st.

(** [alignment_refiner::iterate], the four-argument overload. *)
Definition iterate_with_view_cache
  (fuel : nat) (st : refiner_state) (arg_alignment : alignment)
  (arg_proteins : list protein) (arg_view_cache_list : view_cache_list)
  (arg_gap_penalty : gap_penalty) : iterate_run :=
  iterate_loop fuel 0 st (initial_loop_state arg_alignment) arg_proteins
               arg_view_cache_list arg_gap_penalty.

(** [alignment_refiner::iterate], the three-argument overload. *)
Definition iterate
  (fuel : nat) (st : refiner_state) (arg_alignment : alignment)
  (arg_proteins : list protein) (arg_gap_penalty : gap_penalty) : iterate_run :=
  iterate_with_view_cache fuel st arg_alignment arg_proteins
                          (make_view_cache_list arg_proteins) arg_gap_penalty.

End Refiner.

End AlignmentRefiner.

(** ** Doubles *)

Module Double.

(** [numeric_cast<double>] of an integer: the nearest binary64 value. *)
Definition of_Z (z : Z) : float := SF2Prim (binary_normalize prec emax z 0 false).

(** The integer a finite double truncates to (rounding toward zero). *)
Definition truncate (x : float) : option Z :=
  match Prim2SF x with
  | S754_zero _ => Some 0
  | S754_finite s m e =>
      let magnitude := if 0 <=? e then Z.pos m * 2 ^ e else Z.shiftr (Z.pos m) (- e) in
      Some (if s then - magnitude else magnitude)
  | S754_infinity _ | S754_nan => None
  end.

(** The integer [std::round] takes a finite double to (halfway cases
    away from zero). *)
Definition round_half_away (x : float) : option Z :=
  match Prim2SF x with
  | S754_zero _ => Some 0
  | S754_finite s m e =>
      let magnitude :=
        if 0 <=? e then Z.pos m * 2 ^ e
        else Z.shiftr (Z.pos m + 2 ^ (- e - 1)) (- e) in
      Some (if s then - magnitude else magnitude)
  | S754_infinity _ | S754_nan => None
  end.

End Double.

(** ** ssap.cpp: the upper score matrix *)

Module Ssap.

Import Alignment EntryQuerier.

(** How a call ends: it returns, it throws, or its behaviour is undefined
    in C++ (a NaN converted to an integer, a matrix cell outside the
    matrix), of which the model says nothing more. *)
Inductive outcome (A : Type) : Type :=
| Returns (a : A)
| Throws (e : exn)
| Undefined.

Arguments Returns {A} a.
Arguments Throws {A} e.
Arguments Undefined {A}.

(** The globals of ssap.cpp that [compare_upper_cell] writes:
    [global_upper_score_matrix], as its rows; and, for the sake of the
    statements about the normalisation, a record of every division
    performed so far, as (dividend, divisor), latest first. *)
Record globals : Type := mk_globals {
  global_upper_score_matrix : list (list Z);
  divisions : list (float * float)
}.

Definition M (A : Type) : Type := globals -> outcome A * globals.

Definition ret {A : Type} (a : A) : M A := fun g => (Returns a, g).

Definition bind {A B : Type} (c : M A) (k : A -> M B) : M B :=
  fun g =>
    match c g with
    | (Returns a, g') => k a g'
    | (Throws e, g') => (Throws e, g')
    | (Undefined, g') => (Undefined, g')
    end.

Definition lift {A : Type} (o : outcome A) : M A := fun g => (o, g).

Notation "x <- c ;; k" := (bind c (fun x => k))
  (at level 61, c at next level, right associativity).

Fixpoint for_each {A : Type} (l : list A) (f : A -> M unit) : M unit :=
  match l with
  | [] => ret tt
  | x :: rest => _ <- f x ;; for_each rest f
  end.

Fixpoint fold_m {A S : Type} (l : list A) (f : S -> A -> M S) (s : S) : M S :=
  match l with
  | [] => ret s
  | x :: rest => s' <- f s x ;; fold_m rest f s'
  end.

(** [boost::numeric_cast<score_type>( double )]: truncation; values at or
    beyond [-2^63] and [2^63] throw; a NaN passes boost's range check and
    is then converted with undefined behaviour. *)
Definition numeric_cast_double_to_score_type (x : float) : outcome Z :=
  match Prim2SF x with
  | S754_nan => Undefined
  | S754_infinity s => Throws (if s then negative_overflow else positive_overflow)
  | _ =>
      match Double.truncate x with
      | Some z =>
          if z <=? - 2 ^ 63 then Throws negative_overflow
          else if 2 ^ 63 <=? z then Throws positive_overflow
          else Returns z
      | None => Undefined
      end
  end.

(** [boost::numeric_cast<size_t>( int )] *)
Definition numeric_cast_int_to_size_t (i : Z) : outcome Z :=
  if i <? 0 then Throws negative_overflow else Returns i.

(** [boost::numeric_cast<size_t>( round( double ) )] *)
Definition numeric_cast_round_to_size_t (x : float) : outcome Z :=
  match Prim2SF x with
  | S754_nan => Undefined
  | S754_infinity s => Throws (if s then negative_overflow else positive_overflow)
  | _ =>
      match Double.round_half_away x with
      | Some z =>
          if z <=? - 1 then Throws negative_overflow
          else if SizeT.modulus <=? z then Throws positive_overflow
          else Returns z
      | None => Undefined
      end
  end.

Definition MIN_LOWER_MAT_RES_SCORE : Z := 10.

Inductive compare_upper_cell_result : Type :=
| ZERO
| NON_ZERO_BELOW_THRESHOLD
| SCORED.

Definition compare_upper_cell_result_eqb (x y : compare_upper_cell_result) : bool :=
  match x, y with
  | ZERO, ZERO | NON_ZERO_BELOW_THRESHOLD, NON_ZERO_BELOW_THRESHOLD | SCORED, SCORED => true
  | _, _ => false
  end.

(** Reading and writing a cell of a matrix held as its rows. *)
Definition matrix_get (m : list (list Z)) (row col : nat) : option Z :=
  match nth_error m row with
  | Some r => nth_error r col
  | None => None
  end.

Fixpoint list_set {A : Type} (l : list A) (i : nat) (v : A) : list A :=
  match l, i with
  | [], _ => []
  | _ :: rest, O => v :: rest
  | x :: rest, S i' => x :: list_set rest i' v
  end.

Definition matrix_set (m : list (list Z)) (row col : nat) (v : Z) : list (list Z) :=
  match nth_error m row with
  | Some r => list_set m row (list_set r col v)
  | None => m
  end.

(** [global_upper_score_matrix.get( row, col ) += addend] *)
Definition add_to_upper_score_matrix (row col : nat) (addend : Z) : M unit :=
  fun g =>
    match matrix_get (global_upper_score_matrix g) row col with
    | Some v =>
        (Returns tt,
         mk_globals (matrix_set (global_upper_score_matrix g) row col (v + addend))
                    (divisions g))
    | None => (Undefined, g)
    end.

(** [numeric_cast<double>( score ) / prm_normalisation], recorded. *)
Definition divide (dividend divisor : float) : M float :=
  fun g =>
    (Returns (dividend / divisor)%float,
     mk_globals (global_upper_score_matrix g) ((dividend, divisor) :: divisions g)).

Section UpperScoreMatrix.

(** What is fixed during one population of the upper matrix: the querier
    and, through it, the two proteins' lengths; the window; and the
    collaborators that are not among the sources: the querier's
    [distance_score__offset_1] on the two proteins, the window's index
    mapping and bounds, [check_offset_1], the masks and selections, and the
    lower-level alignment of a pair of view-from indices
    ([ssap_code_dyn_prog_aligner().align] on the score source that
    [compare_upper_cell] builds). *)
Variable prm_entry_querier : entry_querier.
Variable full_length_a full_length_b : Z.
Variable global_window : Z.
Variable global_frac_selected : float.
Variable global_num_selections : Z.
Variable global_selections : Z -> Z * Z.
Variable global_upper_res_mask_matrix : Z -> Z -> bool.
Variable global_upper_ss_mask_matrix : Z -> Z -> bool.
Variable distance_score__offset_1 : Z -> Z -> Z -> Z -> Z.
Variable get_window_matrix_a_index__offset_1 : Z -> Z -> Z -> Z -> Z -> Z.
Variable get_window_start_a_for_b__offset_1 : Z -> Z -> Z -> Z -> Z.
Variable get_window_stop_a_for_b__offset_1 : Z -> Z -> Z -> Z -> Z.
Variable check_offset_1 : Z -> option exn.
Variable align_lower_matrix : Z -> Z -> Z * alignment.

Definition run_check_offset_1 (index : Z) : M unit :=
  match check_offset_1 index with
  | Some e => lift (Throws e)
  | None => ret tt
  end.

(** The normalisation of the residue score in [compare_upper_cell]. *)
Definition normalise_residue_score (score : Z) (prm_normalisation : float) : M Z :=
  if negb (prm_normalisation =? 0)%float
  then quotient <- divide (Double.of_Z score) prm_normalisation ;;
       lift (numeric_cast_double_to_score_type quotient)
  else ret 0.

(** One pass of the loop that traces the lower-level alignment path onto
    the upper matrix. *)
Definition add_path_column
  (prm_a_view_from_index__offset_1 prm_b_view_from_index__offset_1 : Z)
  (my_alignment : alignment) (alignment_ctr : nat) : M unit :=
  if has_both_positions_of_index my_alignment alignment_ctr then
    let a_dest_to_index__offset_1 := get_a_offset_1_position_of_index my_alignment alignment_ctr in
    let b_dest_to_index__offset_1 := get_b_offset_1_position_of_index my_alignment alignment_ctr in
    let a_matrix_idx__offset_1 :=
      get_window_matrix_a_index__offset_1 full_length_a full_length_b global_window
        (Z.of_nat a_dest_to_index__offset_1) (Z.of_nat b_dest_to_index__offset_1) in
    let score_addend :=
      distance_score__offset_1
        prm_a_view_from_index__offset_1 prm_b_view_from_index__offset_1
        (Z.of_nat a_dest_to_index__offset_1) (Z.of_nat b_dest_to_index__offset_1) in
    col <- lift (numeric_cast_int_to_size_t a_matrix_idx__offset_1) ;;
    add_to_upper_score_matrix b_dest_to_index__offset_1 (Z.to_nat col) score_addend
  else ret tt.

(** [compare_upper_cell] *)
Definition compare_upper_cell
  (prm_a_view_from_index__offset_1 prm_b_view_from_index__offset_1 : Z)
  (prm_normalisation : float) : M compare_upper_cell_result :=
  let res_not_ss__hacky := temp_hacky_is_residue prm_entry_querier in
  _ <- run_check_offset_1 prm_a_view_from_index__offset_1 ;;
  _ <- run_check_offset_1 prm_b_view_from_index__offset_1 ;;
  let score_and_alignment :=
    align_lower_matrix prm_a_view_from_index__offset_1 prm_b_view_from_index__offset_1 in
  let my_alignment := snd score_and_alignment in
  score <- (if res_not_ss__hacky
            then normalise_residue_score (fst score_and_alignment) prm_normalisation
            else ret (fst score_and_alignment)) ;;
  if score =? 0 then ret ZERO
  else if res_not_ss__hacky && (score <? MIN_LOWER_MAT_RES_SCORE)
  then ret NON_ZERO_BELOW_THRESHOLD
  else
    _ <- for_each (seq 0 (Alignment.length my_alignment))
           (add_path_column prm_a_view_from_index__offset_1
              prm_b_view_from_index__offset_1 my_alignment) ;;
    ret SCORED.

(** The lengths [populate_upper_score_matrix] works with, and its
    normalisation. *)
Definition using_selections (prm_align_pass : bool) : bool :=
  temp_hacky_is_residue prm_entry_querier && prm_align_pass.

Definition populate_length_a : Z := full_length_a.

Definition populate_length_b (prm_align_pass : bool) : Z :=
  if using_selections prm_align_pass then global_num_selections else full_length_b.

Definition populate_normalisation (prm_align_pass : bool) : float :=
  let normalisation_num :=
    if temp_hacky_is_residue prm_entry_querier then 200%float else 25%float in
  (global_frac_selected
   * sqrt (normalisation_num
           * Double.of_Z (Z.min populate_length_a (populate_length_b prm_align_pass))))%float.

(** [boost::irange( first, last )] *)
Definition irange (first last : Z) : list Z :=
  map (fun k => first + Z.of_nat k) (seq 0 (Z.to_nat (last - first))).

Record populate_counters : Type := mk_populate_counters {
  num_potential_upper_cell_comps : Z;
  num_actual_upper_cell_comps : Z;
  found_non_zero_cell : bool;
  found_threshold_cell : bool
}.

(** The body of the inner loop of [populate_upper_score_matrix]. *)
Definition populate_cell
  (prm_align_pass : bool) (ctr_b__offset_1 jval : Z)
  (c : populate_counters) (ctr_a : Z) : M populate_counters :=
  let res_not_ss__hacky := temp_hacky_is_residue prm_entry_querier in
  let length_a := populate_length_a in
  let length_b := populate_length_b prm_align_pass in
  let ctr_a__offset_1 := SizeT.add ctr_a 1 in
  should_compare_pair <-
    (if negb (using_selections prm_align_pass) then
       if res_not_ss__hacky then
         let a_matrix_idx__offset_1 :=
           get_window_matrix_a_index__offset_1 length_a length_b global_window
             ctr_a__offset_1 ctr_b__offset_1 in
         col <- lift (numeric_cast_int_to_size_t a_matrix_idx__offset_1) ;;
         ret (global_upper_res_mask_matrix ctr_b__offset_1 col)
       else ret (global_upper_ss_mask_matrix ctr_b__offset_1 ctr_a__offset_1)
     else ret true) ;;
  let potential := SizeT.add (num_potential_upper_cell_comps c) 1 in
  if should_compare_pair : bool then
    compare_result <- compare_upper_cell ctr_a__offset_1 jval
                        (populate_normalisation prm_align_pass) ;;
    ret (mk_populate_counters potential
           (SizeT.add (num_actual_upper_cell_comps c) 1)
           (found_non_zero_cell c
            || negb (compare_upper_cell_result_eqb compare_result ZERO))
           (found_threshold_cell c
            || compare_upper_cell_result_eqb compare_result SCORED))
  else
    ret (mk_populate_counters potential (num_actual_upper_cell_comps c)
           (found_non_zero_cell c) (found_threshold_cell c)).

(** The body of the outer loop. *)
Definition populate_row
  (prm_align_pass : bool) (c : populate_counters) (ctr_b : Z) : M populate_counters :=
  let length_a := populate_length_a in
  let length_b := populate_length_b prm_align_pass in
  let ctr_b__offset_1 := SizeT.add ctr_b 1 in
  let window_start__offset_1 :=
    if using_selections prm_align_pass then fst (global_selections ctr_b__offset_1)
    else get_window_start_a_for_b__offset_1 length_a length_b global_window ctr_b__offset_1 in
  let window_stop__offset_1 :=
    if using_selections prm_align_pass then fst (global_selections ctr_b__offset_1)
    else get_window_stop_a_for_b__offset_1 length_a length_b global_window ctr_b__offset_1 in
  let jval :=
    if using_selections prm_align_pass then snd (global_selections ctr_b__offset_1)
    else ctr_b__offset_1 in
  fold_m (rev (irange (SizeT.sub window_start__offset_1 1) window_stop__offset_1))
         (populate_cell prm_align_pass ctr_b__offset_1 jval) c.

(** [populate_upper_score_matrix], up to its log messages: the counters
    it reports are its result here. *)
Definition populate_upper_score_matrix (prm_align_pass : bool) : M populate_counters :=
  fold_m (rev (irange 0 (populate_length_b prm_align_pass)))
         (populate_row prm_align_pass)
         (mk_populate_counters 0 0 false false).

(** What the specification says [compare_upper_cell] adds to the cell
    [(row, col)] of the upper matrix when it scores: the distance scores
    from the view pair to the destination pair of every column of the
    lower-level alignment that has both positions and whose destination is
    that cell. *)
Definition path_column_addend
  (prm_a_view_from_index__offset_1 prm_b_view_from_index__offset_1 : Z)
  (my_alignment : alignment) (row col : nat) (alignment_ctr : nat) : Z :=
  let a_dest := get_a_offset_1_position_of_index my_alignment alignment_ctr in
  let b_dest := get_b_offset_1_position_of_index my_alignment alignment_ctr in
  if has_both_positions_of_index my_alignment alignment_ctr
     && (b_dest =? row)%nat
     && (get_window_matrix_a_index__offset_1 full_length_a full_length_b global_window
           (Z.of_nat a_dest) (Z.of_nat b_dest) =? Z.of_nat col)
  then distance_score__offset_1
         prm_a_view_from_index__offset_1 prm_b_view_from_index__offset_1
         (Z.of_nat a_dest) (Z.of_nat b_dest)
  else 0.

Definition path_sum
  (prm_a_view_from_index__offset_1 prm_b_view_from_index__offset_1 : Z)
  (my_alignment : alignment) (row col : nat) (alignment_ctrs : list nat) : Z :=
  fold_right
    (fun alignment_ctr acc =>
       path_column_addend prm_a_view_from_index__offset_1
         prm_b_view_from_index__offset_1 my_alignment row col alignment_ctr + acc)
    0 alignment_ctrs.

End UpperScoreMatrix.

(** *** [residues_have_similar_area_angle_props] *)

(** Modelled from the spec: the [residue] class is not among the sources.
    A residue, as [residues_have_similar_area_angle_props] reads it: the
    [int] that [get_accessi_of_residue] gives (the spec's buried value),
    the [size_t] of [get_access()] (its accessibility), and the phi and psi
    angles as [angle_in_degrees] gives them. *)
Record residue : Type := mk_residue {
  get_accessi_of_residue : Z;
  get_access : Z;
  phi_angle_in_degrees : float;
  psi_angle_in_degrees : float
}.

(** Modelled from the spec: [difference] (common/difference.hpp) is not
    among the sources; it is the absolute difference the spec writes
    [|a - b|], the smaller operand subtracted from the larger. *)
Definition difference_int (a b : Z) : Z := if b <? a then a - b else b - a.

Definition difference_double (a b : float) : float :=
  if (b <? a)%float then (a - b)%float else (b - a)%float.

Definition lift_outcome {A B : Type} (o : outcome A) (k : A -> outcome B) : outcome B :=
  match o with
  | Returns a => k a
  | Throws e => Throws e
  | Undefined => Undefined
  end.

(** [residues_have_similar_area_angle_props], with the cutoff
    [global_res_sim_cutoff] as an argument. *)
Definition residues_have_similar_area_angle_props
  (global_res_sim_cutoff : Z) (prm_residue_i prm_residue_j : residue) : outcome bool :=
  let buried_i := get_accessi_of_residue prm_residue_i in
  let buried_j := get_accessi_of_residue prm_residue_j in
  lift_outcome (numeric_cast_int_to_size_t (difference_int buried_i buried_j))
    (fun buried_difference =>
  lift_outcome (numeric_cast_round_to_size_t
                  (difference_double (phi_angle_in_degrees prm_residue_i)
                                     (phi_angle_in_degrees prm_residue_j)))
    (fun phi_angle_diff_in_degrees =>
  lift_outcome (numeric_cast_round_to_size_t
                  (difference_double (psi_angle_in_degrees prm_residue_i)
                                     (psi_angle_in_degrees prm_residue_j)))
    (fun psi_angle_diff_in_degrees =>
  let mean_angle_diff_in_degrees :=
    SizeT.add phi_angle_diff_in_degrees psi_angle_diff_in_degrees / 2 in
  let accessibility_sum :=
    SizeT.add (get_access prm_residue_i) (get_access prm_residue_j) in
  Returns (SizeT.add (SizeT.add buried_difference accessibility_sum)
                     mean_angle_diff_in_degrees
           <? global_res_sim_cutoff)))).

Definition default_res_sim_cutoff : Z := 150.

(** The claim's reading of the predicate.  The rounded absolute angle
    differences exist, and the sum of the buried difference, the two
    accessibilities and the mean angle difference is below the cutoff: in
    [size_t] arithmetic, as the code adds them; and in exact arithmetic,
    with the exact mean (the inequality cleared of its denominator 2). *)
Definition rounded_angle_difference (a b : float) : outcome Z :=
  numeric_cast_round_to_size_t (difference_double a b).



(** *** [calculate_log_score] *)

(** The arithmetic on [double] that [calculate_log_score] uses:
    [numeric_cast<double>] of an integer (which also gives the literals
    100.0 and 1000.0), [*], [/] and [std::log]. *)
Record double_arith (T : Type) : Type := mk_double_arith {
  of_Z : Z -> T;
  mul : T -> T -> T;
  div : T -> T -> T;
  log : T -> T
}.

Arguments mk_double_arith {T} _ _ _ _.
Arguments of_Z {T} _ _.
Arguments mul {T} _ _ _.
Arguments div {T} _ _ _.
Arguments log {T} _ _.

(** Binary64, with the C library's [log] as given. *)
Definition binary64_arith (std_log : float -> float) : double_arith float :=
  mk_double_arith Double.of_Z PrimFloat.mul PrimFloat.div std_log.


(** The scores [calculate_log_score] sets; a score it leaves unset is
    [None]. *)
Record ssap_scores (T : Type) : Type := mk_ssap_scores {
  ssap_score_over_compared : option T;
  ssap_score_over_smaller : option T;
  ssap_score_over_larger : option T;
  percentage_aligned_pairs_over_larger : option T;
  num_aligned_pairs : option Z;
  seq_id : option T
}.

Arguments mk_ssap_scores {T} _ _ _ _ _ _.
Arguments ssap_score_over_compared {T} _.
Arguments ssap_score_over_smaller {T} _.
Arguments ssap_score_over_larger {T} _.
Arguments percentage_aligned_pairs_over_larger {T} _.
Arguments num_aligned_pairs {T} _.
Arguments seq_id {T} _.

Fixpoint fold_outcome {A S : Type} (l : list A) (f : S -> A -> outcome S) (s : S)
  : outcome S :=
  match l with
  | [] => Returns s
  | x :: rest => lift_outcome (f s x) (fold_outcome rest f)
  end.

(** The local variables of the walk that accumulates the scores along
    the final path. *)
Record walk_state : Type := mk_walk_state {
  prev_had_both_posns : bool;
  is_first_with_both_posns : bool;
  prev_a_position : nat;
  prev_b_position : nat;
  walk_num_aligned_pairs : Z;
  walk_maxscore : Z
}.

Definition initial_walk_state : walk_state := mk_walk_state false true 0 0 0 0.

Section CalculateLogScore.

Context {T : Type}.

(** What is fixed in a call: the arithmetic, the querier and the two
    lengths it reports, and what is not among the sources: the querier's
    [are_comparable__offset_1] and [distance_score__offset_1] on the two
    proteins, [numeric_cast<score_type>( get_gap_penalty( querier ) )], the
    querier's [optimum_single_score()] and the value of
    [calculate_sequence_identity]. *)
Variable arith : double_arith T.
Variable prm_entry_querier : entry_querier.
Variable length_a length_b : Z.
Variable are_comparable__offset_1 : nat -> nat -> nat -> nat -> bool.
Variable distance_score__offset_1 : nat -> nat -> nat -> nat -> Z.
Variable gap_penalty_as_score : outcome Z.
Variable optimum_single_score : T.
Variable sequence_identity : T.

(** The inner loop of the comparison along the final path. *)
Definition add_pair_score
  (prm_alignment : alignment) (i_posn_a i_posn_b : nat)
  (acc : Z * list (list Z)) (alignment_ctr_j : nat) : outcome (Z * list (list Z)) :=
  if has_both_positions_of_index prm_alignment alignment_ctr_j then
    let j_posn_a := get_a_offset_1_position_of_index prm_alignment alignment_ctr_j in
    let j_posn_b := get_b_offset_1_position_of_index prm_alignment alignment_ctr_j in
    if are_comparable__offset_1 i_posn_a i_posn_b j_posn_a j_posn_b then
      let count := SizeT.add (fst acc) 1 in
      let pair_score := distance_score__offset_1 i_posn_a i_posn_b j_posn_a j_posn_b in
      match matrix_get (snd acc) j_posn_b j_posn_a with
      | Some v => Returns (count, matrix_set (snd acc) j_posn_b j_posn_a (v + pair_score))
      | None => Undefined
      end
    else Returns acc
  else Returns acc.

(** The outer loop. *)
Definition add_scores_seen_from
  (prm_alignment : alignment) (acc : Z * list (list Z)) (alignment_ctr_i : nat)
  : outcome (Z * list (list Z)) :=
  if has_both_positions_of_index prm_alignment alignment_ctr_i then
    let i_posn_a := get_a_offset_1_position_of_index prm_alignment alignment_ctr_i in
    let i_posn_b := get_b_offset_1_position_of_index prm_alignment alignment_ctr_i in
    fold_outcome (seq 0 (Alignment.length prm_alignment))
                 (add_pair_score prm_alignment i_posn_a i_posn_b) acc
  else Returns acc.

Definition max_alignment_length : Z := SizeT.add (SizeT.add length_a length_b) 10.

(** [count] and [final_score_matrix] after the first pair of loops. *)
Definition compare_along_final_path (prm_alignment : alignment)
  : outcome (Z * list (list Z)) :=
  let n := Z.to_nat max_alignment_length in
  fold_outcome (seq 0 (Alignment.length prm_alignment))
               (add_scores_seen_from prm_alignment)
               (0, repeat (repeat 0 n) n).

(** Whether the walk, in the state [s], charges a gap for a column with
    both positions at [a_position] and [b_position]. *)
Definition walk_charges_gap (s : walk_state) (a_position b_position : nat) : bool :=
  negb (is_first_with_both_posns s)
  && (negb (prev_had_both_posns s)
      || negb (a_position =? prev_a_position s + 1)%nat
      || negb (b_position =? prev_b_position s + 1)%nat).

(** One pass of the loop that accumulates the new scores along the final
    path. *)
Definition walk_step
  (prm_alignment : alignment) (final_score_matrix : list (list Z))
  (s : walk_state) (alignment_ctr : nat) : outcome walk_state :=
  let has_both_posns := has_both_positions_of_index prm_alignment alignment_ctr in
  let a_position := get_a_offset_1_position_of_index prm_alignment alignment_ctr in
  let b_position := get_b_offset_1_position_of_index prm_alignment alignment_ctr in
  lift_outcome
    (if has_both_posns then
       lift_outcome
         (if walk_charges_gap s a_position b_position
          then gap_penalty_as_score
          else Returns 0)
         (fun gap =>
            match matrix_get final_score_matrix b_position a_position with
            | Some v =>
                Returns (walk_maxscore s + (v - gap),
                         SizeT.add (walk_num_aligned_pairs s) 1,
                         false)
            | None => Undefined
            end)
     else Returns (walk_maxscore s, walk_num_aligned_pairs s, is_first_with_both_posns s))
    (fun '(maxscore, num_aligned_pairs, is_first) =>
       Returns (mk_walk_state has_both_posns is_first
                  (if has_both_posns then a_position else prev_a_position s)
                  (if has_both_posns then b_position else prev_b_position s)
                  num_aligned_pairs maxscore)).

Definition accumulate_along_final_path
  (prm_alignment : alignment) (final_score_matrix : list (list Z)) : outcome walk_state :=
  fold_outcome (seq 0 (Alignment.length prm_alignment))
               (walk_step prm_alignment final_score_matrix) initial_walk_state.

Definition final_score_scaling : T := of_Z arith 1000.

Definition max_log : T := log arith (mul arith optimum_single_score final_score_scaling).

(** [100.0 * std::log( maxscore * 1000.0 / denominator ) / max_log] *)
Definition log_score (maxscore denominator : Z) : T :=
  let scaled_avg_single_score :=
    div arith (mul arith (of_Z arith maxscore) final_score_scaling)
              (of_Z arith denominator) in
  div arith (mul arith (of_Z arith 100) (log arith scaled_avg_single_score)) max_log.

(** The scores, from the clamped total, the number of compared pairs and
    the number of aligned pairs. *)
Definition scores_of_total (maxscore count num_aligned : Z) : ssap_scores T :=
  let min_length := Z.min length_a length_b in
  let num_comparable_over_min := num_comparable prm_entry_querier min_length in
  let max_length := Z.max length_a length_b in
  let num_comparable_over_max := num_comparable prm_entry_querier max_length in
  let is_residue := temp_hacky_is_residue prm_entry_querier in
  mk_ssap_scores
    (if negb (maxscore =? 0) && negb (count =? 0)
     then Some (log_score maxscore count) else None)
    (if negb (maxscore =? 0) && (0 <? num_comparable_over_min)
     then Some (log_score maxscore num_comparable_over_min) else None)
    (if negb (maxscore =? 0) && (0 <? num_comparable_over_max)
     then Some (log_score maxscore num_comparable_over_max) else None)
    (if is_residue && (0 <? num_aligned) && negb (max_length =? 0)
     then Some (div arith (mul arith (of_Z arith 100) (of_Z arith num_aligned))
                          (of_Z arith max_length))
     else None)
    (if is_residue then Some num_aligned else None)
    (if is_residue then Some sequence_identity else None).

(** [calculate_log_score] *)
Definition calculate_log_score (prm_alignment : alignment) : outcome (ssap_scores T) :=
  lift_outcome (compare_along_final_path prm_alignment)
    (fun count_and_matrix =>
  lift_outcome (accumulate_along_final_path prm_alignment (snd count_and_matrix))
    (fun s =>
  let maxscore := Z.max 0 (walk_maxscore s) in
  Returns (scores_of_total maxscore (fst count_and_matrix) (walk_num_aligned_pairs s)))).

End CalculateLogScore.

(** The specification's reading of the walk.  A gap penalty is charged
    for the column [k] when it has both positions, is not the first column
    to have them, and does not immediately follow a column with both
    positions from which both of its positions advance by exactly 1. *)
Definition follows_previous_aligned_column (a : alignment) (k : nat) : bool :=
  match k with
  | O => false
  | S k' =>
      has_both_positions_of_index a k'
      && (get_a_offset_1_position_of_index a k
          =? get_a_offset_1_position_of_index a k' + 1)%nat
      && (get_b_offset_1_position_of_index a k
          =? get_b_offset_1_position_of_index a k' + 1)%nat
  end.

Definition has_earlier_aligned_column (a : alignment) (k : nat) : bool :=
  existsb (has_both_positions_of_index a) (seq 0 k).

Definition gap_is_charged (a : alignment) (k : nat) : bool :=
  has_both_positions_of_index a k
  && has_earlier_aligned_column a k
  && negb (follows_previous_aligned_column a k).

Definition cell_value (m : list (list Z)) (row col : nat) : Z :=
  match matrix_get m row col with
  | Some v => v
  | None => 0
  end.

(** The contribution of the column [k] to the total. *)
Definition column_contribution
  (a : alignment) (final_score_matrix : list (list Z)) (gap : Z) (k : nat) : Z :=
  if has_both_positions_of_index a k
  then cell_value final_score_matrix (get_b_offset_1_position_of_index a k)
                  (get_a_offset_1_position_of_index a k)
       - (if gap_is_charged a k then gap else 0)
  else 0.

Definition total_along_path
  (a : alignment) (final_score_matrix : list (list Z)) (gap : Z) (n : nat) : Z :=
  fold_right (fun k acc => column_contribution a final_score_matrix gap k + acc)
             0 (seq 0 n).

Definition gap_of (gap_penalty_as_score : outcome Z) : Z :=
  match gap_penalty_as_score with
  | Returns gap => gap
  | _ => 0
  end.

(** What the walk's state holds after the first [n] columns. *)
Definition walk_invariant
  (gap_penalty_as_score : outcome Z) (a : alignment)
  (final_score_matrix : list (list Z)) (n : nat) (s : walk_state) : Prop :=
  prev_had_both_posns s
  = match n with O => false | S k => has_both_positions_of_index a k end
  /\ is_first_with_both_posns s = negb (has_earlier_aligned_column a n)
  /\ (forall k, n = S k -> has_both_positions_of_index a k = true ->
        prev_a_position s = get_a_offset_1_position_of_index a k
        /\ prev_b_position s = get_b_offset_1_position_of_index a k)
  /\ walk_maxscore s
     = total_along_path a final_score_matrix (gap_of gap_penalty_as_score) n.

End Ssap.

(** ** context_res.h *)

Module ContextRes.

Inductive distance_score_formula : Type :=
| FROM_SSAP_PAPER
| SIMPLIFIED
| USED_IN_PREVIOUS_CODE.

(** The three constants [score_of_squared_distance] takes from
    [residue_querier], whose class is not among the sources. *)
Record residue_constants (T : Type) : Type := mk_residue_constants {
  RESIDUE_MAX_DIST_SQ_CUTOFF : T;
  RESIDUE_A_VALUE : T;
  RESIDUE_B_VALUE : T
}.

Arguments mk_residue_constants {T} _ _ _.
Arguments RESIDUE_MAX_DIST_SQ_CUTOFF {T} _.
Arguments RESIDUE_A_VALUE {T} _.
Arguments RESIDUE_B_VALUE {T} _.

(** The values the comments of the sources imply: the cutoff is at a
    distance of [2 * sqrt( b )] and [4.9 * b] has the square root 7
    (context_res.h), so [b = 10] and the squared cutoff is 40; and
    [1000 a / b] is 50,000 for residues (ssap.cpp), so [a = 500]. *)
Definition legacy_constants : residue_constants float :=
  mk_residue_constants 40%float 500%float 10%float.

(** [std::max( a, b )] on doubles. *)
Definition std_max (a b : float) : float := if (a <? b)%float then b else a.

(** [score_of_squared_distance<F>( arg_scaled_squared_distance,
    arg_int_scaling_float_score )]; the diagnostics that the [SIMPLIFIED]
    case writes to [std::cerr] are left out.  The literal [4.9] of the
    source is the double [0x1.399999999999ap+2]. *)
Definition score_of_squared_distance
  (F : distance_score_formula) (constants : residue_constants float)
  (arg_scaled_squared_distance arg_int_scaling_float_score : float) : float :=
  let residue_max_dist_sq_cutoff := RESIDUE_MAX_DIST_SQ_CUTOFF constants in
  let residue_a_value := RESIDUE_A_VALUE constants in
  let residue_b_value := RESIDUE_B_VALUE constants in
  match F with
  | FROM_SSAP_PAPER =>
      let distance := (sqrt arg_scaled_squared_distance / arg_int_scaling_float_score)%float in
      if (sqrt residue_max_dist_sq_cutoff <=? distance)%float then 0%float
      else (residue_a_value / (distance + residue_b_value))%float
  | SIMPLIFIED =>
      let distance := (sqrt arg_scaled_squared_distance / arg_int_scaling_float_score)%float in
      let slope := (- 1 / sqrt (0x1.399999999999ap+2 * residue_b_value))%float in
      std_max 0%float ((residue_a_value / residue_b_value) * (1 + slope * distance))%float
  | USED_IN_PREVIOUS_CODE =>
      let scaled_a :=
        (residue_a_value * arg_int_scaling_float_score * arg_int_scaling_float_score)%float in
      let scaled_b :=
        (residue_b_value * arg_int_scaling_float_score * arg_int_scaling_float_score)%float in
      if (residue_max_dist_sq_cutoff * arg_int_scaling_float_score
          * arg_int_scaling_float_score <=? arg_scaled_squared_distance)%float
      then 0%float
      else (scaled_a / (arg_scaled_squared_distance + scaled_b))%float
  end.


End ContextRes.

(** * Further definitions *)

(** ** Doubles that are numbers *)

Module DoubleClass.

(** Whether a double is a number: neither a NaN nor an infinity. *)
Definition is_a_number (x : float) : bool :=
  match Prim2SF x with
  | S754_zero _ | S754_finite _ _ _ => true
  | S754_infinity _ | S754_nan => false
  end.
End DoubleClass.

(** ** ssap.cpp: the selection of pairs *)

Module SelectPairs.

Import EntryQuerier Ssap.

(** Modelled from the spec: the [selected_pair] class is not among the
    sources.  A pair of 1-based indices with the score that the upper score
    matrix holds for it. *)
Record selected_pair : Type := mk_selected_pair {
  get_index_a : Z;
  get_index_b : Z;
  get_score : Z
}.

Definition NUM_SELECTIONS_TO_SAVE : Z := 20.

(** [bool_vec_of_vec::set( row, col, value )], on a mask held as a function
    of its row and column. *)
Definition mask_set (mask : Z -> Z -> bool) (row col : Z) (value : bool) : Z -> Z -> bool :=
  fun r c => if (r =? row) && (c =? col) then value else mask r c.

Section BestPairSelections.

(** [operator<] on [selected_pair], which is not among the sources. *)
Variable selected_pair_less : selected_pair -> selected_pair -> bool.

(** [stable_sort( prm_selected_pairs )]: the stable sort by [operator<],
    as an insertion sort that puts an element before the elements after it
    that are not less than it. *)
Fixpoint insert_in_order (x : selected_pair) (l : list selected_pair) : list selected_pair :=
  match l with
  | [] => [x]
  | y :: rest =>
      if selected_pair_less y x then y :: insert_in_order x rest else x :: y :: rest
  end.

Fixpoint stable_sort (l : list selected_pair) : list selected_pair :=
  match l with
  | [] => []
  | x :: rest => insert_in_order x (stable_sort rest)
  end.

(** [update_best_pair_selections], on the deque [prm_selected_pairs] and
    [global_lower_mask_matrix].  ([pop_front] finds the deque non-empty: it
    holds at least the pair just pushed.) *)
Definition update_best_pair_selections
  (prm_selected_pairs : list selected_pair) (global_lower_mask_matrix : Z -> Z -> bool)
  (prm_potential_pair : selected_pair) (prm_max_num_selections : Z)
  : list selected_pair * (Z -> Z -> bool) :=
  let index_a := get_index_a prm_potential_pair in
  let index_b := get_index_b prm_potential_pair in
  let mask := mask_set global_lower_mask_matrix index_b index_a false in
  let full := prm_max_num_selections <=? Z.of_nat (length prm_selected_pairs) in
  let new_beats_first :=
    match prm_selected_pairs with
    | [] => false
    | first :: _ => get_score first <? get_score prm_potential_pair
    end in
  if negb full || new_beats_first then
    let sorted := stable_sort (prm_potential_pair :: prm_selected_pairs) in
    let popped :=
      if full then
        match sorted with
        | first :: rest =>
            (rest, mask_set mask (get_index_b first) (get_index_a first) false)
        | [] => (sorted, mask)
        end
      else (sorted, mask) in
    (fst popped, mask_set (snd popped) index_b index_a true)
  else (prm_selected_pairs, mask).

(** The globals that [select_pairs] writes. *)
Record selection_globals : Type := mk_selection_globals {
  global_lower_mask_matrix : Z -> Z -> bool;
  global_upper_ss_mask_matrix : Z -> Z -> bool;
  global_selections : list (Z * Z);
  global_num_selections : Z;
  global_frac_selected : float
}.

(** The local variables of [select_pairs] and the two masks, while its
    loops run. *)
Record selection_state : Type := mk_selection_state {
  lower_mask : Z -> Z -> bool;
  upper_ss_mask : Z -> Z -> bool;
  selected_pairs : list selected_pair;
  num_entries_selected : Z;
  total_num_entries_considered : Z
}.

(** What is fixed in a call of [select_pairs]: the two lengths the querier
    reports, [global_window], [global_align_pass], whether the querier is
    the residue querier, and, as they are not among the sources, the
    querier's [are_similar__offset_1] on the two proteins (which may throw),
    the reads of [global_upper_score_matrix] and the window arithmetic. *)
Variable length_a length_b : Z.
Variable global_window : Z.
Variable global_align_pass : bool.
Variable temp_hacky_is_residue : bool.
Variable are_similar__offset_1 : Z -> Z -> outcome bool.
Variable global_upper_score_matrix_get : Z -> Z -> Z.
Variable get_window_matrix_a_index__offset_1 : Z -> Z -> Z -> Z -> Z -> Z.
Variable get_window_start_a_for_b__offset_1 : Z -> Z -> Z -> Z -> Z.
Variable get_window_stop_a_for_b__offset_1 : Z -> Z -> Z -> Z -> Z.

(** The body of the inner loop. *)
Definition select_cell
  (prm_pass : Z) (ctr_b__offset_1 : Z) (st : selection_state) (ctr_a : Z)
  : outcome selection_state :=
  let ctr_a__offset_1 := SizeT.add ctr_a 1 in
  let total := SizeT.add (total_num_entries_considered st) 1 in
  let a_matrix_idx__offset_1 :=
    get_window_matrix_a_index__offset_1 length_a length_b global_window
      ctr_a__offset_1 ctr_b__offset_1 in
  if prm_pass =? 1 then
    lift_outcome (are_similar__offset_1 ctr_a__offset_1 ctr_b__offset_1)
      (fun similar =>
         if similar : bool then
           Returns (mk_selection_state
                      (mask_set (lower_mask st) ctr_b__offset_1 ctr_a__offset_1 true)
                      (mask_set (upper_ss_mask st) ctr_b__offset_1 ctr_a__offset_1 true)
                      (selected_pairs st)
                      (SizeT.add (num_entries_selected st) 1) total)
         else
           Returns (mk_selection_state
                      (mask_set (lower_mask st) ctr_b__offset_1 ctr_a__offset_1 false)
                      (mask_set (upper_ss_mask st) ctr_b__offset_1 ctr_a__offset_1 false)
                      (selected_pairs st) (num_entries_selected st) total))
  else
    lift_outcome (numeric_cast_int_to_size_t a_matrix_idx__offset_1)
      (fun col =>
         let score := global_upper_score_matrix_get ctr_b__offset_1 col in
         let updated :=
           update_best_pair_selections (selected_pairs st) (lower_mask st)
             (mk_selected_pair ctr_a__offset_1 ctr_b__offset_1 score)
             NUM_SELECTIONS_TO_SAVE in
         Returns (mk_selection_state (snd updated) (upper_ss_mask st) (fst updated)
                    (num_entries_selected st) total)).

(** The body of the outer loop. *)
Definition select_row (prm_pass : Z) (st : selection_state) (ctr_b : Z)
  : outcome selection_state :=
  let ctr_b__offset_1 := SizeT.add ctr_b 1 in
  let window_start__offset_1 :=
    get_window_start_a_for_b__offset_1 length_a length_b global_window ctr_b__offset_1 in
  let window_stop__offset_1 :=
    get_window_stop_a_for_b__offset_1 length_a length_b global_window ctr_b__offset_1 in
  fold_outcome (rev (irange (SizeT.sub window_start__offset_1 1) window_stop__offset_1))
               (select_cell prm_pass ctr_b__offset_1) st.

(** The two loops, from the globals at entry. *)
Definition select_over_window (prm_pass : Z) (g : selection_globals)
  : outcome selection_state :=
  fold_outcome (rev (irange 0 length_b)) (select_row prm_pass)
    (mk_selection_state (global_lower_mask_matrix g) (global_upper_ss_mask_matrix g)
                        [] 0 0).

(** One pass of the loop that copies the selected pairs into
    [global_selections]; writing past the end of the vector is undefined
    behaviour. *)
Definition copy_selection
  (pairs : list selected_pair) (selections : list (Z * Z)) (selected_ctr : nat)
  : outcome (list (Z * Z)) :=
  let index_in_global_selections :=
    SizeT.sub (SizeT.add NUM_SELECTIONS_TO_SAVE 1)
              (SizeT.sub (Z.of_nat (length pairs)) (Z.of_nat selected_ctr)) in
  match nth_error pairs selected_ctr with
  | Some selected =>
      if index_in_global_selections <? Z.of_nat (length selections)
      then Returns (list_set selections (Z.to_nat index_in_global_selections)
                             (get_index_a selected, get_index_b selected))
      else Undefined
  | None => Undefined
  end.

(** [select_pairs] *)
Definition select_pairs (prm_pass : Z) (g : selection_globals) : outcome selection_globals :=
  lift_outcome (select_over_window prm_pass g)
    (fun st =>
  lift_outcome
    (if global_align_pass && temp_hacky_is_residue then
       lift_outcome
         (fold_outcome (seq 0 (length (selected_pairs st)))
            (copy_selection (selected_pairs st))
            (repeat (0, 0) (Z.to_nat (NUM_SELECTIONS_TO_SAVE + 1))))
         (fun selections => Returns (selections, NUM_SELECTIONS_TO_SAVE))
     else Returns (global_selections g, global_num_selections g))
    (fun selections_and_num =>
  let num_entries_selected :=
    if 1 <? prm_pass then NUM_SELECTIONS_TO_SAVE else num_entries_selected st in
  let frac_selected :=
    if global_align_pass && temp_hacky_is_residue
    then (Double.of_Z num_entries_selected
          / Double.of_Z (total_num_entries_considered st))%float
    else global_frac_selected g in
  Returns (mk_selection_globals (lower_mask st) (upper_ss_mask st)
             (fst selections_and_num) (snd selections_and_num) frac_selected))).

(** The cells of the window, as [select_pairs] visits them: the pairs
    [(ctr_a__offset_1, ctr_b__offset_1)] in the order of its two loops. *)
Definition window_row_cells (ctr_b : Z) : list (Z * Z) :=
  let ctr_b__offset_1 := SizeT.add ctr_b 1 in
  map (fun ctr_a => (SizeT.add ctr_a 1, ctr_b__offset_1))
      (rev (irange
              (SizeT.sub (get_window_start_a_for_b__offset_1 length_a length_b
                            global_window ctr_b__offset_1) 1)
              (get_window_stop_a_for_b__offset_1 length_a length_b global_window
                 ctr_b__offset_1))).

Definition window_cells : list (Z * Z) :=
  flat_map window_row_cells (rev (irange 0 length_b)).

(** The pair that [select_pairs] offers for a cell on a later pass (when
    the window's column index is not negative). *)
Definition pair_of_cell (cell : Z * Z) : selected_pair :=
  mk_selected_pair (fst cell) (snd cell)
    (global_upper_score_matrix_get (snd cell)
       (get_window_matrix_a_index__offset_1 length_a length_b global_window
          (fst cell) (snd cell))).

End BestPairSelections.

(** A list of pairs in ascending order of score. *)
Definition ascending_by_score (l : list selected_pair) : Prop :=
  StronglySorted (fun x y => get_score x <= get_score y) l.

(** [kept] holds the best-scoring pairs of [seen], at most [limit] of
    them: the two lists [kept] and [dropped] make up [seen], no dropped pair
    scores above a kept one, and pairs are dropped only once [limit] are
    kept. *)
Definition best_of (limit : Z) (seen kept : list selected_pair) : Prop :=
  exists dropped,
    Permutation (kept ++ dropped) seen
    /\ (forall d k, In d dropped -> In k kept -> get_score d <= get_score k)
    /\ Z.of_nat (length kept) <= Z.max 0 limit
    /\ (dropped = [] \/ Z.of_nat (length kept) = Z.max 0 limit).

End SelectPairs.

(** ** ssap.cpp: the runs and passes of SSAP *)

Module SsapRun.

Import Alignment EntryQuerier Ssap.

(** What a call throws: an exception of [exn] (here boost's
    [bad_numeric_cast] family, from a [numeric_cast]), cath's
    [out_of_range_exception] with its message, or whatever a function that
    is not among the sources threw. *)
Inductive raised (E : Type) : Type :=
| thrown (e : exn)
| out_of_range_exception (msg : string)
| raised_by_callee (e : E).

Arguments thrown {E} e.
Arguments out_of_range_exception {E} msg.
Arguments raised_by_callee {E} e.

(** How a call ends: it returns, it throws, or its behaviour is
    undefined, of which the model says nothing more. *)
Inductive ending (E A : Type) : Type :=
| Ends (a : A)
| Raises (e : raised E)
| Unspecified.

Arguments Ends {E A} a.
Arguments Raises {E A} e.
Arguments Unspecified {E A}.

(** How a call of a function that is not among the sources ends. *)
Inductive callee_ending (E A : Type) : Type :=
| Callee_returns (a : A)
| Callee_throws (e : E)
| Callee_undefined.

Arguments Callee_returns {E A} a.
Arguments Callee_throws {E A} e.
Arguments Callee_undefined {E A}.

(** Modelled from the spec: [old_ssap_options_block] is not among the
    sources.  The options that the runs read: whether only slow SSAP is
    wanted, the clique file if any, whether the local score (the one over
    the smaller protein) is the one selected, and the thresholds. *)
Record old_ssap_options_block : Type := mk_old_ssap_options_block {
  get_slow_ssap_only : bool;
  get_opt_clique_file : option string;
  get_use_local_ssap_score : bool;
  get_max_score_to_fast_ssap_rerun : float;
  get_max_score_to_slow_ssap_rerun : float;
  get_min_score_for_writing_files : float;
  get_min_score_for_superposition : float;
  get_write_all_scores : bool
}.

Definition has_clique_file (prm_ssap_options : old_ssap_options_block) : bool :=
  match get_opt_clique_file prm_ssap_options with
  | Some _ => true
  | None => false
  end.

(** The globals of ssap.cpp ([global_debug], which only switches
    messages, apart).  [global_matrices] stands for the four matrices,
    [global_selections] and [global_frac_selected], which only the
    functions called by [compare] read and write. *)
Record ssap_globals (W : Type) : Type := mk_ssap_globals {
  global_matrices : W;
  global_num_selections : Z;
  global_window : Z;
  global_window_add : Z;
  global_res_sim_cutoff : Z;
  global_run_counter : Z;
  global_gap_penalty : Z;
  global_align_pass : bool;
  global_supaln : bool;
  global_doing_fast_ssap : bool;
  global_res_score : bool;
  global_score_run1 : float;
  global_score_run2 : float;
  global_ssap_score1 : float;
  global_ssap_score2 : float;
  global_ssap_line1 : string;
  global_ssap_line2 : string
}.

Arguments mk_ssap_globals {W} _ _ _ _ _ _ _ _ _ _ _ _ _ _ _ _ _.
Arguments global_matrices {W} _.
Arguments global_num_selections {W} _.
Arguments global_window {W} _.
Arguments global_window_add {W} _.
Arguments global_res_sim_cutoff {W} _.
Arguments global_run_counter {W} _.
Arguments global_gap_penalty {W} _.
Arguments global_align_pass {W} _.
Arguments global_supaln {W} _.
Arguments global_doing_fast_ssap {W} _.
Arguments global_res_score {W} _.
Arguments global_score_run1 {W} _.
Arguments global_score_run2 {W} _.
Arguments global_ssap_score1 {W} _.
Arguments global_ssap_score2 {W} _.
Arguments global_ssap_line1 {W} _.
Arguments global_ssap_line2 {W} _.

(** [boost::numeric_cast<size_t>( double )]: truncation; values at or
    below [-1] and at or beyond [2^64] throw; a NaN passes boost's range
    check and is then converted with undefined behaviour. *)
Definition numeric_cast_double_to_size_t (x : float) : outcome Z :=
  match Prim2SF x with
  | S754_nan => Undefined
  | S754_infinity s => Throws (if s then negative_overflow else positive_overflow)
  | _ =>
      match Double.truncate x with
      | Some z =>
          if z <=? - 1 then Throws negative_overflow
          else if SizeT.modulus <=? z then Throws positive_overflow
          else Returns z
      | None => Undefined
      end
  end.

(** [reset_ssap_global_variables], given the matrices and selections
    once cleared. *)
Definition reset_ssap_global_variables {W : Type} (cleared : W) : ssap_globals W :=
  mk_ssap_globals cleared 0 0 70 150 0 50 false true true false
    0%float 0%float 0%float 0%float EmptyString EmptyString.

(** [ssap_scores()]: no score set. *)
Definition no_scores : ssap_scores float := mk_ssap_scores None None None None None None.

Section Run.

Context {E W : Type}.

(** Assignments to the globals. *)
Definition set_matrices (v : W) (g : ssap_globals W) : ssap_globals W :=
  mk_ssap_globals v (global_num_selections g) (global_window g) (global_window_add g)
    (global_res_sim_cutoff g) (global_run_counter g) (global_gap_penalty g)
    (global_align_pass g) (global_supaln g) (global_doing_fast_ssap g) (global_res_score g)
    (global_score_run1 g) (global_score_run2 g) (global_ssap_score1 g)
    (global_ssap_score2 g) (global_ssap_line1 g) (global_ssap_line2 g).

Definition set_num_selections (v : Z) (g : ssap_globals W) : ssap_globals W :=
  mk_ssap_globals (global_matrices g) v (global_window g) (global_window_add g)
    (global_res_sim_cutoff g) (global_run_counter g) (global_gap_penalty g)
    (global_align_pass g) (global_supaln g) (global_doing_fast_ssap g) (global_res_score g)
    (global_score_run1 g) (global_score_run2 g) (global_ssap_score1 g)
    (global_ssap_score2 g) (global_ssap_line1 g) (global_ssap_line2 g).

Definition set_window (v : Z) (g : ssap_globals W) : ssap_globals W :=
  mk_ssap_globals (global_matrices g) (global_num_selections g) v (global_window_add g)
    (global_res_sim_cutoff g) (global_run_counter g) (global_gap_penalty g)
    (global_align_pass g) (global_supaln g) (global_doing_fast_ssap g) (global_res_score g)
    (global_score_run1 g) (global_score_run2 g) (global_ssap_score1 g)
    (global_ssap_score2 g) (global_ssap_line1 g) (global_ssap_line2 g).

Definition set_window_add (v : Z) (g : ssap_globals W) : ssap_globals W :=
  mk_ssap_globals (global_matrices g) (global_num_selections g) (global_window g) v
    (global_res_sim_cutoff g) (global_run_counter g) (global_gap_penalty g)
    (global_align_pass g) (global_supaln g) (global_doing_fast_ssap g) (global_res_score g)
    (global_score_run1 g) (global_score_run2 g) (global_ssap_score1 g)
    (global_ssap_score2 g) (global_ssap_line1 g) (global_ssap_line2 g).

Definition set_res_sim_cutoff (v : Z) (g : ssap_globals W) : ssap_globals W :=
  mk_ssap_globals (global_matrices g) (global_num_selections g) (global_window g)
    (global_window_add g) v (global_run_counter g) (global_gap_penalty g)
    (global_align_pass g) (global_supaln g) (global_doing_fast_ssap g) (global_res_score g)
    (global_score_run1 g) (global_score_run2 g) (global_ssap_score1 g)
    (global_ssap_score2 g) (global_ssap_line1 g) (global_ssap_line2 g).

Definition set_run_counter (v : Z) (g : ssap_globals W) : ssap_globals W :=
  mk_ssap_globals (global_matrices g) (global_num_selections g) (global_window g)
    (global_window_add g) (global_res_sim_cutoff g) v (global_gap_penalty g)
    (global_align_pass g) (global_supaln g) (global_doing_fast_ssap g) (global_res_score g)
    (global_score_run1 g) (global_score_run2 g) (global_ssap_score1 g)
    (global_ssap_score2 g) (global_ssap_line1 g) (global_ssap_line2 g).

Definition set_gap_penalty (v : Z) (g : ssap_globals W) : ssap_globals W :=
  mk_ssap_globals (global_matrices g) (global_num_selections g) (global_window g)
    (global_window_add g) (global_res_sim_cutoff g) (global_run_counter g) v
    (global_align_pass g) (global_supaln g) (global_doing_fast_ssap g) (global_res_score g)
    (global_score_run1 g) (global_score_run2 g) (global_ssap_score1 g)
    (global_ssap_score2 g) (global_ssap_line1 g) (global_ssap_line2 g).

Definition set_align_pass (v : bool) (g : ssap_globals W) : ssap_globals W :=
  mk_ssap_globals (global_matrices g) (global_num_selections g) (global_window g)
    (global_window_add g) (global_res_sim_cutoff g) (global_run_counter g)
    (global_gap_penalty g) v (global_supaln g) (global_doing_fast_ssap g)
    (global_res_score g) (global_score_run1 g) (global_score_run2 g)
    (global_ssap_score1 g) (global_ssap_score2 g) (global_ssap_line1 g)
    (global_ssap_line2 g).

Definition set_doing_fast_ssap (v : bool) (g : ssap_globals W) : ssap_globals W :=
  mk_ssap_globals (global_matrices g) (global_num_selections g) (global_window g)
    (global_window_add g) (global_res_sim_cutoff g) (global_run_counter g)
    (global_gap_penalty g) (global_align_pass g) (global_supaln g) v
    (global_res_score g) (global_score_run1 g) (global_score_run2 g)
    (global_ssap_score1 g) (global_ssap_score2 g) (global_ssap_line1 g)
    (global_ssap_line2 g).

Definition set_res_score (v : bool) (g : ssap_globals W) : ssap_globals W :=
  mk_ssap_globals (global_matrices g) (global_num_selections g) (global_window g)
    (global_window_add g) (global_res_sim_cutoff g) (global_run_counter g)
    (global_gap_penalty g) (global_align_pass g) (global_supaln g)
    (global_doing_fast_ssap g) v (global_score_run1 g) (global_score_run2 g)
    (global_ssap_score1 g) (global_ssap_score2 g) (global_ssap_line1 g)
    (global_ssap_line2 g).

Definition set_score_run1 (v : float) (g : ssap_globals W) : ssap_globals W :=
  mk_ssap_globals (global_matrices g) (global_num_selections g) (global_window g)
    (global_window_add g) (global_res_sim_cutoff g) (global_run_counter g)
    (global_gap_penalty g) (global_align_pass g) (global_supaln g)
    (global_doing_fast_ssap g) (global_res_score g) v (global_score_run2 g)
    (global_ssap_score1 g) (global_ssap_score2 g) (global_ssap_line1 g)
    (global_ssap_line2 g).

Definition set_score_run2 (v : float) (g : ssap_globals W) : ssap_globals W :=
  mk_ssap_globals (global_matrices g) (global_num_selections g) (global_window g)
    (global_window_add g) (global_res_sim_cutoff g) (global_run_counter g)
    (global_gap_penalty g) (global_align_pass g) (global_supaln g)
    (global_doing_fast_ssap g) (global_res_score g) (global_score_run1 g) v
    (global_ssap_score1 g) (global_ssap_score2 g) (global_ssap_line1 g)
    (global_ssap_line2 g).

(** The line and the score of the first run, and of the second. *)
Definition set_ssap_line1_and_score1 (line : string) (v : float) (g : ssap_globals W)
  : ssap_globals W :=
  mk_ssap_globals (global_matrices g) (global_num_selections g) (global_window g)
    (global_window_add g) (global_res_sim_cutoff g) (global_run_counter g)
    (global_gap_penalty g) (global_align_pass g) (global_supaln g)
    (global_doing_fast_ssap g) (global_res_score g) (global_score_run1 g)
    (global_score_run2 g) v (global_ssap_score2 g) line (global_ssap_line2 g).

Definition set_ssap_line2_and_score2 (line : string) (v : float) (g : ssap_globals W)
  : ssap_globals W :=
  mk_ssap_globals (global_matrices g) (global_num_selections g) (global_window g)
    (global_window_add g) (global_res_sim_cutoff g) (global_run_counter g)
    (global_gap_penalty g) (global_align_pass g) (global_supaln g)
    (global_doing_fast_ssap g) (global_res_score g) (global_score_run1 g)
    (global_score_run2 g) (global_ssap_score1 g) v (global_ssap_line1 g) line.

(** Calls thread the globals; a call that throws leaves them as they
    were when it threw. *)
Definition run (A : Type) : Type := ssap_globals W -> ending E A * ssap_globals W.

Definition ret {A : Type} (a : A) : run A := fun g => (Ends a, g).

Definition bind {A B : Type} (c : run A) (k : A -> run B) : run B :=
  fun g =>
    match c g with
    | (Ends a, g') => k a g'
    | (Raises e, g') => (Raises e, g')
    | (Unspecified, g') => (Unspecified, g')
    end.

Definition current : run (ssap_globals W) := fun g => (Ends g, g).

Definition update (f : ssap_globals W -> ssap_globals W) : run unit :=
  fun g => (Ends tt, f g).

Definition raise {A : Type} (e : raised E) : run A := fun g => (Raises e, g).

Definition of_callee {A : Type} (c : callee_ending E A) : run A :=
  fun g =>
    match c with
    | Callee_returns a => (Ends a, g)
    | Callee_throws e => (Raises (raised_by_callee e), g)
    | Callee_undefined => (Unspecified, g)
    end.

Definition of_outcome {A : Type} (o : outcome A) : run A :=
  fun g =>
    match o with
    | Returns a => (Ends a, g)
    | Throws e => (Raises (thrown e), g)
    | Undefined => (Unspecified, g)
    end.

Local Notation "x <-- c ;; k" := (bind c (fun x => k))
  (at level 61, c at next level, right associativity).

(** What is fixed in a run on two proteins: the options; the proteins'
    numbers of residues and of secondary structures; and what is not among
    the sources: the lengths a querier reports for the two proteins, the
    getters of [ssap_scores], [common_residue_select_min_score_policy]'s
    [MIN_CUTOFF], what [superpose] does (all of its work is done by
    functions that are not among the sources; it writes files and returns
    the number of superposed pairs and the RMSD), the text [snprintf] makes of a score line and of a line
    with the number of superposed pairs appended, the two lines of zero
    scores, and [write_alignment_as_cath_ssap_legacy_format]. *)
Variable prm_ssap_options : old_ssap_options_block.
Variable length_a length_b : Z.
Variable num_sec_strucs_a num_sec_strucs_b : Z.
Variable get_length_a get_length_b : entry_querier -> Z.
Variable get_ssap_score_over_smaller : ssap_scores float -> float.
Variable get_ssap_score_over_larger : ssap_scores float -> float.
Variable get_percentage_aligned_pairs_over_larger : ssap_scores float -> float.
Variable get_seq_id : ssap_scores float -> float.
Variable get_num_aligned_pairs : ssap_scores float -> Z.
Variable MIN_CUTOFF : float.
Variable superpose : alignment -> bool -> callee_ending E (Z * float).
Variable ssap_line : float -> Z -> Z -> Z -> float -> string.
Variable with_num_superposed : string -> Z -> string.
Variable zero_scores_line1 zero_scores_line2 : string.
Variable write_alignment_as_cath_ssap_legacy_format : alignment -> callee_ending E unit.

(** [calculate_log_score] on the two proteins, for a querier. *)
Variable calculate_log_score : entry_querier -> alignment -> outcome (ssap_scores float).

(** The functions that [compare] calls on the matrices: the resizing and
    the two assignments, by the numbers of rows and columns;
    [set_mask_matrix] and [select_pairs], which read the globals and write
    the matrices and [global_num_selections];
    [populate_upper_score_matrix], which writes the matrices; and the
    alignment of the upper matrix by [ssap_code_dyn_prog_aligner], with the
    scores then saved to the alignment, which gives the score and the
    alignment. *)
Variable resize_matrices : Z -> Z -> W -> W.
Variable assign_upper_ss_and_lower_masks : Z -> Z -> W -> W.
Variable assign_upper_score_matrix : Z -> Z -> W -> W.
Variable set_mask_matrix :
  option alignment -> option string -> ssap_globals W -> callee_ending E unit * (W * Z).
Variable select_pairs :
  Z -> entry_querier -> ssap_globals W -> callee_ending E unit * (W * Z).
Variable populate_upper_score_matrix :
  entry_querier -> bool -> ssap_globals W -> callee_ending E unit * W.
Variable align_upper_matrix :
  entry_querier -> ssap_globals W -> callee_ending E (Z * alignment).

(** A call that writes the matrices and [global_num_selections], and one
    that writes the matrices. *)
Definition writes_matrices_and_num_selections
  (c : ssap_globals W -> callee_ending E unit * (W * Z)) : run unit :=
  fun g =>
    of_callee (fst (c g))
      (set_num_selections (snd (snd (c g))) (set_matrices (fst (snd (c g))) g)).

Definition writes_matrices (c : ssap_globals W -> callee_ending E unit * W) : run unit :=
  fun g => of_callee (fst (c g)) (set_matrices (snd (c g)) g).

(** The score that is selected: the local one or the one over the
    larger protein. *)
Definition select_score_of (prm_ssap_scores : ssap_scores float) : float :=
  if get_use_local_ssap_score prm_ssap_options
  then get_ssap_score_over_smaller prm_ssap_scores
  else get_ssap_score_over_larger prm_ssap_scores.

(** The line that [save_ssap_scores] writes for a run (of its two
    [numeric_cast]s, the model takes the one of the percentage first). *)
Definition line_of_scores
  (select_score : float) (prm_ssap_scores : ssap_scores float)
  (num_superposed : Z) (rmsd : float) : run string :=
  percentage <-- of_outcome (numeric_cast_double_to_size_t
                               (get_percentage_aligned_pairs_over_larger prm_ssap_scores)) ;;
  seq_id <-- of_outcome (numeric_cast_double_to_size_t (get_seq_id prm_ssap_scores)) ;;
  let line :=
    ssap_line select_score (get_num_aligned_pairs prm_ssap_scores) percentage seq_id rmsd in
  ret (if (MIN_CUTOFF <? get_min_score_for_superposition prm_ssap_options)%float
       then with_num_superposed line num_superposed
       else line).

(** [save_ssap_scores] *)
Definition save_ssap_scores
  (prm_alignment : alignment) (prm_ssap_scores : ssap_scores float) : run bool :=
  let select_score := select_score_of prm_ssap_scores in
  let score_is_high_enough :=
    (get_min_score_for_writing_files prm_ssap_options <=? select_score)%float in
  num_superposed_and_rmsd <-- of_callee (superpose prm_alignment score_is_high_enough) ;;
  let num_superposed := fst num_superposed_and_rmsd in
  let rmsd := snd num_superposed_and_rmsd in
  g <-- current ;;
  _ <-- (if global_run_counter g =? 1 then
           line <-- line_of_scores select_score prm_ssap_scores num_superposed rmsd ;;
           update (set_ssap_line1_and_score1 line select_score)
         else if global_run_counter g =? 2 then
           line <-- line_of_scores select_score prm_ssap_scores num_superposed rmsd ;;
           update (set_ssap_line2_and_score2 line select_score)
         else ret tt) ;;
  ret score_is_high_enough.

(** [save_zero_scores] *)
Definition save_zero_scores (prm_run_counter : Z) : run unit :=
  if prm_run_counter =? 1 then update (set_ssap_line1_and_score1 zero_scores_line1 0%float)
  else if prm_run_counter =? 2
       then update (set_ssap_line2_and_score2 zero_scores_line2 0%float)
       else ret tt.

(** [print_ssap_scores]: the lines written to the stream. *)
Definition print_ssap_scores
  (prm_ssap_score_1 prm_ssap_score_2 : float) (prm_ssap_line1 prm_ssap_line2 : string)
  (prm_run_counter : Z) (prm_write_all_scores : bool) : list string :=
  if prm_run_counter =? 1 then [prm_ssap_line1]
  else if prm_run_counter =? 2 then
    if prm_write_all_scores then [prm_ssap_line1; prm_ssap_line2]
    else [if (prm_ssap_score_1 <=? prm_ssap_score_2)%float
          then prm_ssap_line2 else prm_ssap_line1]
  else [].

(** The score [plot_aln] decides on for writing the alignment; [-1] when
    it is not to be written. *)
Definition out_score_of (g : ssap_globals W) : float :=
  let out_score := (- 1)%float in
  let out_score := if global_doing_fast_ssap g then global_score_run1 g else out_score in
  if negb (global_doing_fast_ssap g) && (global_score_run1 g <? global_score_run2 g)%float
  then global_score_run2 g
  else out_score.

(** [plot_aln] *)
Definition plot_aln
  (prm_pass : Z) (prm_entry_querier : entry_querier) (prm_alignment : alignment)
  : run (ssap_scores float) :=
  let res_not_ss__hacky := temp_hacky_is_residue prm_entry_querier in
  if res_not_ss__hacky && negb (prm_pass =? 2) then ret no_scores
  else
    local_ssap_scores <-- of_outcome (calculate_log_score prm_entry_querier prm_alignment) ;;
    if negb res_not_ss__hacky then ret no_scores
    else
      _ <-- update (set_res_score true) ;;
      let select_score := select_score_of local_ssap_scores in
      score_is_high_enough <-- save_ssap_scores prm_alignment local_ssap_scores ;;
      _ <-- update (fun g => if global_doing_fast_ssap g
                            then set_score_run1 select_score g
                            else set_score_run2 select_score g) ;;
      g <-- current ;;
      _ <-- (if global_supaln g then
               let out_score := out_score_of g in
               if (- 1 <? out_score)%float then
                 if negb (Bool.eqb score_is_high_enough
                            (get_min_score_for_writing_files prm_ssap_options
                             <=? out_score)%float)
                 then raise (out_of_range_exception
                               "Code is inconsistent about what score is high enough")
                 else if score_is_high_enough
                      then of_callee
                             (write_alignment_as_cath_ssap_legacy_format prm_alignment)
                      else ret tt
               else ret tt
             else ret tt) ;;
      ret local_ssap_scores.

(** [compare] *)
Definition compare
  (prm_pass_ctr : Z) (prm_entry_querier : entry_querier)
  (prm_previous_ss_alignment : option alignment) : run (ssap_scores float * alignment) :=
  let res_not_ss__hacky := temp_hacky_is_residue prm_entry_querier in
  let length_a := get_length_a prm_entry_querier in
  let length_b := get_length_b prm_entry_querier in
  g <-- current ;;
  let rows := SizeT.add length_b 1 in
  let cols := SizeT.add (SizeT.add length_a (global_window g)) 1 in
  _ <-- update (fun g => set_matrices (resize_matrices rows cols (global_matrices g)) g) ;;
  _ <-- (if negb res_not_ss__hacky || (prm_pass_ctr =? 1)
         then update (fun g => set_matrices
                                (assign_upper_ss_and_lower_masks rows cols
                                   (global_matrices g)) g)
         else ret tt) ;;
  _ <-- (if res_not_ss__hacky && (prm_pass_ctr =? 1)
         then writes_matrices_and_num_selections
                (set_mask_matrix prm_previous_ss_alignment
                   (get_opt_clique_file prm_ssap_options))
         else ret tt) ;;
  _ <-- writes_matrices_and_num_selections (select_pairs prm_pass_ctr prm_entry_querier) ;;
  _ <-- update (fun g => set_matrices
                          (assign_upper_score_matrix rows cols (global_matrices g)) g) ;;
  g <-- current ;;
  _ <-- writes_matrices
          (populate_upper_score_matrix prm_entry_querier (global_align_pass g)) ;;
  g <-- current ;;
  score_and_alignment <-- of_callee (align_upper_matrix prm_entry_querier g) ;;
  let score := fst score_and_alignment in
  let new_alignment := snd score_and_alignment in
  new_ssap_scores <-- (if negb (score =? 0)
                       then plot_aln prm_pass_ctr prm_entry_querier new_alignment
                       else ret no_scores) ;;
  _ <-- (if res_not_ss__hacky then
           if negb (score =? 0) then update (set_res_score true)
           else
             g <-- current ;;
             _ <-- save_zero_scores (global_run_counter g) ;;
             update (set_res_score false)
         else ret tt) ;;
  ret (new_ssap_scores, new_alignment).

(** One turn of the loop over the two residue passes, in [fast_ssap] and
    in [align_proteins]: the scores of the comparison if one is made. *)
Definition residue_pass
  (prm_previous_ss_alignment : option alignment) (pass_ctr : Z)
  : run (option (ssap_scores float)) :=
  _ <-- update (set_align_pass (1 <? pass_ctr)) ;;
  g <-- current ;;
  if (pass_ctr =? 1) || ((pass_ctr =? 2) && global_res_score g)
  then scores_and_aln <-- compare pass_ctr residue_querier prm_previous_ss_alignment ;;
       ret (Some (fst scores_and_aln))
  else ret None.

(** The window for the residues: the difference of the lengths plus
    [global_window_add]. *)
Definition residue_window (g : ssap_globals W) : Z :=
  let max_protein_length := Z.max length_a length_b in
  let min_protein_length := Z.min length_a length_b in
  SizeT.add (SizeT.sub max_protein_length min_protein_length) (global_window_add g).

(** [fast_ssap] *)
Definition fast_ssap : run (ssap_scores float) :=
  _ <-- update (fun g => set_run_counter (global_run_counter g + 1) g) ;;
  scores_and_alignment <-- compare 1 sec_struc_querier None ;;
  let new_ssap_scores := fst scores_and_alignment in
  let sec_struc_alignment := snd scores_and_alignment in
  _ <-- update (fun g =>
                 set_num_selections 0
                   (set_doing_fast_ssap true
                      (set_window (residue_window g)
                         (set_gap_penalty 50 (set_align_pass false g))))) ;;
  first <-- residue_pass (Some sec_struc_alignment) 1 ;;
  let new_ssap_scores :=
    match first with Some scores => scores | None => new_ssap_scores end in
  second <-- residue_pass (Some sec_struc_alignment) 2 ;;
  let new_ssap_scores :=
    match second with Some scores => scores | None => new_ssap_scores end in
  ret new_ssap_scores.

(** The options [align_proteins] sets before a run of fast SSAP. *)
Definition fast_ssap_settings (g : ssap_globals W) : ssap_globals W :=
  set_window (Z.max num_sec_strucs_a num_sec_strucs_b)
    (set_gap_penalty 5 (set_align_pass false (set_res_score false g))).

(** The part of [align_proteins] that runs fast SSAP, up to three times:
    the scores of the last run, or [ssap_scores()] when there is none. *)
Definition run_fast_ssap : run (ssap_scores float) :=
  if negb (get_slow_ssap_only prm_ssap_options) then
    if (1 <? num_sec_strucs_a) && (1 <? num_sec_strucs_b) then
      fast_ssap_scores <-- fast_ssap ;;
      let first_score := get_ssap_score_over_larger fast_ssap_scores in
      if (first_score <? get_max_score_to_fast_ssap_rerun prm_ssap_options)%float
         && negb (has_clique_file prm_ssap_options)
      then
        _ <-- update (fun g => set_run_counter (global_run_counter g - 1) g) ;;
        _ <-- update (fun g =>
                       fast_ssap_settings
                         (set_window_add 1000 (set_res_sim_cutoff 1000 g))) ;;
        fast_ssap_scores <-- fast_ssap ;;
        let second_score := get_ssap_score_over_larger fast_ssap_scores in
        if (second_score <=? first_score)%float then
          _ <-- update (fun g => set_run_counter (global_run_counter g - 1) g) ;;
          _ <-- update (fun g =>
                         fast_ssap_settings
                           (set_window_add 70 (set_res_sim_cutoff 150 g))) ;;
          fast_ssap
        else ret fast_ssap_scores
      else ret fast_ssap_scores
    else ret no_scores
  else ret no_scores.

(** [align_proteins] *)
Definition align_proteins : run unit :=
  _ <-- update fast_ssap_settings ;;
  fast_ssap_scores <-- run_fast_ssap ;;
  let fast_ssap_result_is_close :=
    (get_max_score_to_slow_ssap_rerun prm_ssap_options
     <? get_ssap_score_over_larger fast_ssap_scores)%float in
  let run_slow_ssap :=
    negb (has_clique_file prm_ssap_options) && negb fast_ssap_result_is_close in
  if run_slow_ssap then
    _ <-- update (fun g => set_run_counter (global_run_counter g + 1) g) ;;
    _ <-- update (fun g =>
                   set_num_selections 0
                     (set_doing_fast_ssap false
                        (set_window (residue_window (set_window_add 70 g))
                           (set_window_add 70
                              (set_res_sim_cutoff 150
                                 (set_gap_penalty 50 (set_res_score false g))))))) ;;
    _ <-- residue_pass None 1 ;;
    _ <-- residue_pass None 2 ;;
    ret tt
  else ret tt.

End Run.

(** The globals that neither [compare] nor what it calls writes. *)
Definition settings_kept {W : Type} (g g' : ssap_globals W) : Prop :=
  global_window g' = global_window g
  /\ global_window_add g' = global_window_add g
  /\ global_res_sim_cutoff g' = global_res_sim_cutoff g
  /\ global_run_counter g' = global_run_counter g
  /\ global_gap_penalty g' = global_gap_penalty g
  /\ global_align_pass g' = global_align_pass g
  /\ global_supaln g' = global_supaln g
  /\ global_doing_fast_ssap g' = global_doing_fast_ssap g.

(** The globals that hold the results: the scores and lines of the two
    runs. *)
Definition results_kept {W : Type} (g g' : ssap_globals W) : Prop :=
  global_score_run1 g' = global_score_run1 g
  /\ global_score_run2 g' = global_score_run2 g
  /\ global_ssap_score1 g' = global_ssap_score1 g
  /\ global_ssap_score2 g' = global_ssap_score2 g
  /\ global_ssap_line1 g' = global_ssap_line1 g
  /\ global_ssap_line2 g' = global_ssap_line2 g.

End SsapRun.

(** ** ssap.cpp: the clique file and the mask matrices *)

Module MaskMatrix.

Import Alignment Ssap SsapRun.

(** Modelled from the spec: the [clique] and [sec_struc_equivalency]
    structs are not among the sources.  An equivalency holds, for each
    protein, the number of a secondary structure and the texts of the PDB
    numbers where it starts and ends; a clique holds its declared size and
    its equivalencies. *)
Record sec_struc_equivalency : Type := mk_sec_struc_equivalency {
  prota_ssnum : Z;
  prota_start : string;
  prota_end : string;
  protb_ssnum : Z;
  protb_start : string;
  protb_end : string
}.

Record clique : Type := mk_clique {
  cliquesize : Z;
  equivs : list sec_struc_equivalency
}.

(** The exceptions [read_clique_file] throws. *)
Inductive clique_exception : Type :=
| invalid_argument_exception (msg : string)
| runtime_error_exception (msg : string).

(** How a call of [read_clique_file] ends. *)
Inductive reading (A : Type) : Type :=
| Reads (a : A)
| Stops (e : clique_exception).

Arguments Reads {A} a.
Arguments Stops {A} e.

(** Modelled from the spec: [for_n] (common/algorithm) is not among the
    sources; [for_n( n, f )] calls [f] [n] times.  Here [f] acts on a state
    and may throw. *)
Fixpoint for_n {S : Type} (n : nat) (f : S -> reading S) (s : S) : reading S :=
  match n with
  | O => Reads s
  | Datatypes.S n' =>
      match f s with
      | Reads s' => for_n n' f s'
      | Stops e => Stops e
      end
  end.

(** The file being read: what [fgets] has yet to give (the strings its
    successive calls return before the end of the file), the buffer, and
    the equivalencies pushed back so far. *)
Record clique_reader : Type := mk_clique_reader {
  unread : list string;
  buffer : string;
  pushed_back : list sec_struc_equivalency
}.

Section ReadCliqueFile.

(** What [sscanf] makes of the buffer: the [cliquesize] of the new
    clique after [sscanf( buffer, "%zu", &cliquesize )], and the new
    equivalency after the [sscanf] of its six fields. *)
Variable scan_cliquesize : string -> Z.
Variable scan_equivalency : string -> sec_struc_equivalency.

(** The function that [read_clique_file] hands to [for_n]: it throws
    when [fgets] returns other than [nullptr], which it does unless the end
    of the file has been reached; at the end of the file [fgets] leaves the
    buffer as it was. *)
Definition read_equivalency (s : clique_reader) : reading clique_reader :=
  match unread s with
  | _ :: _ => Stops (runtime_error_exception "Parsing error in reading clique file")
  | [] =>
      Reads (mk_clique_reader [] (buffer s)
               (pushed_back s ++ [scan_equivalency (buffer s)]))
  end.

(** [read_clique_file], on the file as [fopen] finds it: [None] when it
    cannot be opened. *)
Definition read_clique_file (opened : option (list string)) : reading clique :=
  match opened with
  | None =>
      Stops (invalid_argument_exception
               "**** TEMPORARY ***** TEMPORARY ***** TEMPORARY ***** TEMPORARY *****")
  | Some [] => Stops (runtime_error_exception "Parsing error in reading clique file")
  | Some (first :: rest) =>
      let size := scan_cliquesize first in
      match for_n (Z.to_nat size) read_equivalency (mk_clique_reader rest first []) with
      | Reads s => Reads (mk_clique size (pushed_back s))
      | Stops e => Stops e
      end
  end.

End ReadCliqueFile.

(** The globals that [set_mask_matrix] writes. *)
Record mask_globals : Type := mk_mask_globals {
  global_upper_res_mask_matrix : Z -> Z -> bool;
  global_upper_ss_mask_matrix : Z -> Z -> bool;
  global_lower_mask_matrix : Z -> Z -> bool;
  global_num_selections : Z;
  global_frac_selected : float
}.

(** A [bool_vec_of_vec] local to a function, with its numbers of rows
    and columns; reading or writing outside them is undefined. *)
Record bool_vec_of_vec : Type := mk_bool_vec_of_vec {
  num_rows : Z;
  num_cols : Z;
  cells : Z -> Z -> bool
}.

Definition bool_vec_of_vec_get (m : bool_vec_of_vec) (row col : Z) : outcome bool :=
  if (row <? num_rows m) && (col <? num_cols m) then Returns (cells m row col)
  else Undefined.

Definition bool_vec_of_vec_set (m : bool_vec_of_vec) (row col : Z) (value : bool)
  : outcome bool_vec_of_vec :=
  if (row <? num_rows m) && (col <? num_cols m)
  then Returns (mk_bool_vec_of_vec (num_rows m) (num_cols m)
                  (SelectPairs.mask_set (cells m) row col value))
  else Undefined.

(** A loop that breaks at the first index whose test holds: whether
    there is one. *)
Fixpoint breaks_at_one (l : list Z) (test : Z -> outcome bool) : outcome bool :=
  match l with
  | [] => Returns false
  | k :: rest =>
      match test k with
      | Returns true => Returns true
      | Returns false => breaks_at_one rest test
      | Throws e => Throws e
      | Undefined => Undefined
      end
  end.

Section SetMaskMatrix.

(** What is fixed in a call of [set_mask_matrix]: the proteins' lengths;
    [global_window], [global_doing_fast_ssap] and [global_res_sim_cutoff];
    the clique file, if one is given, as [fopen] finds it ([None] when it
    cannot be opened); and, as they are not among the
    sources, the residues of the two proteins by index with their PDB
    numbers and the numbers of their secondary structures, [atoi], the last
    present positions of a secondary-structure alignment, and the window
    arithmetic. *)
Variable scan_cliquesize : string -> Z.
Variable scan_equivalency : string -> sec_struc_equivalency.
Variable length_a length_b : Z.
Variable global_window : Z.
Variable global_doing_fast_ssap : bool.
Variable global_res_sim_cutoff : Z.
Variable prm_clique_file : option (option (list string)).
Variable residue_a residue_b : Z -> residue.
Variable pdb_number_a pdb_number_b : Z -> Z.
Variable sec_struc_number_a sec_struc_number_b : Z -> Z.
Variable atoi : string -> Z.
Variable get_last_present_a_position : alignment -> option Z.
Variable get_last_present_b_position : alignment -> option Z.
Variable get_window_matrix_a_index__offset_1 : Z -> Z -> Z -> Z -> Z -> Z.
Variable get_window_start_a_for_b__offset_1 : Z -> Z -> Z -> Z -> Z.
Variable get_window_stop_a_for_b__offset_1 : Z -> Z -> Z -> Z -> Z.

Definition boundary : Z := 5.

(** The loops that initialise the arrays. *)
Definition clear_cell (g : mask_globals) (residue_ctr_b residue_ctr_a : Z) : mask_globals :=
  mk_mask_globals
    (SelectPairs.mask_set (global_upper_res_mask_matrix g) residue_ctr_b residue_ctr_a false)
    (SelectPairs.mask_set (global_upper_ss_mask_matrix g) residue_ctr_b residue_ctr_a false)
    (SelectPairs.mask_set (global_lower_mask_matrix g) residue_ctr_b residue_ctr_a false)
    (global_num_selections g) (global_frac_selected g).

Definition initialise_arrays (g : mask_globals) : mask_globals :=
  fold_left
    (fun g residue_ctr_b =>
       fold_left (fun g residue_ctr_a => clear_cell g residue_ctr_b residue_ctr_a)
                 (irange 0 (SizeT.add length_a 1)) g)
    (irange 0 (SizeT.add length_b 1)) g.

(** Whether the pair of residues matches the [k]th secondary structure
    of the clique: the test of the first loop over the clique. *)
Definition matches_sec_struc (clique_data : clique) (ctr_a ctr_b k : Z) : outcome bool :=
  match nth_error (equivs clique_data) (Z.to_nat k) with
  | Some equiv =>
      let bstart := atoi (protb_start equiv) - boundary in
      let bend := atoi (protb_end equiv) + boundary in
      let astart := atoi (prota_start equiv) - boundary in
      let aend := atoi (prota_end equiv) + boundary in
      Returns (negb (pdb_number_a ctr_a =? 0) && negb (pdb_number_b ctr_b =? 0)
               && (bstart <=? pdb_number_b ctr_b) && (pdb_number_b ctr_b <=? bend)
               && (astart <=? pdb_number_a ctr_a) && (pdb_number_a ctr_a <=? aend))
  | None => Undefined
  end.

(** Whether it lies between the [k]th and the next: the test of the
    second loop. *)
Definition lies_between_sec_strucs (clique_data : clique) (ctr_a ctr_b k : Z)
  : outcome bool :=
  match nth_error (equivs clique_data) (Z.to_nat (SizeT.add k 1)),
        nth_error (equivs clique_data) (Z.to_nat k) with
  | Some next, Some equiv =>
      let bstart := atoi (protb_start next) + boundary in
      let bend := atoi (protb_end equiv) - boundary in
      let astart := atoi (prota_start next) + boundary in
      let aend := atoi (prota_end equiv) - boundary in
      Returns (negb (pdb_number_a ctr_a =? 0) && negb (pdb_number_b ctr_b =? 0)
               && (pdb_number_b ctr_b <? bstart) && (bend <? pdb_number_b ctr_b)
               && (pdb_number_a ctr_a <? astart) && (aend <? pdb_number_a ctr_a))
  | _, _ => Undefined
  end.

Definition set_lower_mask (value : bool) (lower : Z -> Z -> bool) (ctr_b ctr_a : Z)
  : Z -> Z -> bool :=
  if value then SelectPairs.mask_set lower (SizeT.add ctr_b 1) (SizeT.add ctr_a 1) true
  else lower.

(** The body of the loops that set equivalent residues in secondary
    structures, on [global_lower_mask_matrix]. *)
Definition set_equivalent_residues
  (clique_data : clique) (ctr_b : Z) (lower : Z -> Z -> bool) (ctr_a : Z)
  : outcome (Z -> Z -> bool) :=
  let clique_size := Z.of_nat (List.length (equivs clique_data)) in
  lift_outcome
    (breaks_at_one (irange 0 clique_size) (matches_sec_struc clique_data ctr_a ctr_b))
    (fun matched =>
  let lower := set_lower_mask matched lower ctr_b ctr_a in
  lift_outcome
    (breaks_at_one (irange 0 (SizeT.sub clique_size 1))
       (lies_between_sec_strucs clique_data ctr_a ctr_b))
    (fun between => Returns (set_lower_mask between lower ctr_b ctr_a))).

(** The body of the loops that set equivalent pairs at the beginning and
    the end of the alignment. *)
Definition set_ends_of_alignment
  (firsta firstb lasta lastb : Z) (ctr_b : Z) (lower : Z -> Z -> bool) (ctr_a : Z)
  : Z -> Z -> bool :=
  let lower :=
    set_lower_mask ((lasta <? pdb_number_a ctr_a) && (lastb <? pdb_number_b ctr_b))
      lower ctr_b ctr_a in
  set_lower_mask ((pdb_number_a ctr_a <? firsta) && (pdb_number_b ctr_b <? firstb))
    lower ctr_b ctr_a.

(** What [set_mask_matrix] does with the clique it has read. *)
Definition use_clique (clique_data : clique) (lower : Z -> Z -> bool)
  : outcome (Z -> Z -> bool) :=
  let clique_size := Z.of_nat (List.length (equivs clique_data)) in
  lift_outcome
    (fold_outcome (rev (irange 0 length_b))
       (fun lower ctr_b =>
          fold_outcome (rev (irange 0 length_a))
            (set_equivalent_residues clique_data ctr_b) lower)
       lower)
    (fun lower =>
  match nth_error (equivs clique_data) 0,
        nth_error (equivs clique_data) (Z.to_nat (SizeT.sub clique_size 1)) with
  | Some first, Some last =>
      let firsta := atoi (prota_start first) + boundary in
      let firstb := atoi (protb_start first) + boundary in
      let lasta := atoi (prota_end last) - boundary in
      let lastb := atoi (protb_end last) - boundary in
      Returns
        (fold_left
           (fun lower ctr_b =>
              fold_left (set_ends_of_alignment firsta firstb lasta lastb ctr_b)
                        (rev (irange 0 length_a)) lower)
           (rev (irange 0 length_b)) lower)
  | _, _ => Undefined
  end).

(** [sec_struc_match_matrix], from the secondary-structure alignment. *)
Definition mark_aligned_sec_strucs
  (ss_alignment : alignment) (m : bool_vec_of_vec) (alignment_ctr : nat)
  : outcome bool_vec_of_vec :=
  if has_both_positions_of_index ss_alignment alignment_ctr
  then bool_vec_of_vec_set m
         (Z.of_nat (get_b_offset_1_position_of_index ss_alignment alignment_ctr))
         (Z.of_nat (get_a_offset_1_position_of_index ss_alignment alignment_ctr))
         true
  else Returns m.

Definition sec_struc_match_matrix_of (prm_opt_ss_alignment : option alignment)
  : outcome bool_vec_of_vec :=
  let unassigned := mk_bool_vec_of_vec 0 0 (fun _ _ => false) in
  match prm_opt_ss_alignment with
  | Some ss_alignment =>
      match get_last_present_a_position ss_alignment,
            get_last_present_b_position ss_alignment with
      | Some last_present_a, Some last_present_b =>
          fold_outcome (seq 0 (Alignment.length ss_alignment))
            (mark_aligned_sec_strucs ss_alignment)
            (mk_bool_vec_of_vec (SizeT.add last_present_b 2) (SizeT.add last_present_a 2)
               (fun _ _ => false))
      | _, _ => Returns unassigned
      end
  | None => Returns unassigned
  end.

(** [residues_have_similar_area_angle_props( residue_a, residue_b )] on
    the residues at two indices. *)
Definition similar_residues (residue_ctr_a residue_ctr_b : Z) : outcome bool :=
  residues_have_similar_area_angle_props global_res_sim_cutoff
    (residue_a residue_ctr_a) (residue_b residue_ctr_b).

(** Whether the last loops select a pair of residues: the conditions of
    their three branches, evaluated from the left. *)
Definition is_selected
  (prm_opt_ss_alignment : option alignment) (sec_struc_match_matrix : bool_vec_of_vec)
  (lower : Z -> Z -> bool) (residue_ctr_a residue_ctr_b : Z) : outcome bool :=
  if global_doing_fast_ssap then
    match prm_clique_file with
    | Some _ =>
        if lower (SizeT.add residue_ctr_b 1) (SizeT.add residue_ctr_a 1)
        then similar_residues residue_ctr_a residue_ctr_b
        else Returns false
    | None =>
        if negb (sec_struc_number_a residue_ctr_a =? 0)
           && negb (sec_struc_number_b residue_ctr_b =? 0)
           && match prm_opt_ss_alignment with Some _ => true | None => false end
        then lift_outcome
               (bool_vec_of_vec_get sec_struc_match_matrix
                  (sec_struc_number_b residue_ctr_b) (sec_struc_number_a residue_ctr_a))
               (fun matched =>
                  if matched : bool then similar_residues residue_ctr_a residue_ctr_b
                  else Returns false)
        else Returns false
    end
  else similar_residues residue_ctr_a residue_ctr_b.

(** The local variables of the last loops, with the mask they write. *)
Record mask_selection : Type := mk_mask_selection {
  upper_res_mask : Z -> Z -> bool;
  total_num_residues_considered : Z;
  num_residues_selected : Z
}.

(** The body of the inner of the last loops. *)
Definition select_residue_pair
  (prm_opt_ss_alignment : option alignment) (sec_struc_match_matrix : bool_vec_of_vec)
  (lower : Z -> Z -> bool) (residue_ctr_b : Z) (st : mask_selection) (residue_ctr_a : Z)
  : outcome mask_selection :=
  let residue_ctr_b__offset_1 := SizeT.add residue_ctr_b 1 in
  let residue_ctr_a__offset_1 := SizeT.add residue_ctr_a 1 in
  let a_matrix_idx__offset_1 :=
    get_window_matrix_a_index__offset_1 length_a length_b global_window
      residue_ctr_a__offset_1 residue_ctr_b__offset_1 in
  let total := SizeT.add (total_num_residues_considered st) 1 in
  lift_outcome
    (is_selected prm_opt_ss_alignment sec_struc_match_matrix lower
       residue_ctr_a residue_ctr_b)
    (fun selected =>
       if selected : bool then
         lift_outcome (numeric_cast_int_to_size_t a_matrix_idx__offset_1)
           (fun col =>
              Returns (mk_mask_selection
                         (SelectPairs.mask_set (upper_res_mask st)
                            residue_ctr_b__offset_1 col true)
                         total (SizeT.add (num_residues_selected st) 1)))
       else Returns (mk_mask_selection (upper_res_mask st) total
                       (num_residues_selected st))).

(** The outer of the last loops. *)
Definition select_residue_row
  (prm_opt_ss_alignment : option alignment) (sec_struc_match_matrix : bool_vec_of_vec)
  (lower : Z -> Z -> bool) (st : mask_selection) (residue_ctr_b : Z)
  : outcome mask_selection :=
  let residue_ctr_b__offset_1 := SizeT.add residue_ctr_b 1 in
  let window_start_offset_1 :=
    get_window_start_a_for_b__offset_1 length_a length_b global_window
      residue_ctr_b__offset_1 in
  let window_stop_offset_1 :=
    get_window_stop_a_for_b__offset_1 length_a length_b global_window
      residue_ctr_b__offset_1 in
  fold_outcome (rev (irange (SizeT.sub window_start_offset_1 1) window_stop_offset_1))
    (select_residue_pair prm_opt_ss_alignment sec_struc_match_matrix lower residue_ctr_b)
    st.

(** The part of [set_mask_matrix] after the clique file has been read,
    given the clique if there is a clique file. *)
Definition set_masks
  (prm_opt_ss_alignment : option alignment) (clique_data : option clique)
  (g : mask_globals) : outcome mask_globals :=
  let g := initialise_arrays g in
  lift_outcome
    (match clique_data with
     | Some data => use_clique data (global_lower_mask_matrix g)
     | None => Returns (global_lower_mask_matrix g)
     end)
    (fun lower =>
  lift_outcome (sec_struc_match_matrix_of prm_opt_ss_alignment)
    (fun sec_struc_match_matrix =>
  lift_outcome
    (fold_outcome (rev (irange 0 length_b))
       (select_residue_row prm_opt_ss_alignment sec_struc_match_matrix lower)
       (mk_mask_selection (global_upper_res_mask_matrix g) 0 0))
    (fun st =>
  Returns (mk_mask_globals (upper_res_mask st) (global_upper_ss_mask_matrix g) lower 0
             (Double.of_Z (num_residues_selected st)
              / Double.of_Z (total_num_residues_considered st))%float)))).

(** [set_mask_matrix].  (The arrays are initialised before the clique
    file is read; a call that throws or whose behaviour is undefined says
    nothing of the globals.) *)
Definition set_mask_matrix (prm_opt_ss_alignment : option alignment) (g : mask_globals)
  : ending clique_exception mask_globals :=
  let finish (o : outcome mask_globals) : ending clique_exception mask_globals :=
    match o with
    | Returns g' => Ends g'
    | Throws e => Raises (thrown e)
    | Undefined => Unspecified
    end in
  match prm_clique_file with
  | Some opened =>
      match read_clique_file scan_cliquesize scan_equivalency opened with
      | Reads clique_data => finish (set_masks prm_opt_ss_alignment (Some clique_data) g)
      | Stops e => Raises (raised_by_callee e)
      end
  | None => finish (set_masks prm_opt_ss_alignment None g)
  end.

(** The block of cells that the initialisation clears. *)
Definition in_cleared_block (row col : Z) : bool :=
  (0 <=? row) && (row <? SizeT.add length_b 1)
  && (0 <=? col) && (col <? SizeT.add length_a 1).

(** The pairs of counters that the last loops visit, in their order. *)
Definition window_counters : list (Z * Z) :=
  flat_map
    (fun residue_ctr_b =>
       map (fun residue_ctr_a => (residue_ctr_a, residue_ctr_b))
           (rev (irange
                   (SizeT.sub (get_window_start_a_for_b__offset_1 length_a length_b
                                 global_window (SizeT.add residue_ctr_b 1)) 1)
                   (get_window_stop_a_for_b__offset_1 length_a length_b global_window
                      (SizeT.add residue_ctr_b 1)))))
    (rev (irange 0 length_b)).

(** Whether a pair of counters was selected, and the cell of
    [global_upper_res_mask_matrix] that is set for it. *)
Definition selects
  (prm_opt_ss_alignment : option alignment) (sec_struc_match_matrix : bool_vec_of_vec)
  (lower : Z -> Z -> bool) (counters : Z * Z) : bool :=
  match is_selected prm_opt_ss_alignment sec_struc_match_matrix lower
          (fst counters) (snd counters) with
  | Returns selected => selected
  | _ => false
  end.

Definition cell_of_counters (counters : Z * Z) : outcome (Z * Z) :=
  lift_outcome
    (numeric_cast_int_to_size_t
       (get_window_matrix_a_index__offset_1 length_a length_b global_window
          (SizeT.add (fst counters) 1) (SizeT.add (snd counters) 1)))
    (fun col => Returns (SizeT.add (snd counters) 1, col)).

End SetMaskMatrix.

End MaskMatrix.

(** ** context_res.h: the comparison of two views *)

Module ContextResVec.

Import ContextRes.

(** Modelled from the spec: [geom::coord] is not among the sources.  A
    vector of three coordinates. *)
Record coord (T : Type) : Type := mk_coord {
  get_x : T;
  get_y : T;
  get_z : T
}.

Arguments mk_coord {T} _ _ _.
Arguments get_x {T} _.
Arguments get_y {T} _.
Arguments get_z {T} _.

Section OnDoubles.

(** What is fixed: the constants of [residue_querier],
    [entry_querier::INTEGER_SCALING] as a double, and, as they are not
    among the sources, [int_cast_copy] on a coordinate and
    [debug_numeric_cast<int>]. *)
Variable constants : residue_constants float.
Variable int_scaling_float_score : float.
Variable int_cast_copy : float -> float.
Variable debug_numeric_cast_int : float -> Z.

Local Open Scope float_scope.

(** The difference of a coordinate of the two scaled views. *)
Definition scaled_diff (arg_int_rounding : bool) (i j : float) : float :=
  if arg_int_rounding
  then Double.of_Z (debug_numeric_cast_int (int_cast_copy (int_scaling_float_score * i))
                    - debug_numeric_cast_int (int_cast_copy (int_scaling_float_score * j)))
  else int_scaling_float_score * i - int_scaling_float_score * j.

(** [context_res_vec<arg_int_rounding, F>] *)
Definition context_res_vec
  (arg_int_rounding : bool) (F : distance_score_formula)
  (arg_i_beta_from_a_beta_view arg_j_beta_from_b_beta_view : coord float) : float :=
  let x_diff := scaled_diff arg_int_rounding (get_x arg_i_beta_from_a_beta_view)
                  (get_x arg_j_beta_from_b_beta_view) in
  let y_diff := scaled_diff arg_int_rounding (get_y arg_i_beta_from_a_beta_view)
                  (get_y arg_j_beta_from_b_beta_view) in
  let z_diff := scaled_diff arg_int_rounding (get_z arg_i_beta_from_a_beta_view)
                  (get_z arg_j_beta_from_b_beta_view) in
  let x_diff_squared := x_diff * x_diff in
  let y_diff_squared := y_diff * y_diff in
  let z_diff_squared := z_diff * z_diff in
  let squared_distance := x_diff_squared + y_diff_squared + z_diff_squared in
  score_of_squared_distance F constants squared_distance int_scaling_float_score.

(** [simplified_context_res_vec] *)
Definition simplified_context_res_vec
  (arg_i_beta_from_a_beta_view arg_j_beta_from_b_beta_view : coord float) : float :=
  let x_diff := get_x arg_i_beta_from_a_beta_view - get_x arg_j_beta_from_b_beta_view in
  let y_diff := get_y arg_i_beta_from_a_beta_view - get_y arg_j_beta_from_b_beta_view in
  let z_diff := get_z arg_i_beta_from_a_beta_view - get_z arg_j_beta_from_b_beta_view in
  let x_diff_squared := x_diff * x_diff in
  let y_diff_squared := y_diff * y_diff in
  let z_diff_squared := z_diff * z_diff in
  let squared_distance := x_diff_squared + y_diff_squared + z_diff_squared in
  let residue_max_dist_sq_cutoff := RESIDUE_MAX_DIST_SQ_CUTOFF constants in
  if residue_max_dist_sq_cutoff <=? squared_distance then 0
  else RESIDUE_A_VALUE constants / (squared_distance + RESIDUE_B_VALUE constants).

End OnDoubles.

Section OverTheReals.

(** The same expressions over the real numbers, in exact arithmetic,
    for views that are not rounded. *)
Variable constants : residue_constants R.
Variable int_scaling_float_score : R.

Local Open Scope R_scope.




End OverTheReals.

End ContextResVec.

(** * Examples to run *)

(** A small refiner to run: every split flips between two pair
    alignments, [example_aln_1] (one aligned column) and [example_aln_2]
    (the same two residues, unaligned), and always reports inserted
    residues. *)
Module RefinerExample.

Import Alignment AlignmentRefiner.

Definition example_aln_1 : alignment := mk_alignment 2 [[Some 0%nat; Some 0%nat]].

Definition example_aln_2 : alignment :=
  mk_alignment 2 [[Some 0%nat; None]; [None; Some 0%nat]].

Definition flip_realign (st : refiner_state) (a : alignment) (_ : list unit)
  (_ _ : unit) (_ : nat) : result (bool * alignment) * refiner_state :=
  (Ok (true, if alignment_eqb a example_aln_1 then example_aln_2 else example_aln_1), st).

Definition one_split (a : alignment) : list nat := [num_entries a].

Definition no_scores : refiner_state := mk_refiner_state [] [].

Definition flip_step :=
  iterate_step unit unit unit nat (fun n => n) one_split flip_realign.

Definition flip_step_for_split :=
  iterate_step_for_alignment_split unit unit unit nat (fun n => n) flip_realign.


Definition flip_run :=
  iterate_with_view_cache unit unit unit nat (fun n => n) one_split flip_realign.

End RefinerExample.

(** A small comparison to run: two proteins of 100 residues on a residue
    alignment pass with 20 selections, all of them the pair (1, 1); every
    lower-level alignment is the single column aligning the first residues,
    with score 1000, and every distance score is 7. *)
Module UpperMatrixExample.

Import Alignment EntryQuerier Ssap.

Definition example_alignment : alignment := mk_alignment 2 [[Some 0%nat; Some 0%nat]].

Definition example_distance_score (_ _ _ _ : Z) : Z := 7.

Definition example_window_index (_ _ _ a _ : Z) : Z := a.

Definition example_window_bound (_ _ _ b : Z) : Z := b.

Definition example_check (_ : Z) : option exn := None.

Definition example_align (_ _ : Z) : Z * alignment := (1000, example_alignment).

Definition example_selections (_ : Z) : Z * Z := (1, 1).

Definition example_mask (_ _ : Z) : bool := true.

Definition zeroed_globals : globals := mk_globals [[0; 0]; [0; 0]] [].

Definition example_compare :=
  compare_upper_cell residue_querier 100 100 0 example_distance_score
    example_window_index example_check example_align.

Definition example_normalisation :=
  populate_normalisation residue_querier 100 100 1%float 20.

Definition example_populate :=
  populate_upper_score_matrix residue_querier 100 100 0 1%float 20
    example_selections example_mask example_mask example_distance_score
    example_window_index example_window_bound example_window_bound
    example_check example_align.

(** The normalisation the claim describes for these two proteins. *)
Definition claimed_normalisation : float :=
  (1 * sqrt (200 * Double.of_Z (Z.min 100 100)))%float.

End UpperMatrixExample.

(** Two residues to run the predicate on. *)
Module ResidueExample.

Import Ssap.

Definition residue_1 : residue := mk_residue 10 30 (-60)%float (-45)%float.

Definition residue_2 : residue := mk_residue 12 40 (-62.5)%float (-40)%float.

(** A residue of accessibility 80, to compare with itself. *)
Definition exposed_residue : residue := mk_residue 10 80 (-60)%float (-45)%float.

End ResidueExample.


(** A final alignment to walk: six columns, of which the first two are
    aligned and adjacent, the next two hold one residue each, the fifth is
    aligned again and the sixth is aligned with a jump of two in the first
    protein; every pair of distinct aligned columns is comparable and
    scores 10, and the gap penalty is 3. *)
Module LogScoreExample.

Import Alignment Ssap.

Definition final_alignment : alignment :=
  mk_alignment 2
    [[Some 0%nat; Some 0%nat]; [Some 1%nat; Some 1%nat]; [Some 2%nat; None];
     [None; Some 2%nat]; [Some 3%nat; Some 3%nat]; [Some 5%nat; Some 4%nat]].

Definition distinct_positions (i_a i_b j_a j_b : nat) : bool :=
  negb (i_a =? j_a)%nat && negb (i_b =? j_b)%nat.

Definition constant_score (_ _ _ _ : nat) : Z := 10.

(** A stand-in for [std::log], to run the binary64 model. *)
Definition stand_in_log (x : float) : float := x.

Definition example_log_score :=
  calculate_log_score (binary64_arith stand_in_log) EntryQuerier.sec_struc_querier
    6 5 distinct_positions constant_score (Returns 3) 50%float 0%float.

End LogScoreExample.


(** The score of an integer squared distance, with the legacy constants
    at scale 10. *)
Definition legacy_score (d : Z) : float :=
  ContextRes.score_of_squared_distance ContextRes.USED_IN_PREVIOUS_CODE
    ContextRes.legacy_constants (Double.of_Z d) 10.

(** A refiner that leaves every alignment as it is. *)
Module RefinerRunExample.

Import Alignment AlignmentRefiner.

Definition keep_realign (st : refiner_state) (a : alignment) (_ : list unit)
  (_ _ : unit) (_ : nat) : result (bool * alignment) * refiner_state :=
  (Ok (false, a), st).

Definition keep_run :=
  iterate_with_view_cache unit unit unit nat (fun n => n) RefinerExample.one_split
    keep_realign.

End RefinerRunExample.

(** The alignment of [LogScoreExample], scored as an alignment of
    residues. *)
Definition example_residue_log_score :=
  Ssap.calculate_log_score (Ssap.binary64_arith LogScoreExample.stand_in_log)
    EntryQuerier.residue_querier 6 5 LogScoreExample.distinct_positions
    LogScoreExample.constant_score (Ssap.Returns 3) 50%float 0%float.

(** A first residue pass over two proteins of two residues, with the
    collaborators of [UpperMatrixExample] and a mask that rules out every
    pair. *)
Module UnmaskedExample.

Import EntryQuerier Ssap UpperMatrixExample.

Definition no_mask (_ _ : Z) : bool := false.

Definition example_populate_unmasked :=
  populate_upper_score_matrix residue_querier 2 2 0 1%float 20
    example_selections no_mask no_mask example_distance_score
    example_window_index example_window_bound example_window_bound
    example_check example_align.

End UnmaskedExample.

(** Pairs to select from, compared by score. *)
Module SelectPairsExample.

Import Ssap SelectPairs.

Definition by_score (x y : selected_pair) : bool := get_score x <? get_score y.

Definition two_pairs : list selected_pair :=
  [mk_selected_pair 1 1 5; mk_selected_pair 2 1 9].

Definition no_mask (_ _ : Z) : bool := false.

(** Two proteins of two residues each, with every cell in the window:
    pairs on the diagonal are similar, and the score of a cell grows with
    its row and its column. *)
Definition similar_on_diagonal (a b : Z) : outcome bool := Returns (a =? b).

Definition example_scores (row col : Z) : Z := 3 * row + col.

Definition full_window_index (length_a length_b window a b : Z) : Z := a.

Definition full_window_start (length_a length_b window b : Z) : Z := 1.

Definition full_window_stop (length_a length_b window b : Z) : Z := length_a.

Definition unselected : selection_globals :=
  mk_selection_globals no_mask no_mask [] 0 0%float.

Definition example_select_over_window (prm_pass : Z) : outcome selection_state :=
  select_over_window by_score 2 2 0 similar_on_diagonal example_scores
    full_window_index full_window_start full_window_stop prm_pass unselected.

Definition example_select_pairs (prm_pass : Z) : outcome selection_globals :=
  select_pairs by_score 2 2 0 true true similar_on_diagonal example_scores
    full_window_index full_window_start full_window_stop prm_pass unselected.

Definition example_window_cells : list (Z * Z) :=
  window_cells 2 2 0 full_window_start full_window_stop.

End SelectPairsExample.

(** A run on two proteins of three residues and two secondary structures
    each, in which every alignment of the upper matrix scores 1, no callee
    throws, and the matrices are left out. *)
Module SsapRunExample.

Import Alignment EntryQuerier Ssap SsapRun.

Definition example_options : old_ssap_options_block :=
  mk_old_ssap_options_block false None false 65%float 75%float 0%float 0%float false.

Definition example_scores : ssap_scores float :=
  mk_ssap_scores (Some 80%float) (Some 80%float) (Some 70%float) (Some 100%float)
    (Some 3) (Some 50%float).

Definition score_or_zero (score : option float) : float :=
  match score with
  | Some v => v
  | None => 0%float
  end.

Definition example_score_over_smaller (scores : ssap_scores float) : float :=
  score_or_zero (ssap_score_over_smaller scores).

Definition example_score_over_larger (scores : ssap_scores float) : float :=
  score_or_zero (ssap_score_over_larger scores).

Definition example_percentage (scores : ssap_scores float) : float :=
  score_or_zero (percentage_aligned_pairs_over_larger scores).

Definition example_seq_id (scores : ssap_scores float) : float :=
  score_or_zero (seq_id scores).

Definition example_num_aligned_pairs (scores : ssap_scores float) : Z :=
  match num_aligned_pairs scores with
  | Some n => n
  | None => 0
  end.

Definition example_superpose (_ : alignment) (_ : bool)
  : callee_ending Empty_set (Z * float) :=
  Callee_returns (3, 1%float).

Definition example_line (_ : float) (_ _ _ : Z) (_ : float) : string := "scores"%string.

Definition example_with_num_superposed (line : string) (_ : Z) : string := line.

Definition example_write_alignment (_ : alignment) : callee_ending Empty_set unit :=
  Callee_returns tt.

Definition example_calculate_log_score (_ : entry_querier) (_ : alignment)
  : outcome (ssap_scores float) :=
  Returns example_scores.

Definition example_matrix_call (_ _ : Z) (w : unit) : unit := w.

Definition example_set_mask_matrix
  (_ : option alignment) (_ : option string) (_ : ssap_globals unit)
  : callee_ending Empty_set unit * (unit * Z) :=
  (Callee_returns tt, (tt, 0)).

Definition example_select_pairs (_ : Z) (_ : entry_querier) (g : ssap_globals unit)
  : callee_ending Empty_set unit * (unit * Z) :=
  (Callee_returns tt, (tt, global_num_selections g)).

Definition example_populate (_ : entry_querier) (_ : bool) (_ : ssap_globals unit)
  : callee_ending Empty_set unit * unit :=
  (Callee_returns tt, tt).

Definition example_align_upper_matrix (_ : entry_querier) (_ : ssap_globals unit)
  : callee_ending Empty_set (Z * alignment) :=
  Callee_returns (1, empty_alignment 2).

Abbreviation example_compare :=
  (compare example_options
    (fun _ => 3) (fun _ => 3)
    example_score_over_smaller example_score_over_larger example_percentage
    example_seq_id example_num_aligned_pairs 0%float
    example_superpose example_line example_with_num_superposed
    "zero scores"%string "zero scores"%string
    example_write_alignment example_calculate_log_score
    example_matrix_call example_matrix_call example_matrix_call
    example_set_mask_matrix example_select_pairs example_populate
    example_align_upper_matrix).

Abbreviation example_fast_ssap :=
  (fast_ssap example_options 3 3
    (fun _ => 3) (fun _ => 3)
    example_score_over_smaller example_score_over_larger example_percentage
    example_seq_id example_num_aligned_pairs 0%float
    example_superpose example_line example_with_num_superposed
    "zero scores"%string "zero scores"%string
    example_write_alignment example_calculate_log_score
    example_matrix_call example_matrix_call example_matrix_call
    example_set_mask_matrix example_select_pairs example_populate
    example_align_upper_matrix).

Abbreviation example_align_proteins :=
  (align_proteins example_options 3 3 2 2
    (fun _ => 3) (fun _ => 3)
    example_score_over_smaller example_score_over_larger example_percentage
    example_seq_id example_num_aligned_pairs 0%float
    example_superpose example_line example_with_num_superposed
    "zero scores"%string "zero scores"%string
    example_write_alignment example_calculate_log_score
    example_matrix_call example_matrix_call example_matrix_call
    example_set_mask_matrix example_select_pairs example_populate
    example_align_upper_matrix).

Definition at_reset : ssap_globals unit := reset_ssap_global_variables tt.

End SsapRunExample.

(** Two proteins of two residues each, with every pair in the window; a
    clique file of one line that declares one equivalency. *)
Module MaskMatrixExample.

Import Alignment Ssap SsapRun MaskMatrix.

Definition example_residue (residue_ctr : Z) : residue :=
  if residue_ctr =? 0 then ResidueExample.residue_1 else ResidueExample.exposed_residue.

Definition example_pdb_number (residue_ctr : Z) : Z := residue_ctr + 1.

Definition example_sec_struc_number (residue_ctr : Z) : Z := 1.

Definition example_atoi (text : string) : Z := 1.

Definition example_scan_cliquesize (line : string) : Z := 1.

Definition example_scan_equivalency (line : string) : sec_struc_equivalency :=
  mk_sec_struc_equivalency 1 "1" "1" 1 "1" "1".

Definition no_last_position (_ : alignment) : option Z := None.

Definition all_false : mask_globals :=
  mk_mask_globals (fun _ _ => false) (fun _ _ => false) (fun _ _ => false) 7 1%float.

Abbreviation example_set_mask_matrix fast clique_file :=
  (set_mask_matrix example_scan_cliquesize example_scan_equivalency 2 2 0 fast 150
     clique_file example_residue example_residue example_pdb_number example_pdb_number
     example_sec_struc_number example_sec_struc_number example_atoi
     no_last_position no_last_position
     SelectPairsExample.full_window_index SelectPairsExample.full_window_start
     SelectPairsExample.full_window_stop).

End MaskMatrixExample.



(** Two views on doubles, with coordinates that are multiples of a
    tenth as closely as doubles allow. *)
Definition example_double_view_a : ContextResVec.coord float :=
  ContextResVec.mk_coord
    0x1.999999999999ap-4%float 0x1.999999999999ap-3%float 0x1.3333333333333p-2%float.

Definition example_double_view_b : ContextResVec.coord float :=
  ContextResVec.mk_coord
    0x1.4cccccccccccdp+0%float 0x1.6666666666666p-1%float 0x1.ccccccccccccdp-1%float.

(** * Properties *)

Section CountIf.

Import EntryQuerier.

Context {A B : Type}.

Lemma count_if_app (p : A -> bool) (l1 l2 : list A) :
  count_if p (l1 ++ l2) = (count_if p l1 + count_if p l2)%nat.
Proof.
  unfold count_if. rewrite filter_app, length_app. reflexivity.
Qed.

Lemma count_if_cons (p : A -> bool) (a : A) (l : list A) :
  count_if p (a :: l) = ((if p a then 1 else 0) + count_if p l)%nat.
Proof.
  unfold count_if. simpl. destruct (p a); reflexivity.
Qed.

Lemma count_if_map (f : B -> A) (p : A -> bool) (l : list B) :
  count_if p (map f l) = count_if (fun b => p (f b)) l.
Proof.
  unfold count_if. induction l as [|b l IH]; simpl; [reflexivity|].
  destruct (p (f b)); simpl; rewrite IH; reflexivity.
Qed.

Lemma count_if_ext_in (p q : A -> bool) (l : list A) :
  (forall x, In x l -> p x = q x) -> count_if p l = count_if q l.
Proof.
  unfold count_if. intros H. induction l as [|a l IH]; simpl; [reflexivity|].
  rewrite (H a (or_introl eq_refl)).
  destruct (q a); simpl; rewrite IH; auto; intros x Hx; apply H; right; exact Hx.
Qed.

End CountIf.

Section BruteForce.

Import EntryQuerier.

Lemma count_if_prod_app_l {A B : Type} (p : A * B -> bool) (l1 l2 : list A) (l' : list B) :
  count_if p (list_prod (l1 ++ l2) l')
  = (count_if p (list_prod l1 l') + count_if p (list_prod l2 l'))%nat.
Proof.
  induction l1 as [|x l1 IH]; simpl; [reflexivity|].
  rewrite !count_if_app, IH. lia.
Qed.

Lemma count_if_prod_snoc_r {A B : Type} (p : A * B -> bool) (l : list A) (l' : list B) (y : B) :
  count_if p (list_prod l (l' ++ [y]))
  = (count_if p (list_prod l l') + count_if (fun a => p (a, y)) l)%nat.
Proof.
  induction l as [|x l IH]; simpl; [reflexivity|].
  rewrite map_app, !count_if_app, IH. simpl.
  rewrite !count_if_cons. unfold count_if at 2. simpl. lia.
Qed.

Lemma count_if_prod_single_l {A B : Type} (p : A * B -> bool) (x : A) (l' : list B) :
  count_if p (list_prod [x] l') = count_if (fun b => p (x, b)) l'.
Proof.
  simpl. rewrite app_nil_r. apply count_if_map.
Qed.

Lemma indices_S (L : nat) : indices (S L) = indices L ++ [Z.of_nat L].
Proof.
  unfold indices. rewrite seq_S, map_app. reflexivity.
Qed.

Lemma In_indices (L : nat) (j : Z) : In j (indices L) -> 0 <= j < Z.of_nat L.
Proof.
  unfold indices. rewrite in_map_iff. intros [k [<- Hk]].
  apply in_seq in Hk. lia.
Qed.

Lemma count_below (k : Z) (L : nat) :
  Z.of_nat (count_if (fun j => j <? k) (indices L)) = Z.max 0 (Z.min k (Z.of_nat L)).
Proof.
  induction L as [|L IH].
  - unfold count_if. simpl. lia.
  - rewrite indices_S, count_if_app, Nat2Z.inj_add, IH.
    rewrite count_if_cons. unfold count_if. simpl.
    destruct (Z.ltb_spec (Z.of_nat L) k); simpl; lia.
Qed.

(** Pairs whose first (or second) component is the new index [L]: exactly
    the [j < L - n]. *)
Lemma count_new_row (n : Z) (L : nat) : 0 <= n ->
  Z.of_nat (count_if (fun j => is_comparable_pair n (Z.of_nat L, j)) (indices L))
  = Z.max 0 (Z.of_nat L - n).
Proof.
  intros Hn.
  rewrite (count_if_ext_in _ (fun j => j <? Z.of_nat L - n)).
  - rewrite count_below. lia.
  - intros j Hj. apply In_indices in Hj. unfold is_comparable_pair. simpl.
    destruct (Z.eqb_spec (Z.of_nat L) j); simpl; [lia|].
    destruct (Z.ltb_spec n (Z.abs (Z.of_nat L - j)));
      destruct (Z.ltb_spec j (Z.of_nat L - n)); lia.
Qed.

Lemma count_new_col (n : Z) (L : nat) : 0 <= n ->
  Z.of_nat (count_if (fun i => is_comparable_pair n (i, Z.of_nat L)) (indices L))
  = Z.max 0 (Z.of_nat L - n).
Proof.
  intros Hn.
  rewrite (count_if_ext_in _ (fun j => j <? Z.of_nat L - n)).
  - rewrite count_below. lia.
  - intros j Hj. apply In_indices in Hj. unfold is_comparable_pair. simpl.
    destruct (Z.eqb_spec j (Z.of_nat L)); simpl; [lia|].
    destruct (Z.ltb_spec n (Z.abs (j - Z.of_nat L)));
      destruct (Z.ltb_spec j (Z.of_nat L - n)); lia.
Qed.

Lemma brute_force_step (n : Z) (L : nat) : 0 <= n ->
  Z.of_nat (brute_force_num_comparable n (S L))
  = Z.of_nat (brute_force_num_comparable n L) + 2 * Z.max 0 (Z.of_nat L - n).
Proof.
  intros Hn. unfold brute_force_num_comparable.
  rewrite indices_S at 1.
  rewrite count_if_prod_app_l, count_if_prod_single_l.
  rewrite indices_S, count_if_prod_snoc_r, count_if_app.
  rewrite !Nat2Z.inj_add, count_new_col, count_new_row by assumption.
  rewrite count_if_cons.
  replace (is_comparable_pair n (Z.of_nat L, Z.of_nat L)) with false
    by (unfold is_comparable_pair; simpl; rewrite Z.eqb_refl; reflexivity).
  unfold count_if at 2. simpl length. lia.
Qed.

(** The enumeration has the closed form of the specification, at every
    length and every non-negative exclusion radius. *)
Lemma brute_force_closed_form (n : Z) (L : nat) : 0 <= n ->
  Z.of_nat (brute_force_num_comparable n L) = closed_form_num_comparable n (Z.of_nat L).
Proof.
  intros Hn. induction L as [|L IH].
  - unfold closed_form_num_comparable.
    destruct (Z.ltb_spec (n + 1) (Z.of_nat 0)); [lia|reflexivity].
  - rewrite brute_force_step, IH by assumption.
    unfold closed_form_num_comparable. rewrite Nat2Z.inj_succ.
    destruct (Z.ltb_spec (n + 1) (Z.of_nat L));
      destruct (Z.ltb_spec (n + 1) (Z.succ (Z.of_nat L))); try lia.
    assert (Z.of_nat L = n + 1) as -> by lia. lia.
Qed.

End BruteForce.

(** ** C1: the closed form of [_num_comparable_impl] *)

Section NumComparable.

Import EntryQuerier.

Lemma size_t_wrap_small (z : Z) : 0 <= z < SizeT.modulus -> SizeT.wrap z = z.
Proof.
  intros H. unfold SizeT.wrap. apply Z.mod_small. exact H.
Qed.

(** [pair_is_not_excluded] tests [|i - j| > n] and is symmetric. *)
Lemma pair_is_not_excluded_spec (n i j : Z) :
  0 <= i < SizeT.modulus -> 0 <= j < SizeT.modulus ->
  pair_is_not_excluded n i j = (n <? Z.abs (i - j))
  /\ pair_is_not_excluded n i j = pair_is_not_excluded n j i.
Proof.
  intros Hi Hj. unfold pair_is_not_excluded, SizeT.sub.
  rewrite (Z.max_comm j i), (Z.min_comm j i). split; [|reflexivity].
  rewrite size_t_wrap_small by lia. f_equal. lia.
Qed.

(** Away from wrap-around the code computes the closed form. *)
Lemma num_comparable_impl_closed_form (n L : Z) :
  0 <= n < SizeT.max_value ->
  0 <= L < SizeT.modulus ->
  (n + 1 < L -> (L - n) * (L - n - 1) < SizeT.modulus) ->
  _num_comparable_impl n L = closed_form_num_comparable n L.
Proof.
  intros Hn HL Hprod.
  unfold _num_comparable_impl, closed_form_num_comparable, SizeT.add, SizeT.sub, SizeT.mul.
  unfold SizeT.max_value in Hn.
  rewrite (size_t_wrap_small (n + 1)) by lia.
  destruct (Z.leb_spec L (n + 1)) as [Hle|Hlt];
    destruct (Z.ltb_spec (n + 1) L) as [Hlt'|Hle']; try lia.
  rewrite (size_t_wrap_small (L - n)) by lia.
  rewrite (size_t_wrap_small (L - n - 1)) by lia.
  apply size_t_wrap_small. specialize (Hprod Hlt). nia.
Qed.

(** C1, as amended.  For every exclusion radius [n < 2^64 - 1] and length
    [L] for which the product [(L - n) * (L - n - 1)] fits [size_t],
    [_num_comparable_impl n L] is the brute-force count of the ordered pairs
    [(i, j)] of [[0, L)] with [i <> j] and [|i - j| > n], that is
    [(L - n) * (L - n - 1)] when [L > n + 1] and [0] otherwise; and the
    three fixture values of the unit test hold. *)
Theorem num_comparable_impl_matches_brute_force (n L : Z) :
  0 <= n < SizeT.max_value ->
  0 <= L < SizeT.modulus ->
  (n + 1 < L -> (L - n) * (L - n - 1) < SizeT.modulus) ->
  _num_comparable_impl n L = Z.of_nat (brute_force_num_comparable n (Z.to_nat L))
  /\ _num_comparable_impl n L = (if n + 1 <? L then (L - n) * (L - n - 1) else 0)
  /\ _num_comparable_impl 5 100 = 8930
  /\ _num_comparable_impl 5 15 = 90
  /\ _num_comparable_impl 4 7 = 6.
Proof.
  intros Hn HL Hprod.
  rewrite (num_comparable_impl_closed_form n L Hn HL Hprod).
  rewrite brute_force_closed_form by lia.
  rewrite Z2Nat.id by lia.
  repeat split; reflexivity.
Qed.

Lemma num_comparable_impl_matches_brute_force_witness :
  0 <= 5 < SizeT.max_value
  /\ 0 <= 15 < SizeT.modulus
  /\ _num_comparable_impl 5 15 = Z.of_nat (brute_force_num_comparable 5 (Z.to_nat 15))
  /\ _num_comparable_impl 5 15 = 90.
Proof.
  assert (H1 : 0 <= 5 < SizeT.max_value) by (vm_compute; split; [discriminate|reflexivity]).
  assert (H2 : 0 <= 15 < SizeT.modulus) by (vm_compute; split; [discriminate|reflexivity]).
  assert (H3 : 5 + 1 < 15 -> (15 - 5) * (15 - 5 - 1) < SizeT.modulus)
    by (intros _; vm_compute; reflexivity).
  pose proof (num_comparable_impl_matches_brute_force 5 15 H1 H2 H3) as [Ha [_ [_ [Hb _]]]].
  exact (conj H1 (conj H2 (conj Ha Hb))).
Defined.

(** C1, as stated, fails where [size_t] wraps: at [n = 0] and
    [L = 2^32 + 1] the product [(2^32 + 1) * 2^32] wraps to [2^32], and at
    [n = 2^64 - 1] the guard's [n + 1] wraps to [0], so that a length of 1
    is let through and the result is 2 although no pair is comparable. *)
Lemma num_comparable_impl_wraps :
  _num_comparable_impl 0 (2 ^ 32 + 1) = 2 ^ 32
  /\ Z.of_nat (brute_force_num_comparable 0 (Z.to_nat (2 ^ 32 + 1))) = (2 ^ 32 + 1) * 2 ^ 32
  /\ _num_comparable_impl 0 (2 ^ 32 + 1)
     <> Z.of_nat (brute_force_num_comparable 0 (Z.to_nat (2 ^ 32 + 1)))
  /\ _num_comparable_impl (2 ^ 64 - 1) 1 = 2
  /\ brute_force_num_comparable (2 ^ 64 - 1) 1 = 0%nat.
Proof.
  assert (Hb : Z.of_nat (brute_force_num_comparable 0 (Z.to_nat (2 ^ 32 + 1)))
               = (2 ^ 32 + 1) * 2 ^ 32).
  { rewrite brute_force_closed_form by lia.
    rewrite Z2Nat.id by (vm_compute; discriminate).
    vm_compute. reflexivity. }
  split; [vm_compute; reflexivity|].
  split; [exact Hb|].
  split; [rewrite Hb; vm_compute; discriminate|].
  split; vm_compute; reflexivity.
Qed.

End NumComparable.

(** ** C8 and C4: the alignment refiner *)

Section RefinerFacts.

Import Alignment AlignmentRefiner.

Variable protein : Type.
Variable view_cache_list : Type.
Variable gap_penalty : Type.
Variable alignment_split : Type.
Variable get_num_entries : alignment_split -> nat.
Variable get_standard_alignment_splits : alignment -> list alignment_split.
Variable rescore_and_realign :
  refiner_state -> alignment -> list protein -> view_cache_list -> gap_penalty ->
  alignment_split -> result (bool * alignment) * refiner_state.

Local Abbreviation step_for_split :=
  (iterate_step_for_alignment_split protein view_cache_list gap_penalty
     alignment_split get_num_entries rescore_and_realign).
Local Abbreviation step :=
  (iterate_step protein view_cache_list gap_penalty alignment_split
     get_num_entries get_standard_alignment_splits rescore_and_realign).
Local Abbreviation body :=
  (loop_body protein view_cache_list gap_penalty alignment_split
     get_num_entries get_standard_alignment_splits rescore_and_realign).
Local Abbreviation loop :=
  (iterate_loop protein view_cache_list gap_penalty alignment_split
     get_num_entries get_standard_alignment_splits rescore_and_realign).
Local Abbreviation run :=
  (iterate_with_view_cache protein view_cache_list gap_penalty alignment_split
     get_num_entries get_standard_alignment_splits rescore_and_realign).

Lemma alignment_eqb_eq (a b : alignment) : alignment_eqb a b = true <-> a = b.
Proof.
  unfold alignment_eqb. destruct (alignment_eq_dec a b); split; congruence.
Qed.

Lemma alignment_eqb_refl (a : alignment) : alignment_eqb a a = true.
Proof.
  apply alignment_eqb_eq. reflexivity.
Qed.

(** C8.  [iterate_step] throws [not_implemented_exception] whenever the
    protein list's size differs from the alignment's [num_entries], and
    [iterate_step_for_alignment_split] throws it whenever the split's entry
    count differs from the alignment's [num_entries]; in both cases the
    refiner's score matrices are as they were and nothing of the rescoring
    and realignment has run: the outcome is the same whatever that part
    would compute. *)
Theorem refiner_mismatch_throws :
  (forall st aln proteins vcl gap,
      List.length proteins <> num_entries aln ->
      step st aln proteins vcl gap
      = (Throw (not_implemented_exception protein_mismatch_message), st))
  /\ (forall st aln proteins vcl gap the_split,
      get_num_entries the_split <> num_entries aln ->
      step_for_split st aln proteins vcl gap the_split
      = (Throw (not_implemented_exception split_mismatch_message), st)).
Proof.
  split.
  - intros st aln proteins vcl gap Hne. unfold iterate_step.
    destruct (Nat.eqb_spec (List.length proteins) (num_entries aln)) as [He|_];
      [contradiction|reflexivity].
  - intros st aln proteins vcl gap the_split Hne.
    unfold iterate_step_for_alignment_split.
    destruct (Nat.eqb_spec (get_num_entries the_split) (num_entries aln)) as [He|_];
      [contradiction|reflexivity].
Qed.

Lemma loop_condition_initial (a : alignment) :
  loop_condition (initial_loop_state a) = true.
Proof.
  reflexivity.
Qed.


Lemma loop_body_break st s ps v g ins next st' :
  step st (curr_alignment s) ps v g = (Ok (ins, next), st') ->
  next = prev_alignment s ->
  body st s ps v g
  = (Break (mk_loop_state (iter_ctr s) (curr_alignment s) next ins), st').
Proof.
  intros Hstep ->. unfold loop_body. rewrite Hstep. simpl.
  rewrite alignment_eqb_refl. reflexivity.
Qed.

Lemma loop_body_continue st s ps v g ins next st' :
  step st (curr_alignment s) ps v g = (Ok (ins, next), st') ->
  next <> prev_alignment s ->
  body st s ps v g
  = (Continue (mk_loop_state (SizeT.add (iter_ctr s) 1) (curr_alignment s) next ins), st').
Proof.
  intros Hstep Hne. unfold loop_body. rewrite Hstep. simpl.
  destruct (alignment_eqb next (prev_alignment s)) eqn:E; [|reflexivity].
  apply alignment_eqb_eq in E. contradiction.
Qed.


End RefinerFacts.


Lemma refiner_mismatch_throws_witness :
  RefinerExample.flip_step RefinerExample.no_scores RefinerExample.example_aln_1 [tt] tt tt
  = (Throw (not_implemented_exception AlignmentRefiner.protein_mismatch_message),
     RefinerExample.no_scores)
  /\ RefinerExample.flip_step_for_split RefinerExample.no_scores
       RefinerExample.example_aln_1 [tt; tt] tt tt 3%nat
     = (Throw (not_implemented_exception AlignmentRefiner.split_mismatch_message),
        RefinerExample.no_scores).
Proof.
  destruct (refiner_mismatch_throws unit unit unit nat (fun n => n)
              RefinerExample.one_split RefinerExample.flip_realign) as [Hstep Hsplit].
  split.
  - apply Hstep. simpl. discriminate.
  - apply Hsplit. simpl. discriminate.
Defined.


(** ** C2, C3 and C10: [compare_upper_cell] and its normalisation *)

Section MatrixFacts.

Import Ssap.

Lemma nth_error_list_set_eq {A : Type} (l : list A) (i : nat) (v x : A) :
  nth_error l i = Some x -> nth_error (list_set l i v) i = Some v.
Proof.
  revert i. induction l as [|y l IH]; intros [|i]; simpl; try discriminate; auto.
Qed.

Lemma nth_error_list_set_ne {A : Type} (l : list A) (i j : nat) (v : A) :
  i <> j -> nth_error (list_set l i v) j = nth_error l j.
Proof.
  revert i j. induction l as [|y l IH]; intros [|i] [|j] H; simpl; auto; congruence.
Qed.

Lemma matrix_get_set_eq (m : list (list Z)) (row col : nat) (v x : Z) :
  matrix_get m row col = Some x ->
  matrix_get (matrix_set m row col v) row col = Some v.
Proof.
  unfold matrix_get, matrix_set. destruct (nth_error m row) as [r|] eqn:Hr; [|discriminate].
  intros Hx. rewrite (nth_error_list_set_eq m row _ r Hr).
  apply (nth_error_list_set_eq r col v x Hx).
Qed.

Lemma matrix_get_set_ne (m : list (list Z)) (row col row' col' : nat) (v : Z) :
  (row, col) <> (row', col') ->
  matrix_get (matrix_set m row col v) row' col' = matrix_get m row' col'.
Proof.
  intros Hne. unfold matrix_get, matrix_set.
  destruct (nth_error m row) as [r|] eqn:Hr; [|reflexivity].
  destruct (Nat.eq_dec row row') as [<-|Hrow].
  - rewrite (nth_error_list_set_eq m row _ r Hr), Hr.
    apply nth_error_list_set_ne. congruence.
  - rewrite nth_error_list_set_ne by assumption. reflexivity.
Qed.

End MatrixFacts.

Section UpperScoreMatrixFacts.

Import Alignment EntryQuerier Ssap.

Variable prm_entry_querier : entry_querier.
Variable full_length_a full_length_b : Z.
Variable global_window : Z.
Variable global_frac_selected : float.
Variable global_num_selections : Z.
Variable global_selections : Z -> Z * Z.
Variable global_upper_res_mask_matrix : Z -> Z -> bool.
Variable global_upper_ss_mask_matrix : Z -> Z -> bool.
Variable distance_score__offset_1 : Z -> Z -> Z -> Z -> Z.
Variable get_window_matrix_a_index__offset_1 : Z -> Z -> Z -> Z -> Z -> Z.
Variable get_window_start_a_for_b__offset_1 : Z -> Z -> Z -> Z -> Z.
Variable get_window_stop_a_for_b__offset_1 : Z -> Z -> Z -> Z -> Z.
Variable check_offset_1 : Z -> option exn.
Variable align_lower_matrix : Z -> Z -> Z * alignment.

Local Abbreviation path_column :=
  (add_path_column full_length_a full_length_b global_window
     distance_score__offset_1 get_window_matrix_a_index__offset_1).
Local Abbreviation cell_addend :=
  (path_column_addend full_length_a full_length_b global_window
     distance_score__offset_1 get_window_matrix_a_index__offset_1).
Local Abbreviation cell_sum :=
  (path_sum full_length_a full_length_b global_window
     distance_score__offset_1 get_window_matrix_a_index__offset_1).
Local Abbreviation compare_cell :=
  (compare_upper_cell prm_entry_querier full_length_a full_length_b global_window
     distance_score__offset_1 get_window_matrix_a_index__offset_1
     check_offset_1 align_lower_matrix).
Local Abbreviation normalisation :=
  (populate_normalisation prm_entry_querier full_length_a full_length_b
     global_frac_selected global_num_selections).
Local Abbreviation populate :=
  (populate_upper_score_matrix prm_entry_querier full_length_a full_length_b
     global_window global_frac_selected global_num_selections global_selections
     global_upper_res_mask_matrix global_upper_ss_mask_matrix
     distance_score__offset_1 get_window_matrix_a_index__offset_1
     get_window_start_a_for_b__offset_1 get_window_stop_a_for_b__offset_1
     check_offset_1 align_lower_matrix).

(** The effect of one pass of the path loop that returns. *)
Lemma add_path_column_returns a b aln ctr g g' :
  path_column a b aln ctr g = (Returns tt, g') ->
  divisions g' = divisions g
  /\ forall row col,
       matrix_get (global_upper_score_matrix g') row col
       = option_map (fun v => v + cell_addend a b aln row col ctr)
                    (matrix_get (global_upper_score_matrix g) row col).
Proof.
  unfold add_path_column, path_column_addend.
  destruct (has_both_positions_of_index aln ctr); simpl.
  2:{ unfold ret. intros [= <-]. split; [reflexivity|].
      intros row col. destruct (matrix_get _ row col); simpl; f_equal; lia. }
  set (a_dest := get_a_offset_1_position_of_index aln ctr).
  set (b_dest := get_b_offset_1_position_of_index aln ctr).
  set (idx := get_window_matrix_a_index__offset_1 _ _ _ _ _).
  set (addend := distance_score__offset_1 _ _ _ _).
  unfold bind, lift, numeric_cast_int_to_size_t.
  destruct (Z.ltb_spec idx 0) as [Hneg|Hpos]; [discriminate|].
  unfold add_to_upper_score_matrix.
  destruct (matrix_get (global_upper_score_matrix g) b_dest (Z.to_nat idx)) as [v|] eqn:Hv;
    [|discriminate].
  intros [= <-]. simpl. split; [reflexivity|].
  intros row col.
  destruct (Nat.eqb_spec b_dest row) as [Hrow|Hrow]; simpl.
  - destruct (Z.eqb_spec idx (Z.of_nat col)) as [Hcol|Hcol].
    + subst row. assert (Z.to_nat idx = col) as Hc by lia. rewrite Hc in *.
      rewrite (matrix_get_set_eq _ _ _ _ v Hv), Hv. reflexivity.
    + rewrite matrix_get_set_ne by (intros [= _ Hc]; lia).
      destruct (matrix_get _ row col); simpl; f_equal; lia.
  - rewrite matrix_get_set_ne by congruence.
    destruct (matrix_get _ row col); simpl; f_equal; lia.
Qed.

Lemma for_each_path_returns a b aln ctrs g g' :
  for_each ctrs (path_column a b aln) g = (Returns tt, g') ->
  divisions g' = divisions g
  /\ forall row col,
       matrix_get (global_upper_score_matrix g') row col
       = option_map (fun v => v + cell_sum a b aln row col ctrs)
                    (matrix_get (global_upper_score_matrix g) row col).
Proof.
  revert g. induction ctrs as [|ctr ctrs IH]; intros g; simpl.
  - unfold ret. intros [= <-]. split; [reflexivity|].
    intros row col. destruct (matrix_get _ row col); simpl; f_equal; lia.
  - unfold bind at 1.
    destruct (path_column a b aln ctr g) as [[[]|e|] g1] eqn:Hcol; try discriminate.
    intros Hrest. apply add_path_column_returns in Hcol as [Hd1 Hm1].
    apply IH in Hrest as [Hd2 Hm2]. split; [congruence|].
    intros row col. rewrite Hm2, Hm1.
    destruct (matrix_get (global_upper_score_matrix g) row col); simpl; f_equal; lia.
Qed.

(** A pass of the path loop never divides, however it ends. *)
Lemma add_path_column_divisions a b aln ctr g o g' :
  path_column a b aln ctr g = (o, g') -> divisions g' = divisions g.
Proof.
  unfold add_path_column.
  destruct (has_both_positions_of_index aln ctr).
  2:{ unfold ret. intros [= _ <-]. reflexivity. }
  unfold bind, lift, numeric_cast_int_to_size_t.
  destruct (_ <? 0); [intros [= _ <-]; reflexivity|].
  unfold add_to_upper_score_matrix.
  destruct (matrix_get _ _ _); intros [= _ <-]; reflexivity.
Qed.

Lemma for_each_path_divisions a b aln ctrs g o g' :
  for_each ctrs (path_column a b aln) g = (o, g') -> divisions g' = divisions g.
Proof.
  revert g. induction ctrs as [|ctr ctrs IH]; intros g; simpl.
  - unfold ret. intros [= _ <-]. reflexivity.
  - unfold bind at 1.
    destruct (path_column a b aln ctr g) as [[[]|e|] g1] eqn:Hcol;
      apply add_path_column_divisions in Hcol.
    + intros Hrest. apply IH in Hrest. congruence.
    + intros [= _ <-]. exact Hcol.
    + intros [= _ <-]. exact Hcol.
Qed.

(** The normalisation step: its result and what it leaves behind. *)
Lemma normalise_residue_score_cases score norm g :
  ((norm =? 0)%float = true
   /\ normalise_residue_score score norm g = (Returns 0, g))
  \/ ((norm =? 0)%float = false
      /\ normalise_residue_score score norm g
         = (numeric_cast_double_to_score_type (Double.of_Z score / norm)%float,
            mk_globals (global_upper_score_matrix g)
                       ((Double.of_Z score, norm) :: divisions g))).
Proof.
  unfold normalise_residue_score.
  destruct (norm =? 0)%float; [left|right]; split; reflexivity.
Qed.

(** The score [compare_upper_cell] classifies: the lower-level score,
    normalised when residues are compared. *)
Local Abbreviation classified_score a b norm :=
  (if temp_hacky_is_residue prm_entry_querier
   then normalise_residue_score (fst (align_lower_matrix a b)) norm
   else ret (fst (align_lower_matrix a b))).

Lemma classified_score_effect a b norm g o g1 :
  classified_score a b norm g = (o, g1) ->
  global_upper_score_matrix g1 = global_upper_score_matrix g
  /\ (divisions g1 = divisions g
      \/ (temp_hacky_is_residue prm_entry_querier = true
          /\ (norm =? 0)%float = false
          /\ divisions g1 = (Double.of_Z (fst (align_lower_matrix a b)), norm) :: divisions g)).
Proof.
  destruct (temp_hacky_is_residue prm_entry_querier).
  - destruct (normalise_residue_score_cases (fst (align_lower_matrix a b)) norm g)
      as [[Hz ->]|[Hnz ->]]; intros [= _ <-]; simpl; auto.
  - unfold ret. intros [= _ <-]. auto.
Qed.

(** How a call of [compare_upper_cell] that returns went. *)
Lemma compare_upper_cell_returns a b norm g r g' :
  compare_cell a b norm g = (Returns r, g') ->
  check_offset_1 a = None /\ check_offset_1 b = None
  /\ exists s g1,
       classified_score a b norm g = (Returns s, g1)
       /\ ((s = 0 /\ r = ZERO /\ g' = g1)
           \/ (s <> 0 /\ temp_hacky_is_residue prm_entry_querier = true
               /\ s < MIN_LOWER_MAT_RES_SCORE
               /\ r = NON_ZERO_BELOW_THRESHOLD /\ g' = g1)
           \/ (s <> 0
               /\ (temp_hacky_is_residue prm_entry_querier = false
                   \/ MIN_LOWER_MAT_RES_SCORE <= s)
               /\ r = SCORED
               /\ for_each (seq 0 (Alignment.length (snd (align_lower_matrix a b))))
                           (path_column a b (snd (align_lower_matrix a b))) g1
                  = (Returns tt, g'))).
Proof.
  unfold compare_upper_cell, run_check_offset_1.
  destruct (check_offset_1 a) as [e|]; [unfold bind, lift; discriminate|].
  destruct (check_offset_1 b) as [e|]; [unfold bind, lift; discriminate|].
  unfold bind at 1 2. unfold ret at 1 2. unfold bind at 1.
  destruct (classified_score a b norm g) as [[s|e|] g1] eqn:Hs; try discriminate.
  intros H. split; [reflexivity|]. split; [reflexivity|].
  exists s, g1. split; [reflexivity|].
  destruct (Z.eqb_spec s 0) as [Hz|Hnz].
  - unfold ret in H. injection H as <- <-. left. auto.
  - right.
    destruct (temp_hacky_is_residue prm_entry_querier) eqn:Hres; simpl in H.
    + destruct (Z.ltb_spec s MIN_LOWER_MAT_RES_SCORE) as [Hlt|Hge].
      * unfold ret in H. injection H as <- <-. left. auto.
      * right. unfold bind in H.
        destruct (for_each _ _ g1) as [[[]|e|] g2] eqn:Hloop; try discriminate.
        unfold ret in H. injection H as <- <-. auto.
    + right. unfold bind in H.
      destruct (for_each _ _ g1) as [[[]|e|] g2] eqn:Hloop; try discriminate.
      unfold ret in H. injection H as <- <-. auto.
Qed.

(** C2.  A call of [compare_upper_cell] that returns [ZERO] or
    [NON_ZERO_BELOW_THRESHOLD] leaves [global_upper_score_matrix] as it
    was; a call that returns [SCORED] has added to every cell of the matrix
    the querier's distance scores, from the view pair [(a, b)] to the
    destination pair, of exactly those columns of the lower-level
    alignment that have both positions and whose destination is that cell:
    row [b'], column the window index of [(a', b')]. *)
Theorem compare_upper_cell_frame a b norm g r g' :
  compare_cell a b norm g = (Returns r, g') ->
  (r <> SCORED -> global_upper_score_matrix g' = global_upper_score_matrix g)
  /\ (r = SCORED ->
      forall row col,
        matrix_get (global_upper_score_matrix g') row col
        = option_map
            (fun v => v + cell_sum a b (snd (align_lower_matrix a b)) row col
                            (seq 0 (Alignment.length (snd (align_lower_matrix a b)))))
            (matrix_get (global_upper_score_matrix g) row col)).
Proof.
  intros H. apply compare_upper_cell_returns in H as [_ [_ [s [g1 [Hs Hcases]]]]].
  apply classified_score_effect in Hs as [Hm _].
  destruct Hcases as [[_ [-> ->]]|[[_ [_ [_ [-> ->]]]]|[_ [_ [-> Hloop]]]]].
  - split; [intros _; exact Hm|discriminate].
  - split; [intros _; exact Hm|discriminate].
  - split; [congruence|]. intros _ row col.
    apply for_each_path_returns in Hloop as [_ Hcells].
    rewrite Hcells, Hm. reflexivity.
Qed.

(** Whatever way a call of [compare_upper_cell] ends, it has divided at
    most once, by its [prm_normalisation], and then that was not zero. *)
Lemma compare_upper_cell_divisions a b norm g o g' :
  compare_cell a b norm g = (o, g') ->
  divisions g' = divisions g
  \/ ((norm =? 0)%float = false
      /\ exists dividend, divisions g' = (dividend, norm) :: divisions g).
Proof.
  unfold compare_upper_cell, run_check_offset_1.
  destruct (check_offset_1 a) as [e|];
    [unfold bind, lift; intros [= _ <-]; auto|].
  destruct (check_offset_1 b) as [e|];
    [unfold bind, lift, ret; intros [= _ <-]; auto|].
  unfold bind at 1 2. unfold ret at 1 2. unfold bind at 1.
  destruct (classified_score a b norm g) as [[s|e|] g1] eqn:Hs;
    apply classified_score_effect in Hs as [_ Hd].
  2,3: intros [= _ <-]; destruct Hd as [Hd|[_ [Hnz Hd]]]; eauto.
  assert (Hg1 : forall g2, divisions g2 = divisions g1 ->
            divisions g2 = divisions g
            \/ ((norm =? 0)%float = false
                /\ exists dividend, divisions g2 = (dividend, norm) :: divisions g)).
  { intros g2 ->. destruct Hd as [Hd|[_ [Hnz Hd]]]; eauto. }
  destruct (s =? 0); [unfold ret; intros [= _ <-]; eauto|].
  destruct (_ && _); [unfold ret; intros [= _ <-]; eauto|].
  unfold bind.
  destruct (for_each _ _ g1) as [[[]|e|] g2] eqn:Hloop;
    apply for_each_path_divisions in Hloop;
    unfold ret; intros [= _ <-]; eauto.
Qed.

(** C10.  When residues are compared and the normalisation supplied to
    [compare_upper_cell] is exactly [0.0] (of either sign), the call
    returns [ZERO] and leaves the globals as they were: the score is set to
    0 and no division is performed; and however a call ends, the only
    division it can have performed is the one by its normalisation, with
    that normalisation non-zero. *)
Theorem compare_upper_cell_guards_division a b norm g :
  (temp_hacky_is_residue prm_entry_querier = true ->
   (norm =? 0)%float = true ->
   check_offset_1 a = None -> check_offset_1 b = None ->
   compare_cell a b norm g = (Returns ZERO, g))
  /\ (forall o g',
        compare_cell a b norm g = (o, g') ->
        divisions g' = divisions g
        \/ ((norm =? 0)%float = false
            /\ exists dividend, divisions g' = (dividend, norm) :: divisions g)).
Proof.
  split.
  - intros Hres Hz Ha Hb.
    unfold compare_upper_cell, run_check_offset_1. rewrite Ha, Hb, Hres.
    unfold bind at 1 2. unfold ret at 1 2. unfold bind at 1.
    unfold normalise_residue_score. rewrite Hz. reflexivity.
  - intros o g'. apply compare_upper_cell_divisions.
Qed.

(** The divisions recorded between two states all have the given divisor. *)
Local Abbreviation divided_only_by norm g g' :=
  (exists new, divisions g' = new ++ divisions g
               /\ Forall (fun d : float * float => snd d = norm) new).

Lemma divided_only_by_refl norm g : divided_only_by norm g g.
Proof.
  exists []. split; [reflexivity|constructor].
Qed.

Lemma divided_only_by_trans norm g1 g2 g3 :
  divided_only_by norm g1 g2 -> divided_only_by norm g2 g3 -> divided_only_by norm g1 g3.
Proof.
  intros [n1 [H1 F1]] [n2 [H2 F2]]. exists (n2 ++ n1). split.
  - rewrite H2, H1, app_assoc. reflexivity.
  - apply Forall_app. split; assumption.
Qed.

Lemma fold_m_divided_only_by {A S : Type} norm (f : S -> A -> M S) (l : list A) :
  (forall s x g o g', f s x g = (o, g') -> divided_only_by norm g g') ->
  forall s g o g', fold_m l f s g = (o, g') -> divided_only_by norm g g'.
Proof.
  intros Hf. induction l as [|x l IH]; intros s g o g'; simpl.
  - unfold ret. intros [= _ <-]. apply divided_only_by_refl.
  - unfold bind at 1. destruct (f s x g) as [[s'|e|] g1] eqn:Hx; apply Hf in Hx.
    + intros Hrest. apply IH in Hrest. eapply divided_only_by_trans; eassumption.
    + intros [= _ <-]. exact Hx.
    + intros [= _ <-]. exact Hx.
Qed.

Lemma populate_cell_divisions pass ctr_b jval c ctr_a g o g' :
  populate_cell prm_entry_querier full_length_a full_length_b global_window
    global_frac_selected global_num_selections global_upper_res_mask_matrix
    global_upper_ss_mask_matrix distance_score__offset_1
    get_window_matrix_a_index__offset_1 check_offset_1 align_lower_matrix
    pass ctr_b jval c ctr_a g = (o, g') ->
  divided_only_by (normalisation pass) g g'.
Proof.
  unfold populate_cell. unfold bind at 1.
  match goal with
  | |- context [match ?should g with _ => _ end] =>
      assert (Hshould : exists o1, should g = (o1, g)) by
        (destruct (negb _); [destruct (temp_hacky_is_residue _)|];
         unfold bind, lift, ret, numeric_cast_int_to_size_t;
         try destruct (_ <? 0); eauto);
      destruct Hshould as [o1 ->]
  end.
  destruct o1 as [[|]|e|].
  - unfold bind.
    destruct (compare_cell _ _ _ g) as [[r|e|] g1] eqn:Hcell;
      apply compare_upper_cell_divisions in Hcell;
      unfold ret; intros [= _ <-];
      (destruct Hcell as [Hd|[_ [x Hd]]];
       [exists []; split; [exact Hd|constructor]
       |exists [(x, normalisation pass)]; split;
        [exact Hd|constructor; [reflexivity|constructor]]]).
  - unfold ret. intros [= _ <-]. apply divided_only_by_refl.
  - intros [= _ <-]. apply divided_only_by_refl.
  - intros [= _ <-]. apply divided_only_by_refl.
Qed.

(** C3, as amended.  Every division performed while
    [populate_upper_score_matrix] runs, that is every division by which
    [compare_upper_cell] normalises a lower-level score, is by
    [global_frac_selected * sqrt( K * min( length_a, length_b ) )] with
    [K = 200] for residues and [25] for secondary structures, where
    [length_a] is the first protein's entry count and [length_b] is the
    second protein's, except on a residue alignment pass, where it is the
    number of selections; and a residue score is classified [ZERO] when the
    normalised score is 0, [NON_ZERO_BELOW_THRESHOLD] when it is non-zero
    and below [MIN_LOWER_MAT_RES_SCORE = 10], and [SCORED] otherwise. *)
Theorem populate_normalisation_and_classification pass :
  (forall g o g', populate pass g = (o, g') -> divided_only_by (normalisation pass) g g')
  /\ normalisation pass
     = (global_frac_selected
        * sqrt ((if temp_hacky_is_residue prm_entry_querier then 200 else 25)
                * Double.of_Z
                    (Z.min full_length_a
                       (if temp_hacky_is_residue prm_entry_querier && pass
                        then global_num_selections else full_length_b))))%float
  /\ MIN_LOWER_MAT_RES_SCORE = 10
  /\ (forall a b norm g r g',
        temp_hacky_is_residue prm_entry_querier = true ->
        compare_cell a b norm g = (Returns r, g') ->
        exists s g1,
          normalise_residue_score (fst (align_lower_matrix a b)) norm g = (Returns s, g1)
          /\ (r = ZERO <-> s = 0)
          /\ (r = NON_ZERO_BELOW_THRESHOLD <-> (s <> 0 /\ s < 10))
          /\ (r = SCORED <-> (s <> 0 /\ 10 <= s))).
Proof.
  split; [|split; [|split]].
  - intros g o g'. unfold populate_upper_score_matrix.
    apply fold_m_divided_only_by. intros c ctr_b g0 o0 g0'.
    unfold populate_row. apply fold_m_divided_only_by.
    intros c' ctr_a g1 o1 g1'. apply populate_cell_divisions.
  - reflexivity.
  - reflexivity.
  - intros a b norm g r g' Hres H.
    apply compare_upper_cell_returns in H as [_ [_ [s [g1 [Hs Hcases]]]]].
    rewrite Hres in Hs. exists s, g1. split; [exact Hs|].
    unfold MIN_LOWER_MAT_RES_SCORE in Hcases.
    destruct Hcases as [[Hz [-> _]]|[[Hnz [_ [Hlt [-> _]]]]|[Hnz [Hge [-> _]]]]].
    + repeat split; intros; try discriminate; try lia; auto.
    + repeat split; intros; try discriminate; try lia; auto.
    + destruct Hge as [Hge|Hge]; [congruence|].
      repeat split; intros; try discriminate; try lia; auto.
Qed.

End UpperScoreMatrixFacts.


(** C3, as stated, fails on a residue alignment pass: with two proteins of
    100 residues and 20 selections, each of the 20 divisions is by
    [sqrt( 200 * 20 )], not by [sqrt( 200 * min( 100, 100 ) )]; a lower
    score of 1000 is thereby normalised to 15 and [SCORED], where the
    claimed normalisation would give 7, below the threshold. *)
Lemma populate_normalises_by_number_of_selections :
  fst (UpperMatrixExample.example_populate true UpperMatrixExample.zeroed_globals)
  = Ssap.Returns (Ssap.mk_populate_counters 20 20 true true)
  /\ List.length (Ssap.divisions
       (snd (UpperMatrixExample.example_populate true UpperMatrixExample.zeroed_globals)))
     = 20%nat
  /\ forallb (fun d => negb (snd d =? UpperMatrixExample.claimed_normalisation)%float
                       && (snd d =? UpperMatrixExample.example_normalisation true)%float)
       (Ssap.divisions
          (snd (UpperMatrixExample.example_populate true UpperMatrixExample.zeroed_globals)))
     = true
  /\ UpperMatrixExample.example_normalisation true
     <> UpperMatrixExample.claimed_normalisation
  /\ Ssap.numeric_cast_double_to_score_type
       (Double.of_Z 1000 / UpperMatrixExample.example_normalisation true)%float
     = Ssap.Returns 15
  /\ Ssap.numeric_cast_double_to_score_type
       (Double.of_Z 1000 / UpperMatrixExample.claimed_normalisation)%float
     = Ssap.Returns 7.
Proof.
  repeat split; try (vm_compute; reflexivity).
  intros H.
  assert (E : (UpperMatrixExample.example_normalisation true
               =? UpperMatrixExample.claimed_normalisation)%float = false)
    by (vm_compute; reflexivity).
  rewrite H in E. vm_compute in E. discriminate.
Qed.

Lemma compare_upper_cell_frame_witness :
  UpperMatrixExample.example_compare 1 1 20%float UpperMatrixExample.zeroed_globals
  = (Ssap.Returns Ssap.SCORED, Ssap.mk_globals [[0; 0]; [0; 7]] [(1000%float, 20%float)])
  /\ Ssap.matrix_get [[0; 0]; [0; 7]] 1 1 = Some (0 + 7)
  /\ Ssap.matrix_get [[0; 0]; [0; 7]] 0 1 = Some (0 + 0).
Proof.
  assert (H : UpperMatrixExample.example_compare 1 1 20%float
                UpperMatrixExample.zeroed_globals
              = (Ssap.Returns Ssap.SCORED,
                 Ssap.mk_globals [[0; 0]; [0; 7]] [(1000%float, 20%float)]))
    by (vm_compute; reflexivity).
  pose proof (compare_upper_cell_frame EntryQuerier.residue_querier 100 100 0
                UpperMatrixExample.example_distance_score
                UpperMatrixExample.example_window_index
                UpperMatrixExample.example_check UpperMatrixExample.example_align
                1 1 20%float _ _ _ H) as [_ Hscored].
  split; [exact H|]. split.
  - exact (Hscored eq_refl 1%nat 1%nat).
  - exact (Hscored eq_refl 0%nat 1%nat).
Defined.

Lemma compare_upper_cell_guards_division_witness :
  UpperMatrixExample.example_compare 1 1 (-0)%float UpperMatrixExample.zeroed_globals
  = (Ssap.Returns Ssap.ZERO, UpperMatrixExample.zeroed_globals).
Proof.
  apply (compare_upper_cell_guards_division EntryQuerier.residue_querier 100 100 0
           UpperMatrixExample.example_distance_score
           UpperMatrixExample.example_window_index
           UpperMatrixExample.example_check UpperMatrixExample.example_align
           1 1 (-0)%float UpperMatrixExample.zeroed_globals); reflexivity.
Defined.

Lemma populate_normalisation_and_classification_witness :
  exists s g1,
    Ssap.normalise_residue_score 1000 20%float UpperMatrixExample.zeroed_globals
    = (Ssap.Returns s, g1)
    /\ (Ssap.SCORED = Ssap.ZERO <-> s = 0)
    /\ (Ssap.SCORED = Ssap.NON_ZERO_BELOW_THRESHOLD <-> (s <> 0 /\ s < 10))
    /\ (Ssap.SCORED = Ssap.SCORED <-> (s <> 0 /\ 10 <= s)).
Proof.
  destruct (populate_normalisation_and_classification EntryQuerier.residue_querier
              100 100 0 1%float 20 UpperMatrixExample.example_selections
              UpperMatrixExample.example_mask UpperMatrixExample.example_mask
              UpperMatrixExample.example_distance_score
              UpperMatrixExample.example_window_index
              UpperMatrixExample.example_window_bound
              UpperMatrixExample.example_window_bound
              UpperMatrixExample.example_check UpperMatrixExample.example_align true)
    as [_ [_ [_ Hclass]]].
  apply (Hclass 1 1 20%float UpperMatrixExample.zeroed_globals Ssap.SCORED
           (Ssap.mk_globals [[0; 0]; [0; 7]] [(1000%float, 20%float)])).
  - reflexivity.
  - vm_compute. reflexivity.
Defined.

(** ** C5: [residues_have_similar_area_angle_props] *)

Section DoubleFacts.

Import Ssap.



Lemma cast_round_of_zero (x : float) (s : bool) :
  Prim2SF x = S754_zero s -> numeric_cast_round_to_size_t x = Returns 0.
Proof.
  intros H. unfold numeric_cast_round_to_size_t, Double.round_half_away.
  rewrite H. reflexivity.
Qed.




Lemma difference_int_abs (a b : Z) : difference_int a b = Z.abs (a - b).
Proof.
  unfold difference_int. destruct (Z.ltb_spec b a); lia.
Qed.

End DoubleFacts.

Section ResidueSimilarity.

Import Ssap.


Lemma cast_difference_int (a b : Z) :
  numeric_cast_int_to_size_t (difference_int a b) = Returns (Z.abs (a - b)).
Proof.
  unfold numeric_cast_int_to_size_t. rewrite difference_int_abs.
  destruct (Z.ltb_spec (Z.abs (a - b)) 0); [lia|reflexivity].
Qed.




End ResidueSimilarity.



(** The accessibilities are added, not subtracted: a residue of
    accessibility 80 is not similar to itself under the default cutoff,
    since 80 + 80 is not below 150; the first two example residues are
    similar, with 2 + (30 + 40) + (3 + 5) / 2 = 76. *)
Example accessibilities_are_summed :
  Ssap.residues_have_similar_area_angle_props Ssap.default_res_sim_cutoff
    ResidueExample.exposed_residue ResidueExample.exposed_residue
  = Ssap.Returns false
  /\ Ssap.residues_have_similar_area_angle_props Ssap.default_res_sim_cutoff
       ResidueExample.residue_1 ResidueExample.residue_2
     = Ssap.Returns true
  /\ Ssap.residues_have_similar_area_angle_props 76
       ResidueExample.residue_1 ResidueExample.residue_2
     = Ssap.Returns false.
Proof.
  repeat split; vm_compute; reflexivity.
Qed.

(** ** C6: [score_of_squared_distance], [USED_IN_PREVIOUS_CODE] *)

Section ScoreOfSquaredDistance.

Import ContextRes.

Local Open Scope R_scope.

Variable constants : residue_constants R.

Hypothesis a_positive : 0 < RESIDUE_A_VALUE constants.
Hypothesis b_positive : 0 < RESIDUE_B_VALUE constants.






End ScoreOfSquaredDistance.





(** ** C7: the walk along the final path in [calculate_log_score] *)

Section WalkFacts.

Import Alignment Ssap.

Variable gap_penalty_as_score : outcome Z.
Variable prm_alignment : alignment.
Variable final_score_matrix : list (list Z).

Local Abbreviation step := (walk_step gap_penalty_as_score prm_alignment final_score_matrix).
Local Abbreviation walk_prefix n := (fold_outcome (seq 0 n) step initial_walk_state).
Local Abbreviation has_both := (has_both_positions_of_index prm_alignment).
Local Abbreviation a_posn := (get_a_offset_1_position_of_index prm_alignment).
Local Abbreviation b_posn := (get_b_offset_1_position_of_index prm_alignment).
Local Abbreviation total :=
  (total_along_path prm_alignment final_score_matrix (gap_of gap_penalty_as_score)).
Local Abbreviation invariant :=
  (walk_invariant gap_penalty_as_score prm_alignment final_score_matrix).

Lemma fold_outcome_app {A S : Type} (f : S -> A -> outcome S) (l1 l2 : list A) (s : S) :
  fold_outcome (l1 ++ l2) f s = lift_outcome (fold_outcome l1 f s) (fold_outcome l2 f).
Proof.
  revert s. induction l1 as [|x l1 IH]; intros s; simpl; [reflexivity|].
  destruct (f s x); simpl; auto.
Qed.

Lemma walk_prefix_S (n : nat) :
  walk_prefix (S n) = lift_outcome (walk_prefix n) (fun s => step s n).
Proof.
  rewrite seq_S, fold_outcome_app. simpl.
  destruct (walk_prefix n) as [s|e|]; simpl; try reflexivity.
  destruct (step s n); reflexivity.
Qed.

Lemma has_earlier_aligned_column_S (n : nat) :
  has_earlier_aligned_column prm_alignment (S n)
  = has_earlier_aligned_column prm_alignment n || has_both n.
Proof.
  unfold has_earlier_aligned_column. rewrite seq_S, existsb_app. simpl.
  rewrite orb_false_r. reflexivity.
Qed.

Lemma total_along_path_S (n : nat) :
  total (S n)
  = total n + column_contribution prm_alignment final_score_matrix
                (gap_of gap_penalty_as_score) n.
Proof.
  unfold total_along_path. rewrite seq_S. cbn [Nat.add].
  generalize (column_contribution prm_alignment final_score_matrix
                (gap_of gap_penalty_as_score)).
  intros f. generalize (seq 0 n). intros l.
  induction l as [|k l IH]; cbn [app fold_right]; lia.
Qed.

(** In a state that satisfies the invariant, the walk charges a gap for
    the next column exactly when the specification does. *)
Lemma walk_charges_gap_spec (n : nat) (s : walk_state) :
  invariant n s -> has_both n = true ->
  walk_charges_gap s (a_posn n) (b_posn n) = gap_is_charged prm_alignment n.
Proof.
  intros [Hprev [Hfirst [Hposn _]]] Hboth.
  unfold walk_charges_gap, gap_is_charged. rewrite Hboth, Hfirst, Hprev, negb_involutive.
  simpl. f_equal.
  destruct n as [|k]; simpl; [reflexivity|].
  destruct (has_both k) eqn:Hk; simpl; [|reflexivity].
  destruct (Hposn k eq_refl Hk) as [-> ->].
  rewrite negb_andb. reflexivity.
Qed.

Lemma walk_step_invariant (n : nat) (s s' : walk_state) :
  invariant n s -> step s n = Returns s' -> invariant (S n) s'.
Proof.
  intros Hinv Hstep.
  pose proof (walk_charges_gap_spec n s Hinv) as Hcharge.
  destruct Hinv as [Hprev [Hfirst [Hposn Htotal]]].
  unfold walk_step in Hstep.
  unfold walk_invariant. rewrite has_earlier_aligned_column_S, total_along_path_S.
  unfold column_contribution.
  destruct (has_both n) eqn:Hboth.
  - rewrite (Hcharge eq_refl) in Hstep.
    assert (Hgap : exists gap,
               (if gap_is_charged prm_alignment n then gap_penalty_as_score else Returns 0)
               = Returns gap
               /\ gap = if gap_is_charged prm_alignment n
                        then gap_of gap_penalty_as_score else 0).
    { destruct (gap_is_charged prm_alignment n).
      - destruct gap_penalty_as_score as [g| |]; try discriminate. eauto.
      - eauto. }
    destruct Hgap as [gap [Hgap Hval]]. rewrite Hgap in Hstep. simpl in Hstep.
    unfold cell_value.
    destruct (matrix_get final_score_matrix (b_posn n) (a_posn n)) as [v|];
      [|discriminate].
    simpl in Hstep. injection Hstep as <-. simpl.
    rewrite orb_true_r. repeat split; try reflexivity; try congruence; lia.
  - simpl in Hstep. injection Hstep as <-. simpl.
    rewrite orb_false_r. repeat split; auto; try congruence; lia.
Qed.

Lemma walk_prefix_invariant (n : nat) (s : walk_state) :
  walk_prefix n = Returns s -> invariant n s.
Proof.
  revert s. induction n as [|n IH]; intros s.
  - simpl. intros [= <-]. unfold walk_invariant. simpl.
    repeat split; try reflexivity; discriminate.
  - rewrite walk_prefix_S.
    destruct (walk_prefix n) as [s0|e|]; simpl; try discriminate.
    intros Hstep. apply (walk_step_invariant n s0 s (IH s0 eq_refl) Hstep).
Qed.

End WalkFacts.

Lemma no_earlier_aligned_column_no_gap (a : Alignment.alignment) (k : nat) :
  Ssap.has_earlier_aligned_column a k = false -> Ssap.gap_is_charged a k = false.
Proof.
  intros H. unfold Ssap.gap_is_charged. rewrite H.
  destruct (Alignment.has_both_positions_of_index a k); reflexivity.
Qed.

(** How a call of [calculate_log_score] that returns went. *)
Lemma calculate_log_score_returns
  (T : Type) (arith : Ssap.double_arith T) (q : EntryQuerier.entry_querier)
  (length_a length_b : Z)
  (are_comparable__offset_1 : nat -> nat -> nat -> nat -> bool)
  (distance_score__offset_1 : nat -> nat -> nat -> nat -> Z)
  (gap_penalty_as_score : Ssap.outcome Z) (optimum_single_score sequence_identity : T)
  (prm_alignment : Alignment.alignment) (scores : Ssap.ssap_scores T) :
  Ssap.calculate_log_score arith q length_a length_b are_comparable__offset_1
    distance_score__offset_1 gap_penalty_as_score optimum_single_score
    sequence_identity prm_alignment = Ssap.Returns scores ->
  exists count final_score_matrix s,
    Ssap.compare_along_final_path length_a length_b are_comparable__offset_1
      distance_score__offset_1 prm_alignment = Ssap.Returns (count, final_score_matrix)
    /\ Ssap.accumulate_along_final_path gap_penalty_as_score prm_alignment
         final_score_matrix = Ssap.Returns s
    /\ scores
       = Ssap.scores_of_total arith q length_a length_b optimum_single_score
           sequence_identity (Z.max 0 (Ssap.walk_maxscore s)) count
           (Ssap.walk_num_aligned_pairs s).
Proof.
  unfold Ssap.calculate_log_score.
  destruct (Ssap.compare_along_final_path _ _ _ _ _) as [[count fsm]|e|] eqn:Hcompare;
    simpl; try discriminate.
  destruct (Ssap.accumulate_along_final_path _ _ fsm) as [s|e|] eqn:Hwalk;
    simpl; try discriminate.
  intros [= <-]. exists count, fsm, s. auto.
Qed.

(** C7.  In a call of [calculate_log_score] that returns, the walk over
    the final alignment charges the gap penalty for a column with both
    positions exactly when that column is not the first such column and
    does not immediately follow a column with both positions from which
    both positions advance by exactly 1; the first column with both
    positions is never charged; the total is the sum, over the columns with
    both positions, of their cell of the final score matrix less the gap
    charged; and the scores are computed from that total clamped at 0, so
    that a total of 0 or less leaves the three log scores unset. *)
Theorem calculate_log_score_gap_and_clamp
  (T : Type) (arith : Ssap.double_arith T) (q : EntryQuerier.entry_querier)
  (length_a length_b : Z)
  (are_comparable__offset_1 : nat -> nat -> nat -> nat -> bool)
  (distance_score__offset_1 : nat -> nat -> nat -> nat -> Z)
  (gap_penalty_as_score : Ssap.outcome Z) (optimum_single_score sequence_identity : T)
  (prm_alignment : Alignment.alignment) (scores : Ssap.ssap_scores T) :
  Ssap.calculate_log_score arith q length_a length_b are_comparable__offset_1
    distance_score__offset_1 gap_penalty_as_score optimum_single_score
    sequence_identity prm_alignment = Ssap.Returns scores ->
  exists count final_score_matrix s,
    Ssap.compare_along_final_path length_a length_b are_comparable__offset_1
      distance_score__offset_1 prm_alignment = Ssap.Returns (count, final_score_matrix)
    /\ Ssap.accumulate_along_final_path gap_penalty_as_score prm_alignment
         final_score_matrix = Ssap.Returns s
    /\ (forall k s_k,
          Ssap.fold_outcome (seq 0 k)
            (Ssap.walk_step gap_penalty_as_score prm_alignment final_score_matrix)
            Ssap.initial_walk_state = Ssap.Returns s_k ->
          Alignment.has_both_positions_of_index prm_alignment k = true ->
          Ssap.walk_charges_gap s_k
            (Alignment.get_a_offset_1_position_of_index prm_alignment k)
            (Alignment.get_b_offset_1_position_of_index prm_alignment k)
          = Ssap.gap_is_charged prm_alignment k)
    /\ (forall k, Ssap.has_earlier_aligned_column prm_alignment k = false ->
                  Ssap.gap_is_charged prm_alignment k = false)
    /\ Ssap.walk_maxscore s
       = Ssap.total_along_path prm_alignment final_score_matrix
           (Ssap.gap_of gap_penalty_as_score) (Alignment.length prm_alignment)
    /\ scores
       = Ssap.scores_of_total arith q length_a length_b optimum_single_score
           sequence_identity (Z.max 0 (Ssap.walk_maxscore s)) count
           (Ssap.walk_num_aligned_pairs s)
    /\ 0 <= Z.max 0 (Ssap.walk_maxscore s)
    /\ (Ssap.walk_maxscore s <= 0 ->
        Ssap.ssap_score_over_compared scores = None
        /\ Ssap.ssap_score_over_smaller scores = None
        /\ Ssap.ssap_score_over_larger scores = None).
Proof.
  intros Hcalc.
  apply calculate_log_score_returns in Hcalc as [count [fsm [s [Hcompare [Hwalk ->]]]]].
  exists count, fsm, s.
  split; [exact Hcompare|]. split; [exact Hwalk|].
  split; [|split; [|split; [|split; [|split]]]].
  - intros k s_k Hprefix Hboth.
    apply (walk_charges_gap_spec gap_penalty_as_score prm_alignment fsm k s_k);
      [|exact Hboth].
    apply walk_prefix_invariant. exact Hprefix.
  - apply no_earlier_aligned_column_no_gap.
  - apply (walk_prefix_invariant gap_penalty_as_score prm_alignment fsm
             (Alignment.length prm_alignment) s Hwalk).
  - reflexivity.
  - lia.
  - intros Hle. unfold Ssap.scores_of_total.
    replace (Z.max 0 (Ssap.walk_maxscore s)) with 0 by lia. simpl. auto.
Qed.


Lemma calculate_log_score_gap_and_clamp_witness :
  exists scores,
    LogScoreExample.example_log_score LogScoreExample.final_alignment
    = Ssap.Returns scores
    /\ exists count final_score_matrix s,
         Ssap.accumulate_along_final_path (Ssap.Returns 3)
           LogScoreExample.final_alignment final_score_matrix = Ssap.Returns s
         /\ count = 12
         /\ Ssap.walk_maxscore s = 30 + 30 + (30 - 3) + (30 - 3)
         /\ Ssap.walk_maxscore s
            = Ssap.total_along_path LogScoreExample.final_alignment final_score_matrix
                3 6.
Proof.
  assert (Hrun : exists scores,
             LogScoreExample.example_log_score LogScoreExample.final_alignment
             = Ssap.Returns scores)
    by (eexists; vm_compute; reflexivity).
  destruct Hrun as [scores Hrun].
  exists scores. split; [exact Hrun|].
  destruct (calculate_log_score_gap_and_clamp float
              (Ssap.binary64_arith LogScoreExample.stand_in_log)
              EntryQuerier.sec_struc_querier 6 5 LogScoreExample.distinct_positions
              LogScoreExample.constant_score (Ssap.Returns 3) 50%float 0%float
              LogScoreExample.final_alignment scores Hrun)
    as [count [fsm [s [Hcompare [Hwalk [_ [_ [Htotal _]]]]]]]].
  exists count, fsm, s. split; [exact Hwalk|].
  vm_compute in Hcompare. injection Hcompare as <- <-.
  vm_compute in Hwalk. injection Hwalk as <-.
  repeat split; vm_compute; reflexivity.
Defined.

(** ** C9: the score over the larger protein is at most the score over
    the smaller *)

Section LogScoreOrder.

Import EntryQuerier Ssap.

Lemma num_excluded_small (q : entry_querier) :
  0 <= num_excluded_on_either_size q < SizeT.max_value.
Proof.
  destruct q; vm_compute; split; congruence.
Qed.



Local Open Scope R_scope.


End LogScoreOrder.




(** On the integers below the cutoff, which are the squared distances
    that the integer-rounding mode of [context_res_vec] produces, the
    doubles returned with the legacy constants at scale 10 are strictly
    positive and strictly decreasing: all 4000 of them, by evaluation. *)
Lemma legacy_scores_decrease_on_integers :
  forallb (fun k => let d := Z.of_nat k in
                    (0 <? legacy_score d)%float
                    && ((d =? 3999) || (legacy_score (d + 1) <? legacy_score d)%float))
          (seq 0 4000) = true
  /\ legacy_score 4000 = 0%float.
Proof.
  split; vm_compute; reflexivity.
Qed.

(** * Further properties *)

(** ** entry_querier.cpp: exclusion and the number of comparable pairs *)

Section EntryQuerierFacts.

Import EntryQuerier.

(** A power of two that divides a product with an odd factor divides the
    other factor. *)
Lemma pow2_divide_odd (n : nat) (a b : Z) :
  Z.odd b = true -> (2 ^ Z.of_nat n | a * b) -> (2 ^ Z.of_nat n | a).
Proof.
  revert a. induction n as [|n IH]; intros a Hb Hdiv.
  - exists a. simpl. lia.
  - rewrite Nat2Z.inj_succ, Z.pow_succ_r in * by lia.
    assert (Ha : Z.even a = true).
    { destruct Hdiv as [c Hc].
      assert (He : Z.even (a * b) = true).
      { rewrite Hc. rewrite Z.even_mul, Z.even_mul. simpl. apply orb_true_r. }
      rewrite Z.even_mul in He. destruct (Z.even a); [reflexivity|].
      simpl in He. rewrite <- Z.negb_odd, Hb in He. discriminate. }
    apply Z.even_spec in Ha. destruct Ha as [a' ->].
    destruct (IH a' Hb) as [c Hc].
    + destruct Hdiv as [c Hc]. exists c. nia.
    + exists c. nia.
Qed.

(** The product of two consecutive numbers below [2^64] is not a multiple
    of [2^64]. *)
Lemma consecutive_product_not_multiple (k : Z) :
  2 <= k < SizeT.modulus -> (k * (k - 1)) mod SizeT.modulus <> 0.
Proof.
  intros Hk Hmod.
  apply Z.mod_divide in Hmod; [|unfold SizeT.modulus; lia].
  change SizeT.modulus with (2 ^ Z.of_nat 64) in Hmod.
  assert (Hbound : 2 ^ Z.of_nat 64 = SizeT.modulus) by reflexivity.
  destruct (Z.odd k) eqn:Ek.
  - rewrite Z.mul_comm in Hmod. apply pow2_divide_odd in Hmod; [|exact Ek].
    apply Z.divide_pos_le in Hmod; lia.
  - assert (Ek' : Z.odd (k - 1) = true).
    { rewrite Z.odd_sub. rewrite Ek. reflexivity. }
    apply pow2_divide_odd in Hmod; [|exact Ek'].
    apply Z.divide_pos_le in Hmod; lia.
Qed.

(** [pair_is_not_excluded] is symmetric in its two indices, is false on a
    pair of equal indices, and on indices that are [size_t] values tests
    [|i - j| > n]: the subtraction of the smaller from the larger index
    never wraps. *)
Theorem pair_is_not_excluded_is_symmetric (n i j : Z)
  (Hn : 0 <= n) (Hi : SizeT.in_range i) (Hj : SizeT.in_range j) :
  pair_is_not_excluded n i j = pair_is_not_excluded n j i
  /\ pair_is_not_excluded n i i = false
  /\ (pair_is_not_excluded n i j = true <-> n < Z.abs (i - j)).
Proof.
  unfold SizeT.in_range in *.
  destruct (pair_is_not_excluded_spec n i j Hi Hj) as [Hspec Hsym].
  split; [exact Hsym|]. split.
  - destruct (pair_is_not_excluded_spec n i i Hi Hi) as [-> _].
    rewrite Z.sub_diag. simpl. apply Z.ltb_ge. exact Hn.
  - rewrite Hspec. apply Z.ltb_lt.
Qed.

(** [_num_comparable_impl] returns 0 exactly when the length is at most
    the exclusion radius plus 1, for every [size_t] length: also where the
    product wraps, it does not wrap to 0. *)
Theorem num_comparable_is_zero_only_when_too_short (n L : Z)
  (Hn : 0 <= n < SizeT.max_value) (HL : SizeT.in_range L) :
  _num_comparable_impl n L = 0 <-> L <= n + 1.
Proof.
  unfold SizeT.in_range, SizeT.max_value in *.
  unfold _num_comparable_impl, SizeT.add, SizeT.sub, SizeT.mul.
  rewrite (size_t_wrap_small (n + 1)) by lia.
  destruct (Z.leb_spec L (n + 1)) as [Hle|Hlt]; [tauto|].
  rewrite (size_t_wrap_small (L - n)) by lia.
  rewrite (size_t_wrap_small (L - n - 1)) by lia.
  split; [|lia]. intros H. exfalso.
  apply (consecutive_product_not_multiple (L - n)); [lia|exact H].
Qed.

End EntryQuerierFacts.

Lemma pair_is_not_excluded_is_symmetric_witness :
  EntryQuerier.pair_is_not_excluded 5 3 9 = EntryQuerier.pair_is_not_excluded 5 9 3
  /\ EntryQuerier.pair_is_not_excluded 5 3 3 = false
  /\ (EntryQuerier.pair_is_not_excluded 5 3 9 = true <-> 5 < Z.abs (3 - 9)).
Proof.
  apply (pair_is_not_excluded_is_symmetric 5 3 9); unfold SizeT.in_range, SizeT.modulus; lia.
Defined.

Lemma num_comparable_is_zero_only_when_too_short_witness :
  EntryQuerier._num_comparable_impl 0 (2 ^ 32 + 1) = 0 <-> 2 ^ 32 + 1 <= 0 + 1.
Proof.
  apply (num_comparable_is_zero_only_when_too_short 0 (2 ^ 32 + 1));
    unfold SizeT.in_range, SizeT.max_value, SizeT.modulus; lia.
Defined.

(** ** context_res.h: the [SIMPLIFIED] formula *)

Section SimplifiedFormula.

Import ContextRes.

(** [std::max( 0.0, x )] is [0.0] or a double above 0: never a NaN and never
    below 0, whatever [x] is. *)
Lemma std_max_zero_cases (x : float) :
  std_max 0 x = 0%float \/ (0 <? std_max 0 x)%float = true.
Proof.
  unfold std_max. destruct (0 <? x)%float eqn:E; [right; exact E|left; reflexivity].
Qed.

Lemma above_zero_is_a_number (x : float) :
  (0 <? x)%float = true -> is_nan x = false /\ (x <? 0)%float = false.
Proof.
  unfold is_nan. rewrite !ltb_spec, eqb_spec. unfold SFltb, SFeqb.
  change (Prim2SF 0) with (S754_zero false).
  destruct (Prim2SF x) as [s|s| |s m e]; simpl; try discriminate.
  all: destruct s; simpl; try discriminate; auto.
  intros _. rewrite Z.compare_refl.
  change (PosDef.Pos.compare_cont Eq m m) with (m ?= m)%positive.
  rewrite Pos.compare_refl. auto.
Qed.

(** The [SIMPLIFIED] formula never returns a NaN or a value below 0,
    whatever its arguments and the constants are (NaNs and infinities
    included): the condition under which the source writes its diagnostics
    to [std::cerr] never holds. *)
Theorem simplified_score_is_never_negative_or_nan
  (constants : residue_constants float) (d scale : float) :
  is_nan (score_of_squared_distance SIMPLIFIED constants d scale) = false
  /\ (score_of_squared_distance SIMPLIFIED constants d scale <? 0)%float = false.
Proof.
  unfold score_of_squared_distance.
  match goal with |- context [std_max 0 ?x] => destruct (std_max_zero_cases x) as [H|H] end.
  - rewrite H. split; reflexivity.
  - apply above_zero_is_a_number. exact H.
Qed.

End SimplifiedFormula.

(** ** alignment_refiner.cpp: runs of [iterate] *)

Section RefinerRuns.

Import Alignment AlignmentRefiner.

Variable protein : Type.
Variable view_cache_list : Type.
Variable gap_penalty : Type.
Variable alignment_split : Type.
Variable get_num_entries : alignment_split -> nat.
Variable get_standard_alignment_splits : alignment -> list alignment_split.
Variable make_view_cache_list : list protein -> view_cache_list.
Variable rescore_and_realign :
  refiner_state -> alignment -> list protein -> view_cache_list -> gap_penalty ->
  alignment_split -> result (bool * alignment) * refiner_state.

Local Abbreviation over_splits :=
  (iterate_over_splits protein view_cache_list gap_penalty alignment_split
     get_num_entries rescore_and_realign).
Local Abbreviation step_for_split_list :=
  (iterate_step_for_alignment_split_list protein view_cache_list gap_penalty
     alignment_split get_num_entries rescore_and_realign).
Local Abbreviation step :=
  (iterate_step protein view_cache_list gap_penalty alignment_split
     get_num_entries get_standard_alignment_splits rescore_and_realign).
Local Abbreviation body :=
  (loop_body protein view_cache_list gap_penalty alignment_split
     get_num_entries get_standard_alignment_splits rescore_and_realign).
Local Abbreviation loop :=
  (iterate_loop protein view_cache_list gap_penalty alignment_split
     get_num_entries get_standard_alignment_splits rescore_and_realign).
Local Abbreviation run :=
  (iterate_with_view_cache protein view_cache_list gap_penalty alignment_split
     get_num_entries get_standard_alignment_splits rescore_and_realign).
Local Abbreviation run_from_proteins :=
  (iterate protein view_cache_list gap_penalty alignment_split
     get_num_entries get_standard_alignment_splits make_view_cache_list
     rescore_and_realign).

Lemma iterate_over_splits_flag st a ins ps v g l :
  over_splits st a ins ps v g l
  = match over_splits st a false ps v g l with
    | (Ok (ins', a'), st') => (Ok (ins' || ins, a'), st')
    | (Throw e, st') => (Throw e, st')
    end.
Proof.
  revert st a ins. induction l as [|s l IH]; intros st a ins; simpl.
  - reflexivity.
  - destruct (iterate_step_for_alignment_split _ _ _ _ _ _ st a ps v g s)
      as [[[i a']|e] st']; [|reflexivity].
    simpl. rewrite (IH st' a' (i || ins)), (IH st' a' (i || false)).
    destruct (over_splits st' a' false ps v g l) as [[[i' a'']|e] st'']; [|reflexivity].
    rewrite orb_false_r, orb_assoc. reflexivity.
Qed.

(** [iterate_step_for_alignment_split_list] chains its splits: on no
    splits it returns the alignment as it is, with no inserted residues and
    the refiner's matrices untouched; and a list in two parts runs the first
    part and then the second part on the alignment the first part produced,
    reports inserted residues when either part does, and stops at the first
    split that throws. *)
Theorem split_list_steps_compose :
  (forall (st : refiner_state) (a : alignment) ps v g,
      step_for_split_list st a ps v g [] = (Ok (false, a), st))
  /\ (forall (st : refiner_state) (a : alignment) ps v g l1 l2,
        step_for_split_list st a ps v g (l1 ++ l2)
        = match step_for_split_list st a ps v g l1 with
          | (Ok (ins1, a1), st1) =>
              match step_for_split_list st1 a1 ps v g l2 with
              | (Ok (ins2, a2), st2) => (Ok (ins2 || ins1, a2), st2)
              | (Throw e, st2) => (Throw e, st2)
              end
          | (Throw e, st1) => (Throw e, st1)
          end).
Proof.
  split; [reflexivity|].
  intros st a ps v g l1 l2. unfold iterate_step_for_alignment_split_list.
  generalize false at 1 2 as ins. revert st a.
  induction l1 as [|s l1 IH]; intros st a ins; simpl.
  - rewrite iterate_over_splits_flag. unfold iterate_step_for_alignment_split_list.
    destruct (over_splits st a false ps v g l2) as [[[i a']|e] st']; reflexivity.
  - destruct (iterate_step_for_alignment_split _ _ _ _ _ _ st a ps v g s)
      as [[[i a']|e] st']; [|reflexivity].
    simpl. apply IH.
Qed.

(** [iterate] lets the exception of [iterate_step] through: called with a
    protein list whose size differs from the alignment's [num_entries], it
    throws [not_implemented_exception] in its first pass, after one call of
    [iterate_step], with the refiner's matrices untouched. *)
Theorem iterate_throws_on_protein_mismatch
  (fuel : nat) (st : refiner_state) (a : alignment) (ps : list protein)
  (v : view_cache_list) (g : gap_penalty)
  (Hmismatch : List.length ps <> num_entries a) :
  run (S fuel) st a ps v g
  = mk_iterate_run (Thrown (not_implemented_exception protein_mismatch_message)) 1 st
  /\ run_from_proteins (S fuel) st a ps g
     = mk_iterate_run (Thrown (not_implemented_exception protein_mismatch_message)) 1 st.
Proof.
  assert (H : forall v', run (S fuel) st a ps v' g
    = mk_iterate_run (Thrown (not_implemented_exception protein_mismatch_message)) 1 st).
  { intros v'. unfold iterate_with_view_cache. cbn [iterate_loop].
    rewrite loop_condition_initial. unfold loop_body.
    cbn [curr_alignment initial_loop_state]. unfold iterate_step.
    destruct (Nat.eqb_spec (List.length ps) (num_entries a)) as [He|_];
      [contradiction|reflexivity]. }
  split; [apply H|]. unfold iterate. apply H.
Qed.

(** An alignment that [iterate_step] returns unchanged, reporting no
    inserted residues, is what [iterate] returns, after exactly one call of
    [iterate_step]. *)
Theorem iterate_returns_a_fixed_point
  (fuel : nat) (st st1 : refiner_state) (a : alignment) (ps : list protein)
  (v : view_cache_list) (g : gap_penalty)
  (Hfixed : step st a ps v g = (Ok (false, a), st1)) :
  run (S fuel) st a ps v g = mk_iterate_run (Returned a) 1 st1.
Proof.
  unfold iterate_with_view_cache. cbn [iterate_loop].
  rewrite loop_condition_initial.
  destruct (alignment_eq_dec a (empty_alignment NUM_ENTRIES_IN_PAIR_ALIGNMENT)) as [He|Hne].
  - rewrite (loop_body_break _ _ _ _ _ _ _ st (initial_loop_state a) ps v g false a st1
               Hfixed He). reflexivity.
  - rewrite (loop_body_continue _ _ _ _ _ _ _ st (initial_loop_state a) ps v g false a st1
               Hfixed Hne).
    cbn [curr_alignment iter_ctr initial_loop_state].
    destruct fuel; cbn [iterate_loop]; unfold loop_condition;
      cbn [inserted_residues curr_alignment prev_alignment];
      rewrite alignment_eqb_refl; reflexivity.
Qed.



End RefinerRuns.

Lemma iterate_throws_on_protein_mismatch_witness :
  RefinerExample.flip_run 3 RefinerExample.no_scores RefinerExample.example_aln_1 [tt] tt tt
  = AlignmentRefiner.mk_iterate_run
      (AlignmentRefiner.Thrown
         (not_implemented_exception AlignmentRefiner.protein_mismatch_message))
      1 RefinerExample.no_scores
  /\ AlignmentRefiner.iterate unit unit unit nat (fun n => n) RefinerExample.one_split
       (fun _ => tt) RefinerExample.flip_realign 3 RefinerExample.no_scores
       RefinerExample.example_aln_1 [tt] tt
     = AlignmentRefiner.mk_iterate_run
         (AlignmentRefiner.Thrown
            (not_implemented_exception AlignmentRefiner.protein_mismatch_message))
         1 RefinerExample.no_scores.
Proof.
  apply (iterate_throws_on_protein_mismatch unit unit unit nat (fun n => n)
           RefinerExample.one_split (fun _ => tt) RefinerExample.flip_realign
           2%nat RefinerExample.no_scores RefinerExample.example_aln_1 [tt] tt tt).
  simpl. discriminate.
Defined.


Lemma iterate_returns_a_fixed_point_witness :
  RefinerRunExample.keep_run 1 RefinerExample.no_scores RefinerExample.example_aln_2
    [tt; tt] tt tt
  = AlignmentRefiner.mk_iterate_run
      (AlignmentRefiner.Returned RefinerExample.example_aln_2) 1 RefinerExample.no_scores.
Proof.
  apply (iterate_returns_a_fixed_point unit unit unit nat (fun n => n)
           RefinerExample.one_split RefinerRunExample.keep_realign 0%nat
           RefinerExample.no_scores RefinerExample.no_scores
           RefinerExample.example_aln_2 [tt; tt] tt tt).
  reflexivity.
Defined.


(** ** ssap.cpp: the scores [calculate_log_score] sets *)

Section WalkCounts.

Import Alignment EntryQuerier Ssap.

Variable gap_penalty_as_score : outcome Z.
Variable prm_alignment : alignment.
Variable final_score_matrix : list (list Z).

Local Abbreviation step := (walk_step gap_penalty_as_score prm_alignment final_score_matrix).
Local Abbreviation walk_prefix n := (fold_outcome (seq 0 n) step initial_walk_state).
Local Abbreviation has_both := (has_both_positions_of_index prm_alignment).

Lemma size_t_wrap_succ (z : Z) : SizeT.add (SizeT.wrap z) 1 = SizeT.wrap (z + 1).
Proof.
  unfold SizeT.add, SizeT.wrap. rewrite Z.add_mod_idemp_l by (unfold SizeT.modulus; lia).
  reflexivity.
Qed.

Lemma walk_step_counts (n : nat) (s s' : walk_state) :
  step s n = Returns s' ->
  walk_num_aligned_pairs s'
  = if has_both n then SizeT.add (walk_num_aligned_pairs s) 1
    else walk_num_aligned_pairs s.
Proof.
  unfold walk_step. destruct (has_both n).
  - destruct (if walk_charges_gap s _ _ then gap_penalty_as_score else Returns 0)
      as [gap|e|]; simpl; try discriminate.
    destruct (matrix_get final_score_matrix _ _); simpl; [|discriminate].
    intros [= <-]. reflexivity.
  - simpl. intros [= <-]. reflexivity.
Qed.

(** After the first [n] columns, the walk's [num_aligned_pairs] is the
    number of those columns that have both positions. *)
Lemma walk_prefix_counts (n : nat) (s : walk_state) :
  walk_prefix n = Returns s ->
  walk_num_aligned_pairs s = SizeT.wrap (Z.of_nat (count_if has_both (seq 0 n))).
Proof.
  revert s. induction n as [|n IH]; intros s.
  - simpl. intros [= <-]. reflexivity.
  - rewrite walk_prefix_S.
    destruct (walk_prefix n) as [s0|e|]; cbn [lift_outcome]; try discriminate.
    intros Hstep. rewrite (walk_step_counts n s0 s Hstep), (IH s0 eq_refl).
    rewrite seq_S, count_if_app, count_if_cons. cbn [Nat.add].
    destruct (has_both n); cbn [count_if filter List.length].
    + rewrite size_t_wrap_succ. f_equal. lia.
    + f_equal. lia.
Qed.

End WalkCounts.

Section ScoresSet.

Import Alignment EntryQuerier Ssap.

Context {T : Type}.
Variable arith : double_arith T.
Variable q : entry_querier.
Variable length_a length_b : Z.
Variable are_comparable__offset_1 : nat -> nat -> nat -> nat -> bool.
Variable distance_score__offset_1 : nat -> nat -> nat -> nat -> Z.
Variable gap_penalty_as_score : outcome Z.
Variable optimum_single_score sequence_identity : T.

Local Abbreviation log_scores :=
  (calculate_log_score arith q length_a length_b are_comparable__offset_1
     distance_score__offset_1 gap_penalty_as_score optimum_single_score
     sequence_identity).

Lemma num_comparable_positive_iff (L : Z) :
  SizeT.in_range L ->
  (0 <? num_comparable q L) = (num_excluded_on_either_size q + 1 <? L).
Proof.
  intros HL.
  pose proof (num_comparable_is_zero_only_when_too_short
                (num_excluded_on_either_size q) L (num_excluded_small q) HL) as Hzero.
  assert (Hnonneg : 0 <= num_comparable q L).
  { unfold num_comparable, _num_comparable_impl.
    destruct (_ <=? _); [lia|]. unfold SizeT.mul, SizeT.wrap.
    apply Z.mod_pos_bound. unfold SizeT.modulus. lia. }
  fold (num_comparable q L) in Hzero.
  destruct (Z.ltb_spec 0 (num_comparable q L));
    destruct (Z.ltb_spec (num_excluded_on_either_size q + 1) L); lia.
Qed.

(** Which of its three log scores a call of [calculate_log_score] that
    returns sets, for proteins whose lengths are [size_t] values: the score
    over the compared pairs when the total along the path is positive and
    some pair was compared; the score over the smaller (larger) protein when
    the total is positive and the smaller (larger) protein has more entries
    than the exclusion radius plus 1. *)
Theorem calculate_log_score_sets_its_scores
  (prm_alignment : alignment) (scores : ssap_scores T)
  (Ha : SizeT.in_range length_a) (Hb : SizeT.in_range length_b)
  (Hcalc : log_scores prm_alignment = Returns scores) :
  exists count final_score_matrix s,
    compare_along_final_path length_a length_b are_comparable__offset_1
      distance_score__offset_1 prm_alignment = Returns (count, final_score_matrix)
    /\ accumulate_along_final_path gap_penalty_as_score prm_alignment
         final_score_matrix = Returns s
    /\ (ssap_score_over_compared scores <> None
        <-> 0 < walk_maxscore s /\ count <> 0)
    /\ (ssap_score_over_smaller scores <> None
        <-> 0 < walk_maxscore s
            /\ num_excluded_on_either_size q + 1 < Z.min length_a length_b)
    /\ (ssap_score_over_larger scores <> None
        <-> 0 < walk_maxscore s
            /\ num_excluded_on_either_size q + 1 < Z.max length_a length_b).
Proof.
  apply calculate_log_score_returns in Hcalc as [count [fsm [s [Hcompare [Hwalk ->]]]]].
  exists count, fsm, s. split; [exact Hcompare|]. split; [exact Hwalk|].
  unfold scores_of_total. cbn [ssap_score_over_compared ssap_score_over_smaller
                                 ssap_score_over_larger].
  rewrite !num_comparable_positive_iff
    by (unfold SizeT.in_range in *; lia).
  destruct (Z.eqb_spec (Z.max 0 (walk_maxscore s)) 0) as [Hz|Hnz]; cbn [negb andb].
  - repeat split; try congruence; lia.
  - destruct (Z.eqb_spec count 0);
      destruct (Z.ltb_spec (num_excluded_on_either_size q + 1) (Z.min length_a length_b));
      destruct (Z.ltb_spec (num_excluded_on_either_size q + 1) (Z.max length_a length_b));
      cbn [negb];
      repeat split; try congruence; try discriminate; try lia.
Qed.

(** The fields [calculate_log_score] sets for residues only: a call that
    returns sets [num_aligned_pairs] to the number of columns of the
    alignment that have both positions (as a [size_t]) and sets the
    sequence identity when the querier is the residue querier, and leaves
    them and the percentage of aligned pairs unset when it is not. *)
Theorem calculate_log_score_counts_aligned_pairs
  (prm_alignment : alignment) (scores : ssap_scores T)
  (Hcalc : log_scores prm_alignment = Returns scores) :
  (temp_hacky_is_residue q = true ->
   num_aligned_pairs scores
   = Some (SizeT.wrap (Z.of_nat
             (count_if (has_both_positions_of_index prm_alignment)
                       (seq 0 (Alignment.length prm_alignment)))))
   /\ seq_id scores = Some sequence_identity)
  /\ (temp_hacky_is_residue q = false ->
      num_aligned_pairs scores = None
      /\ seq_id scores = None
      /\ percentage_aligned_pairs_over_larger scores = None).
Proof.
  apply calculate_log_score_returns in Hcalc as [count [fsm [s [Hcompare [Hwalk ->]]]]].
  unfold scores_of_total. cbn [num_aligned_pairs seq_id percentage_aligned_pairs_over_larger].
  split; intros ->; cbn [andb]; [|auto].
  split; [|reflexivity]. f_equal.
  apply (walk_prefix_counts gap_penalty_as_score prm_alignment fsm). exact Hwalk.
Qed.

End ScoresSet.

Section LogScoreScale.

Import Ssap.

Local Open Scope R_scope.


End LogScoreScale.

Lemma calculate_log_score_sets_its_scores_witness :
  exists scores count final_score_matrix s,
    LogScoreExample.example_log_score LogScoreExample.final_alignment
    = Ssap.Returns scores
    /\ Ssap.accumulate_along_final_path (Ssap.Returns 3)
         LogScoreExample.final_alignment final_score_matrix = Ssap.Returns s
    /\ count = 12
    /\ (Ssap.ssap_score_over_smaller scores <> None
        <-> 0 < Ssap.walk_maxscore s /\ 0 + 1 < Z.min 6 5).
Proof.
  assert (Hrun : exists scores,
             LogScoreExample.example_log_score LogScoreExample.final_alignment
             = Ssap.Returns scores)
    by (eexists; vm_compute; reflexivity).
  destruct Hrun as [scores Hrun].
  destruct (calculate_log_score_sets_its_scores
              (Ssap.binary64_arith LogScoreExample.stand_in_log)
              EntryQuerier.sec_struc_querier 6 5 LogScoreExample.distinct_positions
              LogScoreExample.constant_score (Ssap.Returns 3) 50%float 0%float
              LogScoreExample.final_alignment scores
              ltac:(unfold SizeT.in_range, SizeT.modulus; lia)
              ltac:(unfold SizeT.in_range, SizeT.modulus; lia) Hrun)
    as [count [fsm [s [Hcompare [Hwalk [_ [Hsmaller _]]]]]]].
  exists scores, count, fsm, s.
  split; [exact Hrun|]. split; [exact Hwalk|]. split; [|exact Hsmaller].
  vm_compute in Hcompare. injection Hcompare as <- _. reflexivity.
Defined.

Lemma calculate_log_score_counts_aligned_pairs_witness :
  exists scores,
    example_residue_log_score LogScoreExample.final_alignment = Ssap.Returns scores
    /\ Ssap.num_aligned_pairs scores = Some 4
    /\ Ssap.seq_id scores = Some 0%float.
Proof.
  assert (Hrun : exists scores,
             example_residue_log_score LogScoreExample.final_alignment
             = Ssap.Returns scores)
    by (eexists; vm_compute; reflexivity).
  destruct Hrun as [scores Hrun].
  exists scores. split; [exact Hrun|].
  apply (calculate_log_score_counts_aligned_pairs
           (Ssap.binary64_arith LogScoreExample.stand_in_log)
           EntryQuerier.residue_querier 6 5 LogScoreExample.distinct_positions
           LogScoreExample.constant_score (Ssap.Returns 3) 50%float 0%float
           LogScoreExample.final_alignment scores Hrun).
  reflexivity.
Defined.


(** ** ssap.cpp: what [populate_upper_score_matrix] compares *)

Section PopulateFacts.

Import Alignment EntryQuerier Ssap.

Variable prm_entry_querier : entry_querier.
Variable full_length_a full_length_b : Z.
Variable global_window : Z.
Variable global_frac_selected : float.
Variable global_num_selections : Z.
Variable global_selections : Z -> Z * Z.
Variable global_upper_res_mask_matrix : Z -> Z -> bool.
Variable global_upper_ss_mask_matrix : Z -> Z -> bool.
Variable distance_score__offset_1 : Z -> Z -> Z -> Z -> Z.
Variable get_window_matrix_a_index__offset_1 : Z -> Z -> Z -> Z -> Z -> Z.
Variable get_window_start_a_for_b__offset_1 : Z -> Z -> Z -> Z -> Z.
Variable get_window_stop_a_for_b__offset_1 : Z -> Z -> Z -> Z -> Z.
Variable check_offset_1 : Z -> option exn.
Variable align_lower_matrix : Z -> Z -> Z * alignment.

Local Abbreviation populate_with q frac res_mask ss_mask :=
  (populate_upper_score_matrix q full_length_a full_length_b
     global_window frac global_num_selections global_selections
     res_mask ss_mask
     distance_score__offset_1 get_window_matrix_a_index__offset_1
     get_window_start_a_for_b__offset_1 get_window_stop_a_for_b__offset_1
     check_offset_1 align_lower_matrix).

Local Abbreviation cell_with q frac res_mask ss_mask :=
  (populate_cell q full_length_a full_length_b global_window
     frac global_num_selections res_mask ss_mask distance_score__offset_1
     get_window_matrix_a_index__offset_1 check_offset_1 align_lower_matrix).

(** A loop whose passes leave the globals alone and keep a property of
    the counters leaves the globals alone and keeps the property. *)
Lemma fold_m_frame {A S : Type} (P : S -> Prop) (f : S -> A -> M S) (l : list A) :
  (forall s x g o g', f s x g = (o, g') ->
     g' = g /\ (P s -> forall s', o = Returns s' -> P s')) ->
  forall s g o g', fold_m l f s g = (o, g') ->
     g' = g /\ (P s -> forall s', o = Returns s' -> P s').
Proof.
  intros Hf. induction l as [|x l IH]; intros s g o g'; simpl.
  - unfold ret. intros [= <- <-]. split; [reflexivity|]. intros Hs s' [= <-]. exact Hs.
  - unfold bind at 1. destruct (f s x g) as [[s1|e|] g1] eqn:Hx;
      apply Hf in Hx as [-> Hx].
    + intros Hrest. apply IH in Hrest as [-> Hrest]. split; [reflexivity|].
      intros Hs. apply Hrest. apply Hx; [exact Hs|reflexivity].
    + intros [= <- <-]. split; [reflexivity|]. intros _ s' [=].
    + intros [= <- <-]. split; [reflexivity|]. intros _ s' [=].
Qed.

Local Abbreviation nothing_compared c :=
  (num_actual_upper_cell_comps c = 0
   /\ found_non_zero_cell c = false
   /\ found_threshold_cell c = false).

(** When selections are not in use and the mask that applies (the residue
    mask for residues, the secondary-structure mask for secondary
    structures) rules out every pair, [populate_upper_score_matrix]
    compares nothing: however it ends, the globals (the upper score matrix
    among them) are as they were, and when it returns it has counted no
    comparison and found no non-zero and no scored cell. *)
Theorem populate_compares_only_masked_pairs
  (prm_align_pass : bool) (g g' : globals) (o : outcome populate_counters)
  (Hselections : using_selections prm_entry_querier prm_align_pass = false)
  (Hres_mask : temp_hacky_is_residue prm_entry_querier = true ->
               forall b a, global_upper_res_mask_matrix b a = false)
  (Hss_mask : temp_hacky_is_residue prm_entry_querier = false ->
              forall b a, global_upper_ss_mask_matrix b a = false)
  (Hrun : populate_with prm_entry_querier global_frac_selected
            global_upper_res_mask_matrix global_upper_ss_mask_matrix
            prm_align_pass g = (o, g')) :
  g' = g
  /\ forall c, o = Returns c ->
       num_actual_upper_cell_comps c = 0
       /\ found_non_zero_cell c = false
       /\ found_threshold_cell c = false.
Proof.
  unfold populate_upper_score_matrix in Hrun.
  apply (fold_m_frame (fun c => nothing_compared c)) in Hrun.
  - destruct Hrun as [-> Hrun]. split; [reflexivity|].
    intros c Hc. apply Hrun; [|exact Hc]. repeat split.
  - intros c ctr_b g0 o0 g0'. unfold populate_row.
    apply (fold_m_frame (fun c => nothing_compared c)).
    intros c' ctr_a g1 o1 g1'. unfold populate_cell. rewrite Hselections.
    cbn [negb]. unfold bind at 1.
    destruct (temp_hacky_is_residue prm_entry_querier) eqn:Hres.
    + unfold bind at 1. unfold lift, numeric_cast_int_to_size_t.
      destruct (_ <? 0).
      * intros [= <- <-]. split; [reflexivity|]. intros _ s' [=].
      * unfold ret at 1. rewrite (Hres_mask eq_refl). unfold ret.
        intros [= <- <-]. split; [reflexivity|].
        intros [H1 [H2 H3]] s' [= <-]. repeat split; assumption.
    + unfold ret at 1. rewrite (Hss_mask eq_refl). unfold ret.
      intros [= <- <-]. split; [reflexivity|].
      intros [H1 [H2 H3]] s' [= <-]. repeat split; assumption.
Qed.

Lemma fold_m_keeps_divisions {A S : Type} (f : S -> A -> M S) (l : list A) :
  (forall s x g o g', f s x g = (o, g') -> divisions g' = divisions g) ->
  forall s g o g', fold_m l f s g = (o, g') -> divisions g' = divisions g.
Proof.
  intros Hf. induction l as [|x l IH]; intros s g o g'; simpl.
  - unfold ret. intros [= _ <-]. reflexivity.
  - unfold bind at 1. destruct (f s x g) as [[s1|e|] g1] eqn:Hx; apply Hf in Hx.
    + intros Hrest. apply IH in Hrest. congruence.
    + intros [= _ <-]. exact Hx.
    + intros [= _ <-]. exact Hx.
Qed.

Lemma sec_struc_compare_never_divides a b norm g o g' :
  compare_upper_cell sec_struc_querier full_length_a full_length_b global_window
    distance_score__offset_1 get_window_matrix_a_index__offset_1 check_offset_1
    align_lower_matrix a b norm g = (o, g') ->
  divisions g' = divisions g.
Proof.
  unfold compare_upper_cell, run_check_offset_1. cbn [temp_hacky_is_residue andb].
  destruct (check_offset_1 a) as [e|];
    [unfold bind, lift; intros [= _ <-]; reflexivity|].
  destruct (check_offset_1 b) as [e|];
    [unfold bind, lift, ret; intros [= _ <-]; reflexivity|].
  unfold bind at 1 2 3. unfold ret at 1 2 3.
  destruct (_ =? 0); [unfold ret; intros [= _ <-]; reflexivity|].
  unfold bind.
  destruct (for_each _ _ g) as [[[]|e|] g2] eqn:Hloop;
    apply for_each_path_divisions in Hloop;
    unfold ret; intros [= _ <-]; exact Hloop.
Qed.

(** For secondary structures the normalisation is not used, as the
    comment in [populate_upper_score_matrix] supposes: the whole population
    is the same whatever [global_frac_selected] is, and it never divides. *)
Theorem sec_struc_population_ignores_normalisation
  (prm_align_pass : bool) (other_frac_selected : float) (g : globals) :
  populate_with sec_struc_querier global_frac_selected
    global_upper_res_mask_matrix global_upper_ss_mask_matrix prm_align_pass g
  = populate_with sec_struc_querier other_frac_selected
      global_upper_res_mask_matrix global_upper_ss_mask_matrix prm_align_pass g
  /\ divisions (snd (populate_with sec_struc_querier global_frac_selected
                       global_upper_res_mask_matrix global_upper_ss_mask_matrix
                       prm_align_pass g))
     = divisions g.
Proof.
  split; [reflexivity|].
  destruct (populate_with sec_struc_querier global_frac_selected
              global_upper_res_mask_matrix global_upper_ss_mask_matrix
              prm_align_pass g) as [o g'] eqn:Hrun.
  cbn [snd]. revert Hrun. unfold populate_upper_score_matrix.
  apply fold_m_keeps_divisions. intros c ctr_b g0 o0 g0'.
  unfold populate_row. apply fold_m_keeps_divisions.
  intros c' ctr_a g1 o1 g1'. unfold populate_cell.
  cbn [temp_hacky_is_residue using_selections andb negb].
  unfold bind at 1. unfold ret at 1.
  destruct (global_upper_ss_mask_matrix _ _).
  - unfold bind.
    match goal with
    | |- context [compare_upper_cell ?q ?la ?lb ?w ?d ?i ?c ?al ?a ?b ?n g1] =>
        destruct (compare_upper_cell q la lb w d i c al a b n g1) as [[r|e|] g2] eqn:Hcell
    end;
      apply sec_struc_compare_never_divides in Hcell;
      unfold ret; intros [= _ <-]; exact Hcell.
  - unfold ret. intros [= _ <-]. reflexivity.
Qed.

End PopulateFacts.

Lemma populate_compares_only_masked_pairs_witness :
  snd (UnmaskedExample.example_populate_unmasked false UpperMatrixExample.zeroed_globals)
  = UpperMatrixExample.zeroed_globals
  /\ forall c,
       fst (UnmaskedExample.example_populate_unmasked false
              UpperMatrixExample.zeroed_globals) = Ssap.Returns c ->
       Ssap.num_actual_upper_cell_comps c = 0
       /\ Ssap.found_non_zero_cell c = false
       /\ Ssap.found_threshold_cell c = false.
Proof.
  destruct (UnmaskedExample.example_populate_unmasked false
              UpperMatrixExample.zeroed_globals) as [o g'] eqn:Hrun.
  unfold UnmaskedExample.example_populate_unmasked in Hrun.
  apply (populate_compares_only_masked_pairs EntryQuerier.residue_querier 2 2 0
           1%float 20 UpperMatrixExample.example_selections UnmaskedExample.no_mask
           UnmaskedExample.no_mask UpperMatrixExample.example_distance_score
           UpperMatrixExample.example_window_index UpperMatrixExample.example_window_bound
           UpperMatrixExample.example_window_bound UpperMatrixExample.example_check
           UpperMatrixExample.example_align false UpperMatrixExample.zeroed_globals g' o).
  - reflexivity.
  - intros _ b a. reflexivity.
  - intros _ b a. reflexivity.
  - exact Hrun.
Defined.

(** ** ssap.cpp: more on [residues_have_similar_area_angle_props] *)

Section SelfSimilarity.

Import Ssap DoubleClass.

(** A number less itself is a zero. *)
Lemma SFsub_self_number (x : float) :
  is_a_number x = true -> exists s, Prim2SF (x - x) = S754_zero s.
Proof.
  unfold is_a_number. rewrite sub_spec.
  destruct (Prim2SF x) as [s|s| |s m e]; try discriminate; intros _.
  - destruct s; simpl; eauto.
  - unfold SF64sub, SFsub. rewrite Z.sub_diag. simpl. eauto.
Qed.

(** The rounded absolute difference of a number and itself is 0. *)
Lemma rounded_angle_difference_self (x : float) :
  is_a_number x = true -> rounded_angle_difference x x = Returns 0.
Proof.
  intros Hx. destruct (SFsub_self_number x Hx) as [s Hzero].
  unfold rounded_angle_difference, difference_double.
  destruct (x <? x)%float; apply (cast_round_of_zero _ _ Hzero).
Qed.

(** A residue whose phi and psi angles are numbers is similar to itself
    exactly when twice its accessibility is below the cutoff: the buried
    difference and the angle differences vanish and the accessibilities are
    added (the first point of the todo in the source).  Under the default
    cutoff of 150 a residue of accessibility 75 or more is not similar to
    itself. *)
Theorem residue_is_similar_to_itself_when
  (cutoff : Z) (r : residue)
  (Hphi : is_a_number (phi_angle_in_degrees r) = true)
  (Hpsi : is_a_number (psi_angle_in_degrees r) = true)
  (Haccess : 0 <= get_access r) (Hfits : 2 * get_access r < SizeT.modulus) :
  residues_have_similar_area_angle_props cutoff r r
  = Returns (2 * get_access r <? cutoff).
Proof.
  unfold residues_have_similar_area_angle_props.
  rewrite cast_difference_int. cbn [lift_outcome].
  fold (rounded_angle_difference (phi_angle_in_degrees r) (phi_angle_in_degrees r)).
  fold (rounded_angle_difference (psi_angle_in_degrees r) (psi_angle_in_degrees r)).
  rewrite (rounded_angle_difference_self _ Hphi), (rounded_angle_difference_self _ Hpsi).
  cbn [lift_outcome]. rewrite Z.sub_diag. unfold SizeT.add.
  change (Z.abs 0) with 0. change (SizeT.wrap (0 + 0) / 2) with 0.
  rewrite (size_t_wrap_small (get_access r + get_access r)) by lia.
  rewrite Z.add_0_l, Z.add_0_r.
  rewrite (size_t_wrap_small (get_access r + get_access r)) by lia.
  rewrite (size_t_wrap_small (get_access r + get_access r)) by lia.
  do 2 f_equal. lia.
Qed.

(** Raising the cutoff never loses a pair: two residues that are similar
    under a cutoff are similar under every larger one, as in the re-run of
    the fast SSAP with the cutoff raised from 150 to 1000; and whether the
    predicate returns at all does not depend on the cutoff. *)
Theorem similarity_is_monotone_in_the_cutoff
  (cutoff cutoff' : Z) (ri rj : residue) (Hle : cutoff <= cutoff') :
  (residues_have_similar_area_angle_props cutoff ri rj = Returns true ->
   residues_have_similar_area_angle_props cutoff' ri rj = Returns true)
  /\ (forall verdict,
        residues_have_similar_area_angle_props cutoff ri rj = Returns verdict ->
        exists verdict',
          residues_have_similar_area_angle_props cutoff' ri rj = Returns verdict').
Proof.
  unfold residues_have_similar_area_angle_props.
  destruct (numeric_cast_int_to_size_t _) as [d|e|]; cbn [lift_outcome];
    try (split; [discriminate|intros v; discriminate]).
  destruct (numeric_cast_round_to_size_t (difference_double (phi_angle_in_degrees ri) _))
    as [dphi|e|]; cbn [lift_outcome];
    try (split; [discriminate|intros v; discriminate]).
  destruct (numeric_cast_round_to_size_t (difference_double (psi_angle_in_degrees ri) _))
    as [dpsi|e|]; cbn [lift_outcome];
    try (split; [discriminate|intros v; discriminate]).
  split.
  - intros [= H]. f_equal. apply Z.ltb_lt in H. apply Z.ltb_lt. lia.
  - intros v _. eauto.
Qed.

End SelfSimilarity.

Lemma residue_is_similar_to_itself_when_witness :
  Ssap.residues_have_similar_area_angle_props 150 ResidueExample.exposed_residue
    ResidueExample.exposed_residue
  = Ssap.Returns (2 * 80 <? 150).
Proof.
  apply (residue_is_similar_to_itself_when 150 ResidueExample.exposed_residue);
    try reflexivity; simpl; unfold SizeT.modulus; lia.
Defined.

Lemma similarity_is_monotone_in_the_cutoff_witness :
  Ssap.residues_have_similar_area_angle_props 150 ResidueExample.residue_1
    ResidueExample.residue_2 = Ssap.Returns true
  /\ Ssap.residues_have_similar_area_angle_props 1000 ResidueExample.residue_1
       ResidueExample.residue_2 = Ssap.Returns true.
Proof.
  split; [reflexivity|].
  apply (similarity_is_monotone_in_the_cutoff 150 1000 ResidueExample.residue_1
           ResidueExample.residue_2); [lia|reflexivity].
Defined.

(** ** ssap.cpp: [update_best_pair_selections] and [select_pairs] *)

Section BestPairFacts.

Import Ssap SelectPairs.

Variable selected_pair_less : selected_pair -> selected_pair -> bool.

Local Abbreviation insert := (insert_in_order selected_pair_less).
Local Abbreviation sort := (stable_sort selected_pair_less).
Local Abbreviation update := (update_best_pair_selections selected_pair_less).

Lemma insert_in_order_perm (x : selected_pair) (l : list selected_pair) :
  Permutation (insert x l) (x :: l).
Proof.
  induction l as [|y l IH]; simpl; [reflexivity|].
  destruct (selected_pair_less y x); [|reflexivity].
  rewrite IH. apply perm_swap.
Qed.

Lemma stable_sort_perm (l : list selected_pair) : Permutation (sort l) l.
Proof.
  induction l as [|x l IH]; simpl; [reflexivity|].
  rewrite insert_in_order_perm. constructor. exact IH.
Qed.

Lemma stable_sort_holds_the_pushed_pair (p : selected_pair) (l : list selected_pair) :
  exists first rest, sort (p :: l) = first :: rest /\ length rest = length l.
Proof.
  pose proof (stable_sort_perm (p :: l)) as Hperm.
  apply Permutation_length in Hperm.
  destruct (sort (p :: l)) as [|first rest]; [discriminate|].
  exists first, rest. split; [reflexivity|]. simpl in Hperm. lia.
Qed.

(** Whatever [operator<] is, [update_best_pair_selections] keeps the deque
    within the limit: a deque that is full keeps its size, and a deque that
    is not full gains exactly the new pair. *)
Theorem update_best_pair_selections_keeps_the_limit
  (l : list selected_pair) (mask : Z -> Z -> bool) (p : selected_pair) (limit : Z) :
  (limit <= Z.of_nat (length l) -> length (fst (update l mask p limit)) = length l)
  /\ (Z.of_nat (length l) < limit ->
      Permutation (fst (update l mask p limit)) (p :: l))
  /\ (Z.of_nat (length l) <= limit ->
      Z.of_nat (length (fst (update l mask p limit))) <= limit).
Proof.
  unfold update_best_pair_selections.
  destruct (stable_sort_holds_the_pushed_pair p l) as [first [rest [Hsort Hlen]]].
  destruct (Z.leb_spec limit (Z.of_nat (length l))) as [Hfull|Hroom]; cbn [negb orb].
  - split; [|split]; intros H; try lia.
    + destruct (match l with [] => false | _ => _ end); cbn [fst]; [|reflexivity].
      rewrite Hsort. exact Hlen.
    + destruct (match l with [] => false | _ => _ end); cbn [fst]; [|lia].
      rewrite Hsort. cbn [fst]. lia.
  - cbn [fst]. split; [|split]; intros H; try lia.
    + apply stable_sort_perm.
    + pose proof (Permutation_length (stable_sort_perm (p :: l))) as Hp.
      rewrite Hp. simpl length. lia.
Qed.

Section ByScore.

(** [operator<] orders the pairs by score, possibly breaking ties. *)
Hypothesis less_when_score_below :
  forall x y, get_score x < get_score y -> selected_pair_less x y = true.
Hypothesis less_only_when_score_not_above :
  forall x y, selected_pair_less x y = true -> get_score x <= get_score y.

Lemma insert_in_order_ascending (x : selected_pair) (l : list selected_pair) :
  ascending_by_score l -> ascending_by_score (insert x l).
Proof.
  unfold ascending_by_score. intros Hl. induction Hl as [|y l Hl IH Hy]; simpl.
  - repeat constructor.
  - destruct (selected_pair_less y x) eqn:E.
    + constructor; [exact IH|].
      apply Forall_forall. intros z Hz.
      apply (Permutation_in _ (insert_in_order_perm x l)) in Hz.
      destruct Hz as [<-|Hz].
      * apply less_only_when_score_not_above. exact E.
      * rewrite Forall_forall in Hy. apply Hy. exact Hz.
    + assert (Hxy : get_score x <= get_score y).
      { destruct (Z.le_gt_cases (get_score x) (get_score y)) as [H|H]; [exact H|].
        apply less_when_score_below in H. congruence. }
      constructor; [constructor; assumption|].
      constructor; [exact Hxy|].
      rewrite Forall_forall in *. intros z Hz. specialize (Hy z Hz). lia.
Qed.

Lemma stable_sort_ascending (l : list selected_pair) : ascending_by_score (sort l).
Proof.
  induction l as [|x l IH]; simpl; [constructor|].
  apply insert_in_order_ascending. exact IH.
Qed.

Lemma ascending_head_least (x : selected_pair) (l : list selected_pair) :
  ascending_by_score (x :: l) -> forall y, In y (x :: l) -> get_score x <= get_score y.
Proof.
  intros H y [<-|Hy]; [lia|].
  apply StronglySorted_inv in H as [_ H]. rewrite Forall_forall in H. auto.
Qed.

(** The step of the selection: ascending order and the best pairs seen
    are kept by one update of the deque. *)
Lemma update_step_ascending_best
  (limit : Z) (seen l : list selected_pair) (mask : Z -> Z -> bool) (p : selected_pair)
  (Hascending : ascending_by_score l) (Hbest : best_of limit seen l) :
  ascending_by_score (fst (update l mask p limit))
  /\ best_of limit (p :: seen) (fst (update l mask p limit)).
Proof.
  destruct Hbest as [dropped [Hperm [Hdropped [Hlen Hfull]]]].
  unfold update_best_pair_selections.
  destruct (Z.leb_spec limit (Z.of_nat (length l))) as [Hle|Hroom]; cbn [negb orb].
  - destruct l as [|f l'].
    + cbn [fst]. split; [exact Hascending|].
      exists (p :: dropped). split; [|split; [|split]].
      * simpl. constructor. exact Hperm.
      * intros d k _ [].
      * exact Hlen.
      * right. simpl in *. lia.
    + destruct (Z.ltb_spec (get_score f) (get_score p)) as [Hbeats|Hnot].
      * pose proof (stable_sort_ascending (p :: f :: l')) as Hsorted.
        pose proof (stable_sort_perm (p :: f :: l')) as Hsperm.
        destruct (sort (p :: f :: l')) as [|e rest] eqn:Hsort;
          [apply Permutation_length in Hsperm; discriminate|].
        cbn [fst].
        assert (He : In e (f :: l')).
        { assert (Hin : In e (p :: f :: l'))
            by (apply (Permutation_in _ Hsperm); left; reflexivity).
          destruct Hin as [<-|Hin]; [|exact Hin]. exfalso.
          assert (Hf : In f (p :: rest))
            by (apply (Permutation_in _ (Permutation_sym Hsperm)); right; left;
                reflexivity).
          pose proof (ascending_head_least _ _ Hsorted f Hf). lia. }
        split; [apply StronglySorted_inv in Hsorted; tauto|].
        exists (e :: dropped). split; [|split; [|split]].
        -- rewrite <- Permutation_middle.
           change (e :: rest ++ dropped) with ((e :: rest) ++ dropped).
           rewrite Hsperm. simpl. constructor. exact Hperm.
        -- intros d k [<-|Hd] Hk.
           ++ apply (ascending_head_least _ _ Hsorted). right. exact Hk.
           ++ assert (Hk' : In k (p :: f :: l'))
                by (apply (Permutation_in _ Hsperm); right; exact Hk).
              destruct Hk' as [<-|Hk'].
              ** specialize (Hdropped d f Hd (or_introl eq_refl)). lia.
              ** apply Hdropped; assumption.
        -- apply Permutation_length in Hsperm. simpl in *. lia.
        -- right. apply Permutation_length in Hsperm. simpl in *. lia.
      * cbn [fst]. split; [exact Hascending|].
        exists (p :: dropped). split; [|split; [|split]].
        -- rewrite <- Permutation_middle. constructor. exact Hperm.
        -- intros d k [<-|Hd] Hk.
           ++ pose proof (ascending_head_least _ _ Hascending k Hk). lia.
           ++ apply Hdropped; assumption.
        -- exact Hlen.
        -- right. lia.
  - cbn [fst]. split; [apply stable_sort_ascending|].
    assert (Hnone : dropped = []) by (destruct Hfull as [H|H]; [exact H|lia]).
    subst dropped. exists []. rewrite app_nil_r in *. split; [|split; [|split]].
    + rewrite stable_sort_perm. constructor. exact Hperm.
    + intros d k [].
    + pose proof (Permutation_length (stable_sort_perm (p :: l))) as Hp.
      rewrite Hp. simpl length. lia.
    + left. reflexivity.
Qed.

(** One call of [update_best_pair_selections] on a deque in ascending
    order of score that holds the best-scoring pairs seen so far leaves a
    deque in ascending order that holds the best-scoring pairs of those and
    the new pair: a pair enters a full deque only by scoring above its
    lowest-scoring pair, which then leaves. *)
Theorem update_best_pair_selections_keeps_the_best
  (limit : Z) (seen l : list selected_pair) (mask : Z -> Z -> bool) (p : selected_pair)
  (Hascending : ascending_by_score l) (Hbest : best_of limit seen l) :
  ascending_by_score (fst (update l mask p limit))
  /\ best_of limit (p :: seen) (fst (update l mask p limit)).
Proof.
  exact (update_step_ascending_best limit seen l mask p Hascending Hbest).
Qed.

End ByScore.

End BestPairFacts.

Section FoldOutcomeFacts.

Import Ssap.

(** A loop that returns has kept every invariant that its passes keep;
    the invariant may speak of the elements processed so far, latest
    first. *)
Lemma fold_outcome_invariant {A S : Type} (f : S -> A -> outcome S)
  (Q : list A -> S -> Prop) :
  (forall done s x s', Q done s -> f s x = Returns s' -> Q (x :: done) s') ->
  forall l done s s',
    Q done s -> fold_outcome l f s = Returns s' -> Q (rev l ++ done) s'.
Proof.
  intros Hf. induction l as [|x l IH]; intros done s s' HQ; simpl.
  - intros [= <-]. exact HQ.
  - destruct (f s x) as [s1|e|] eqn:Hx; simpl; try discriminate.
    intros Hrest. rewrite <- app_assoc. simpl.
    apply (IH (x :: done) s1 s'); [|exact Hrest].
    apply (Hf done s x s1 HQ Hx).
Qed.

Lemma list_set_middle {A : Type} (l1 l2 : list A) (x v : A) :
  list_set (l1 ++ x :: l2) (length l1) v = l1 ++ v :: l2.
Proof.
  induction l1 as [|y l1 IH]; simpl; [reflexivity|]. rewrite IH. reflexivity.
Qed.

End FoldOutcomeFacts.

Section SelectPairsFacts.

Import Ssap SelectPairs.

Variable selected_pair_less : selected_pair -> selected_pair -> bool.
Variable length_a length_b : Z.
Variable global_window : Z.
Variable global_align_pass : bool.
Variable temp_hacky_is_residue : bool.
Variable are_similar__offset_1 : Z -> Z -> outcome bool.
Variable global_upper_score_matrix_get : Z -> Z -> Z.
Variable get_window_matrix_a_index__offset_1 : Z -> Z -> Z -> Z -> Z -> Z.
Variable get_window_start_a_for_b__offset_1 : Z -> Z -> Z -> Z -> Z.
Variable get_window_stop_a_for_b__offset_1 : Z -> Z -> Z -> Z -> Z.

Local Abbreviation cell_step :=
  (select_cell selected_pair_less length_a length_b global_window
     are_similar__offset_1 global_upper_score_matrix_get
     get_window_matrix_a_index__offset_1).
Local Abbreviation row_step :=
  (select_row selected_pair_less length_a length_b global_window
     are_similar__offset_1 global_upper_score_matrix_get
     get_window_matrix_a_index__offset_1 get_window_start_a_for_b__offset_1
     get_window_stop_a_for_b__offset_1).
Local Abbreviation over_window :=
  (select_over_window selected_pair_less length_a length_b global_window
     are_similar__offset_1 global_upper_score_matrix_get
     get_window_matrix_a_index__offset_1 get_window_start_a_for_b__offset_1
     get_window_stop_a_for_b__offset_1).
Local Abbreviation run_select_pairs :=
  (select_pairs selected_pair_less length_a length_b global_window
     global_align_pass temp_hacky_is_residue
     are_similar__offset_1 global_upper_score_matrix_get
     get_window_matrix_a_index__offset_1 get_window_start_a_for_b__offset_1
     get_window_stop_a_for_b__offset_1).
Local Abbreviation row_cells :=
  (window_row_cells length_a length_b global_window
     get_window_start_a_for_b__offset_1 get_window_stop_a_for_b__offset_1).
Local Abbreviation cells :=
  (window_cells length_a length_b global_window
     get_window_start_a_for_b__offset_1 get_window_stop_a_for_b__offset_1).
Local Abbreviation pair_of :=
  (pair_of_cell length_a length_b global_window global_upper_score_matrix_get
     get_window_matrix_a_index__offset_1).

(** The two loops keep every invariant of the cells visited so far (in
    any order) that the loop body keeps. *)
Lemma select_over_window_invariant
  (prm_pass : Z) (P : list (Z * Z) -> selection_state -> Prop) :
  (forall visited visited' st, Permutation visited visited' -> P visited st -> P visited' st) ->
  (forall visited st ctr_a ctr_b st',
      P visited st ->
      cell_step prm_pass (SizeT.add ctr_b 1) st ctr_a = Returns st' ->
      P ((SizeT.add ctr_a 1, SizeT.add ctr_b 1) :: visited) st') ->
  forall g st,
    P [] (mk_selection_state (global_lower_mask_matrix g) (global_upper_ss_mask_matrix g)
                             [] 0 0) ->
    over_window prm_pass g = Returns st ->
    P cells st.
Proof.
  intros Hperm Hcell g st Hinit Hrun.
  unfold select_over_window in Hrun.
  apply (fold_outcome_invariant _
           (fun done_b s => P (flat_map (fun b => rev (row_cells b)) done_b) s)
           ) with (done := []) in Hrun.
  - rewrite app_nil_r in Hrun. revert Hrun. apply Hperm.
    unfold window_cells.
    generalize (rev (irange 0 length_b)). intros l.
    induction l as [|b l IH]; simpl; [reflexivity|].
    rewrite flat_map_app. simpl. rewrite app_nil_r.
    rewrite Permutation_app_comm. apply Permutation_app; [|exact IH].
    symmetry. apply Permutation_rev.
  - intros done_b s b s' HP Hrow. unfold select_row in Hrow.
    apply (fold_outcome_invariant _
             (fun done_a s0 =>
                P (map (fun ctr_a => (SizeT.add ctr_a 1, SizeT.add b 1)) done_a
                   ++ flat_map (fun b => rev (row_cells b)) done_b) s0))
      with (done := []) in Hrow.
    + rewrite app_nil_r in Hrow. simpl. unfold window_row_cells.
      rewrite <- map_rev. exact Hrow.
    + intros done_a s0 ctr_a s1 HP0 Hstep. simpl.
      apply (Hcell _ s0 ctr_a b s1 HP0 Hstep).
    + exact HP.
  - exact Hinit.
Qed.

Lemma mask_set_same (mask : Z -> Z -> bool) (row col : Z) (v : bool) :
  mask_set mask row col v row col = v.
Proof.
  unfold mask_set. rewrite !Z.eqb_refl. reflexivity.
Qed.

Lemma mask_set_other (mask : Z -> Z -> bool) (row col r c : Z) (v : bool) :
  (c, r) <> (col, row) -> mask_set mask row col v r c = mask r c.
Proof.
  intros Hne. unfold mask_set.
  destruct (Z.eqb_spec r row) as [->|]; [|reflexivity].
  destruct (Z.eqb_spec c col) as [->|]; [congruence|reflexivity].
Qed.

Lemma cell_eq_dec (x y : Z * Z) : {x = y} + {x <> y}.
Proof.
  decide equality; apply Z.eq_dec.
Qed.

(** On a first pass, a call of [select_pairs] that returns has set
    [global_lower_mask_matrix] and [global_upper_ss_mask_matrix], at every
    cell of the window, to what [are_similar__offset_1] returned for that
    pair, and has left every other cell of the two masks as it was; unless
    it is an alignment pass of residues, the selections and the selected
    fraction are untouched. *)
Theorem first_pass_masks_hold_similarity
  (g g' : selection_globals) (Hrun : run_select_pairs 1 g = Returns g') :
  (forall a b, In (a, b) cells ->
     are_similar__offset_1 a b = Returns (global_lower_mask_matrix g' b a)
     /\ global_upper_ss_mask_matrix g' b a = global_lower_mask_matrix g' b a)
  /\ (forall a b, ~ In (a, b) cells ->
        global_lower_mask_matrix g' b a = global_lower_mask_matrix g b a
        /\ global_upper_ss_mask_matrix g' b a = global_upper_ss_mask_matrix g b a)
  /\ (global_align_pass && temp_hacky_is_residue = false ->
      global_selections g' = global_selections g
      /\ global_num_selections g' = global_num_selections g
      /\ global_frac_selected g' = global_frac_selected g).
Proof.
  unfold select_pairs in Hrun.
  destruct (over_window 1 g) as [st|e|] eqn:Hloop; cbn [lift_outcome] in Hrun;
    try discriminate.
  assert (Hinv :
    (forall a b, In (a, b) cells ->
       are_similar__offset_1 a b = Returns (lower_mask st b a)
       /\ upper_ss_mask st b a = lower_mask st b a)
    /\ (forall a b, ~ In (a, b) cells ->
          lower_mask st b a = global_lower_mask_matrix g b a
          /\ upper_ss_mask st b a = global_upper_ss_mask_matrix g b a)).
  { apply (select_over_window_invariant 1
             (fun visited s =>
                (forall a b, In (a, b) visited ->
                   are_similar__offset_1 a b = Returns (lower_mask s b a)
                   /\ upper_ss_mask s b a = lower_mask s b a)
                /\ (forall a b, ~ In (a, b) visited ->
                      lower_mask s b a = global_lower_mask_matrix g b a
                      /\ upper_ss_mask s b a = global_upper_ss_mask_matrix g b a)))
      with (g := g); [| | |exact Hloop].
    - intros visited visited' s Hperm [Hin Hout]. split.
      + intros a b Hab. apply Hin. apply (Permutation_in _ (Permutation_sym Hperm) Hab).
      + intros a b Hab. apply Hout. intros H. apply Hab.
        apply (Permutation_in _ Hperm H).
    - intros visited s ctr_a ctr_b s' [Hin Hout] Hstep.
      unfold select_cell in Hstep. cbn [Z.eqb Pos.eqb] in Hstep.
      destruct (are_similar__offset_1 (SizeT.add ctr_a 1) (SizeT.add ctr_b 1))
        as [similar|e|] eqn:Hsim; cbn [lift_outcome] in Hstep; try discriminate.
      assert (Hs' : lower_mask s'
                    = mask_set (lower_mask s) (SizeT.add ctr_b 1) (SizeT.add ctr_a 1) similar
                    /\ upper_ss_mask s'
                       = mask_set (upper_ss_mask s) (SizeT.add ctr_b 1) (SizeT.add ctr_a 1)
                                  similar).
      { destruct similar; injection Hstep as <-; split; reflexivity. }
      destruct Hs' as [Hl Hu]. rewrite Hl, Hu. split.
      + intros a b Hab.
        destruct (cell_eq_dec (a, b) (SizeT.add ctr_a 1, SizeT.add ctr_b 1)) as [E|E].
        * injection E as -> ->. rewrite !mask_set_same. auto.
        * rewrite !mask_set_other by exact E.
          apply Hin. destruct Hab as [Hab|Hab]; [congruence|exact Hab].
      + intros a b Hab.
        rewrite !mask_set_other by (intros E; apply Hab; left; congruence).
        apply Hout. intros H. apply Hab. right. exact H.
    - split; [intros a b []|]. intros a b _. split; reflexivity. }
  destruct Hinv as [Hin Hout].
  destruct (global_align_pass && temp_hacky_is_residue) eqn:Hflag.
  - destruct (fold_outcome _ _ _) as [selections|e|]; cbn [lift_outcome] in Hrun;
      try discriminate.
    injection Hrun as <-. cbn [global_lower_mask_matrix global_upper_ss_mask_matrix].
    split; [exact Hin|]. split; [exact Hout|]. discriminate.
  - cbn [lift_outcome] in Hrun. injection Hrun as <-.
    cbn [global_lower_mask_matrix global_upper_ss_mask_matrix global_selections
         global_num_selections global_frac_selected fst snd].
    split; [exact Hin|]. split; [exact Hout|]. intros _. auto.
Qed.

Section LaterPass.

Hypothesis less_when_score_below :
  forall x y, get_score x < get_score y -> selected_pair_less x y = true.
Hypothesis less_only_when_score_not_above :
  forall x y, selected_pair_less x y = true -> get_score x <= get_score y.

Local Abbreviation cell_of_pair := (fun p : selected_pair => (get_index_a p, get_index_b p)).

Lemma later_cell_step (prm_pass ctr_b : Z) (st st' : selection_state) (ctr_a : Z) :
  (prm_pass =? 1) = false ->
  cell_step prm_pass (SizeT.add ctr_b 1) st ctr_a = Returns st' ->
  let p := pair_of (SizeT.add ctr_a 1, SizeT.add ctr_b 1) in
  selected_pairs st'
  = fst (update_best_pair_selections selected_pair_less (selected_pairs st)
           (lower_mask st) p NUM_SELECTIONS_TO_SAVE)
  /\ lower_mask st'
     = snd (update_best_pair_selections selected_pair_less (selected_pairs st)
              (lower_mask st) p NUM_SELECTIONS_TO_SAVE)
  /\ upper_ss_mask st' = upper_ss_mask st
  /\ num_entries_selected st' = num_entries_selected st
  /\ total_num_entries_considered st' = SizeT.add (total_num_entries_considered st) 1.
Proof.
  intros Hpass Hstep. unfold select_cell in Hstep. rewrite Hpass in Hstep.
  unfold numeric_cast_int_to_size_t in Hstep.
  destruct (_ <? 0); cbn [lift_outcome] in Hstep; [discriminate|].
  injection Hstep as <-. unfold pair_of_cell. cbn [fst snd]. auto.
Qed.

(** What the two loops keep on a later pass. *)
Lemma later_pass_loop_facts
  (prm_pass : Z) (g : selection_globals) (st : selection_state)
  (Hpass : (prm_pass =? 1) = false)
  (Hloop : over_window prm_pass g = Returns st) :
  ascending_by_score (selected_pairs st)
  /\ best_of NUM_SELECTIONS_TO_SAVE (map pair_of cells) (selected_pairs st)
  /\ total_num_entries_considered st = SizeT.wrap (Z.of_nat (length cells))
  /\ upper_ss_mask st = global_upper_ss_mask_matrix g.
Proof.
  apply (select_over_window_invariant prm_pass
           (fun visited s =>
              ascending_by_score (selected_pairs s)
              /\ best_of NUM_SELECTIONS_TO_SAVE (map pair_of visited) (selected_pairs s)
              /\ total_num_entries_considered s = SizeT.wrap (Z.of_nat (length visited))
              /\ upper_ss_mask s = global_upper_ss_mask_matrix g))
    with (g := g); [| | |exact Hloop].
  - intros visited visited' s Hperm [Hasc [[dropped [Hp Hrest]] [Htotal Hss]]].
    split; [exact Hasc|]. split; [|split; [|exact Hss]].
    + exists dropped. split; [|exact Hrest].
      rewrite Hp. apply Permutation_map. exact Hperm.
    + rewrite Htotal. rewrite (Permutation_length Hperm). reflexivity.
  - intros visited s ctr_a ctr_b s' [Hasc [Hbest [Htotal Hss]]] Hstep.
    apply (later_cell_step prm_pass ctr_b s s' ctr_a Hpass) in Hstep.
    cbv zeta in Hstep. destruct Hstep as [Hpairs [_ [Hss' [_ Htotal']]]].
    destruct (update_step_ascending_best selected_pair_less
                less_when_score_below less_only_when_score_not_above
                NUM_SELECTIONS_TO_SAVE (map pair_of visited) (selected_pairs s)
                (lower_mask s) (pair_of (SizeT.add ctr_a 1, SizeT.add ctr_b 1))
                Hasc Hbest) as [Hasc' Hbest'].
    rewrite <- Hpairs in Hasc', Hbest'.
    split; [exact Hasc'|]. split; [exact Hbest'|]. split; [|congruence].
    rewrite Htotal', Htotal. unfold SizeT.add, SizeT.wrap.
    rewrite Z.add_mod_idemp_l by (unfold SizeT.modulus; lia).
    f_equal. simpl length. lia.
  - cbn [selected_pairs total_num_entries_considered upper_ss_mask].
    split; [constructor|]. split; [|split; reflexivity].
    exists []. simpl. split; [reflexivity|]. split; [intros d k []|].
    split; [unfold NUM_SELECTIONS_TO_SAVE; lia|left; reflexivity].
Qed.

(** On a later pass, when the loops of [select_pairs] return, the pairs
    they hold are in ascending order of score and are the best-scoring
    pairs of the window's cells, [NUM_SELECTIONS_TO_SAVE] = 20 of them or
    all when the window has fewer cells; the number of cells considered is
    the number of cells of the window; and [global_upper_ss_mask_matrix] is
    untouched. *)
Theorem later_pass_selects_the_best_pairs
  (prm_pass : Z) (g : selection_globals) (st : selection_state)
  (Hpass : (prm_pass =? 1) = false)
  (Hloop : over_window prm_pass g = Returns st) :
  ascending_by_score (selected_pairs st)
  /\ best_of NUM_SELECTIONS_TO_SAVE (map pair_of cells) (selected_pairs st)
  /\ total_num_entries_considered st = SizeT.wrap (Z.of_nat (length cells))
  /\ upper_ss_mask st = global_upper_ss_mask_matrix g.
Proof.
  exact (later_pass_loop_facts prm_pass g st Hpass Hloop).
Qed.

Lemma firstn_succ_nth_error {A : Type} (l : list A) (k : nat) (x : A) :
  nth_error l k = Some x -> firstn (S k) l = firstn k l ++ [x].
Proof.
  revert k. induction l as [|y l IH]; intros [|k]; try discriminate.
  - intros [= ->]. reflexivity.
  - intros H. change (y :: firstn (S k) l = y :: (firstn k l ++ [x])).
    f_equal. apply IH. exact H.
Qed.

(** The loop that copies the selected pairs fills the last places of
    [global_selections], in order, and stays inside the vector. *)
Lemma copy_selections_layout (pairs : list selected_pair) :
  Z.of_nat (length pairs) <= NUM_SELECTIONS_TO_SAVE ->
  fold_outcome (seq 0 (length pairs)) (copy_selection pairs)
    (repeat (0, 0) (Z.to_nat (NUM_SELECTIONS_TO_SAVE + 1)))
  = Returns (repeat (0, 0) (Z.to_nat (NUM_SELECTIONS_TO_SAVE + 1) - length pairs)
             ++ map cell_of_pair pairs).
Proof.
  intros Hlen. unfold NUM_SELECTIONS_TO_SAVE in *.
  set (n := length pairs) in *.
  set (pre := repeat (0, 0) (Z.to_nat (20 + 1) - n)).
  assert (Hgen : forall m k, (k + m = n)%nat ->
            fold_outcome (seq k m) (copy_selection pairs)
              (pre ++ map cell_of_pair (firstn k pairs) ++ repeat (0, 0) m)
            = Returns (pre ++ map cell_of_pair pairs)).
  { induction m as [|m IH]; intros k Hk.
    - simpl. rewrite app_nil_r. replace k with n by lia.
      unfold n. rewrite firstn_all. reflexivity.
    - cbn [seq fold_outcome]. unfold copy_selection at 1.
      unfold NUM_SELECTIONS_TO_SAVE. fold n.
      destruct (nth_error pairs k) as [p|] eqn:Hp.
      2:{ apply nth_error_None in Hp. fold n in Hp. lia. }
      assert (Hindex : SizeT.sub (SizeT.add 20 1) (SizeT.sub (Z.of_nat n) (Z.of_nat k))
                       = Z.of_nat (length (pre ++ map cell_of_pair (firstn k pairs)))).
      { rewrite length_app, length_map, length_firstn. unfold pre. rewrite repeat_length.
        fold n. unfold SizeT.sub, SizeT.add.
        rewrite (size_t_wrap_small (20 + 1)) by (unfold SizeT.modulus; lia).
        rewrite (size_t_wrap_small (Z.of_nat n - Z.of_nat k))
          by (unfold SizeT.modulus; lia).
        rewrite size_t_wrap_small by (unfold SizeT.modulus; lia).
        lia. }
      rewrite Hindex.
      assert (Hinside : (Z.of_nat (length (pre ++ map cell_of_pair (firstn k pairs)))
                         <? Z.of_nat (length (pre ++ map cell_of_pair (firstn k pairs)
                                              ++ repeat (0, 0) (S m)))) = true).
      { apply Z.ltb_lt. rewrite !length_app, repeat_length. lia. }
      rewrite Hinside. rewrite Nat2Z.id. cbn [lift_outcome].
      rewrite app_assoc. cbn [repeat]. rewrite list_set_middle.
      rewrite <- (IH (S k)) by lia.
      rewrite (firstn_succ_nth_error pairs k p Hp), map_app.
      rewrite <- !app_assoc. reflexivity. }
  specialize (Hgen n 0%nat ltac:(lia)). simpl firstn in Hgen. simpl map in Hgen.
  cbn [app] in Hgen.
  replace (repeat (0, 0) (Z.to_nat (20 + 1))) with (pre ++ repeat (0, 0) n).
  - exact Hgen.
  - unfold pre. rewrite <- repeat_app. f_equal. lia.
Qed.

(** On an alignment pass of residues after the first pass, a call of
    [select_pairs] whose loops return, returns: [global_selections] then
    has [NUM_SELECTIONS_TO_SAVE + 1] = 21 places, the selected pairs in the
    last of them, in ascending order of score, and (0, 0) in the places
    before; [global_num_selections] is 20, however many pairs were
    selected; and the selected fraction is 20 over the number of cells
    considered. *)
Theorem align_pass_publishes_the_selected_pairs
  (prm_pass : Z) (g : selection_globals) (st : selection_state)
  (Hpass : 1 < prm_pass)
  (Halign : global_align_pass && temp_hacky_is_residue = true)
  (Hloop : over_window prm_pass g = Returns st) :
  run_select_pairs prm_pass g
  = Returns (mk_selection_globals (lower_mask st) (upper_ss_mask st)
               (repeat (0, 0) (21 - length (selected_pairs st))
                ++ map cell_of_pair (selected_pairs st))
               20
               (Double.of_Z 20 / Double.of_Z (total_num_entries_considered st))%float)
  /\ (length (selected_pairs st) <= 20)%nat.
Proof.
  assert (Hne : (prm_pass =? 1) = false) by (apply Z.eqb_neq; lia).
  destruct (later_pass_loop_facts prm_pass g st Hne Hloop)
    as [_ [[dropped [_ [_ [Hlen _]]]] _]].
  unfold NUM_SELECTIONS_TO_SAVE in Hlen.
  split; [|lia].
  unfold select_pairs. rewrite Hloop, Halign. cbn [lift_outcome].
  rewrite copy_selections_layout by (unfold NUM_SELECTIONS_TO_SAVE; lia).
  cbn [lift_outcome fst snd].
  destruct (Z.ltb_spec 1 prm_pass); [|lia]. reflexivity.
Qed.

(** The three ways a call of [update_best_pair_selections] goes. *)
Lemma update_best_pair_selections_cases
  (l : list selected_pair) (mask : Z -> Z -> bool) (p : selected_pair) (limit : Z) :
  let updated := update_best_pair_selections selected_pair_less l mask p limit in
  let cleared := mask_set mask (get_index_b p) (get_index_a p) false in
  (fst updated = l /\ snd updated = cleared)
  \/ (Permutation (fst updated) (p :: l)
      /\ snd updated = mask_set cleared (get_index_b p) (get_index_a p) true)
  \/ (exists e, Permutation (e :: fst updated) (p :: l)
                /\ In e l /\ get_score e < get_score p
                /\ snd updated
                   = mask_set (mask_set cleared (get_index_b e) (get_index_a e) false)
                              (get_index_b p) (get_index_a p) true).
Proof.
  cbv zeta. unfold update_best_pair_selections.
  destruct (Z.leb_spec limit (Z.of_nat (length l))) as [Hfull|Hroom]; cbn [negb orb].
  - destruct l as [|f l']; [left; split; reflexivity|].
    destruct (Z.ltb_spec (get_score f) (get_score p)) as [Hbeats|Hnot];
      [|left; split; reflexivity].
    right. right.
    pose proof (stable_sort_ascending selected_pair_less less_when_score_below
                  less_only_when_score_not_above (p :: f :: l')) as Hsorted.
    pose proof (stable_sort_perm selected_pair_less (p :: f :: l')) as Hsperm.
    destruct (stable_sort selected_pair_less (p :: f :: l')) as [|e rest] eqn:Hsort;
      [apply Permutation_length in Hsperm; discriminate|].
    cbn [fst snd]. exists e.
    assert (Hf : In f (e :: rest))
      by (apply (Permutation_in _ (Permutation_sym Hsperm)); right; left; reflexivity).
    pose proof (ascending_head_least _ _ Hsorted f Hf) as Hef.
    split; [exact Hsperm|]. split; [|split; [lia|reflexivity]].
    assert (Hin : In e (p :: f :: l'))
      by (apply (Permutation_in _ Hsperm); left; reflexivity).
    destruct Hin as [<-|Hin]; [lia|exact Hin].
  - right. left. cbn [fst snd]. split; [|reflexivity].
    apply stable_sort_perm.
Qed.

(** On a later pass over a window whose cells are distinct, when the
    loops of [select_pairs] return, [global_lower_mask_matrix] is true at a
    cell of the window exactly when the pair of that cell is among the
    selected pairs, and is as it was at every cell outside the window. *)
Theorem later_pass_mask_marks_the_selected_pairs
  (prm_pass : Z) (g : selection_globals) (st : selection_state)
  (Hpass : (prm_pass =? 1) = false)
  (Hdistinct : NoDup cells)
  (Hloop : over_window prm_pass g = Returns st) :
  (forall a b, In (a, b) cells ->
     (lower_mask st b a = true <-> In (a, b) (map cell_of_pair (selected_pairs st))))
  /\ (forall a b, ~ In (a, b) cells ->
        lower_mask st b a = global_lower_mask_matrix g b a).
Proof.
  assert (Hinv : NoDup cells ->
    (forall a b, In (a, b) cells ->
       (lower_mask st b a = true <-> In (a, b) (map cell_of_pair (selected_pairs st))))
    /\ (forall a b, ~ In (a, b) cells ->
          lower_mask st b a = global_lower_mask_matrix g b a)
    /\ incl (map cell_of_pair (selected_pairs st)) cells
    /\ NoDup (map cell_of_pair (selected_pairs st))).
  { apply (select_over_window_invariant prm_pass
             (fun visited s =>
                NoDup visited ->
                (forall a b, In (a, b) visited ->
                   (lower_mask s b a = true
                    <-> In (a, b) (map cell_of_pair (selected_pairs s))))
                /\ (forall a b, ~ In (a, b) visited ->
                      lower_mask s b a = global_lower_mask_matrix g b a)
                /\ incl (map cell_of_pair (selected_pairs s)) visited
                /\ NoDup (map cell_of_pair (selected_pairs s))))
      with (g := g); [| | |exact Hloop].
    - intros visited visited' s Hperm HP Hnd.
      destruct (HP (Permutation_NoDup (Permutation_sym Hperm) Hnd))
        as [Hin [Hout [Hincl Hnd']]].
      split; [|split; [|split; [|exact Hnd']]].
      + intros a b Hab. apply Hin.
        apply (Permutation_in _ (Permutation_sym Hperm) Hab).
      + intros a b Hab. apply Hout. intros H. apply Hab.
        apply (Permutation_in _ Hperm H).
      + intros c Hc. apply (Permutation_in _ Hperm). apply Hincl. exact Hc.
    - intros visited s ctr_a ctr_b s' HP Hstep Hnd.
      apply NoDup_cons_iff in Hnd as [Hnew Hnd].
      destruct (HP Hnd) as [Hin [Hout [Hincl Hnd']]].
      apply (later_cell_step prm_pass ctr_b s s' ctr_a Hpass) in Hstep.
      cbv zeta in Hstep. destruct Hstep as [Hpairs [Hmask _]].
      set (c := (SizeT.add ctr_a 1, SizeT.add ctr_b 1)) in *.
      set (p := pair_of c) in *.
      assert (Hcell : cell_of_pair p = c) by reflexivity.
      assert (Hfresh : ~ In c (map cell_of_pair (selected_pairs s))).
      { intros H. apply Hnew. apply Hincl. exact H. }
      rewrite Hpairs, Hmask.
      destruct (update_best_pair_selections_cases (selected_pairs s) (lower_mask s) p
                  NUM_SELECTIONS_TO_SAVE) as [[-> ->]|[[Hperm ->]|[e [Hperm [He [Hlt ->]]]]]].
      + split; [|split; [|split; [|exact Hnd']]].
        * intros a b Hab.
          destruct (cell_eq_dec (a, b) c) as [E|E].
          -- unfold c in E. injection E as -> ->. fold c.
             change (get_index_b p) with (SizeT.add ctr_b 1).
             change (get_index_a p) with (SizeT.add ctr_a 1).
             rewrite mask_set_same. split; [discriminate|]. intros H. contradiction.
          -- rewrite mask_set_other by exact E.
             apply Hin. destruct Hab as [Hab|Hab]; [congruence|exact Hab].
        * intros a b Hab. rewrite mask_set_other
            by (intros E; apply Hab; left; symmetry; exact E).
          apply Hout. intros H. apply Hab. right. exact H.
        * intros x Hx. right. apply Hincl. exact Hx.
      + assert (Hcells : Permutation
                           (map cell_of_pair
                              (fst (update_best_pair_selections selected_pair_less
                                      (selected_pairs s) (lower_mask s) p
                                      NUM_SELECTIONS_TO_SAVE)))
                           (c :: map cell_of_pair (selected_pairs s))).
        { rewrite Hperm. reflexivity. }
        split; [|split; [|split]].
        * intros a b Hab.
          destruct (cell_eq_dec (a, b) c) as [E|E].
          -- unfold c in E. injection E as -> ->. fold c.
             change (get_index_b p) with (SizeT.add ctr_b 1).
             change (get_index_a p) with (SizeT.add ctr_a 1).
             rewrite mask_set_same. split; [intros _|reflexivity].
             apply (Permutation_in _ (Permutation_sym Hcells)). left. reflexivity.
          -- rewrite !mask_set_other by exact E.
             destruct Hab as [Hab|Hab]; [congruence|].
             rewrite (Hin a b Hab). split; intros H.
             ++ apply (Permutation_in _ (Permutation_sym Hcells)). right. exact H.
             ++ apply (Permutation_in _ Hcells) in H.
                destruct H as [H|H]; [congruence|exact H].
        * intros a b Hab. rewrite !mask_set_other
            by (intros E; apply Hab; left; symmetry; exact E).
          apply Hout. intros H. apply Hab. right. exact H.
        * intros x Hx. apply (Permutation_in _ Hcells) in Hx.
          destruct Hx as [<-|Hx]; [left; reflexivity|right; apply Hincl; exact Hx].
        * apply (Permutation_NoDup (Permutation_sym Hcells)).
          constructor; assumption.
      + set (l' := fst (update_best_pair_selections selected_pair_less
                          (selected_pairs s) (lower_mask s) p NUM_SELECTIONS_TO_SAVE))
          in *.
        assert (Hcells : Permutation (cell_of_pair e :: map cell_of_pair l')
                                     (c :: map cell_of_pair (selected_pairs s))).
        { apply (Permutation_map cell_of_pair) in Hperm. exact Hperm. }
        assert (Hnd2 : NoDup (cell_of_pair e :: map cell_of_pair l')).
        { apply (Permutation_NoDup (Permutation_sym Hcells)). constructor; assumption. }
        apply NoDup_cons_iff in Hnd2 as [He' Hnd2].
        assert (Hec : cell_of_pair e <> c).
        { intros E. apply Hfresh. rewrite <- E.
          exact (in_map (fun q => (get_index_a q, get_index_b q)) _ _ He). }
        assert (Hevis : In (cell_of_pair e) visited).
        { apply Hincl. exact (in_map (fun q => (get_index_a q, get_index_b q)) _ _ He). }
        split; [|split; [|split; [|exact Hnd2]]].
        * intros a b Hab.
          destruct (cell_eq_dec (a, b) c) as [E|E].
          -- unfold c in E. injection E as -> ->. fold c.
             change (get_index_b p) with (SizeT.add ctr_b 1).
             change (get_index_a p) with (SizeT.add ctr_a 1).
             rewrite mask_set_same. split; [intros _|reflexivity].
             assert (H : In c (cell_of_pair e :: map cell_of_pair l'))
               by (apply (Permutation_in _ (Permutation_sym Hcells)); left; reflexivity).
             destruct H as [H|H]; [congruence|exact H].
          -- rewrite (mask_set_other _ _ _ b a) by exact E.
             destruct Hab as [Hab|Hab]; [congruence|].
             destruct (cell_eq_dec (a, b) (cell_of_pair e)) as [E'|E'].
             ++ injection E' as -> ->. rewrite mask_set_same.
                split; [discriminate|]. intros H. exfalso. exact (He' H).
             ++ rewrite !mask_set_other by assumption.
                rewrite (Hin a b Hab). split; intros H.
                ** assert (H' : In (a, b) (cell_of_pair e :: map cell_of_pair l'))
                     by (apply (Permutation_in _ (Permutation_sym Hcells)); right;
                         exact H).
                   destruct H' as [H'|H']; [congruence|exact H'].
                ** assert (H' : In (a, b) (c :: map cell_of_pair (selected_pairs s)))
                     by (apply (Permutation_in _ Hcells); right; exact H).
                   destruct H' as [H'|H']; [congruence|exact H'].
        * intros a b Hab.
          rewrite (mask_set_other _ _ _ b a)
            by (intros E; apply Hab; left; symmetry; exact E).
          rewrite mask_set_other
            by (intros E; apply Hab; right; rewrite E; exact Hevis).
          rewrite mask_set_other
            by (intros E; apply Hab; left; symmetry; exact E).
          apply Hout. intros H. apply Hab. right. exact H.
        * intros x Hx.
          assert (H : In x (c :: map cell_of_pair (selected_pairs s)))
            by (apply (Permutation_in _ Hcells); right; exact Hx).
          destruct H as [<-|H]; [left; reflexivity|right; apply Hincl; exact H].
    - intros _. cbn [selected_pairs lower_mask map].
      split; [intros a b []|]. split; [reflexivity|].
      split; [intros x []|constructor]. }
  destruct (Hinv Hdistinct) as [Hin [Hout _]]. split; assumption.
Qed.

End LaterPass.

End SelectPairsFacts.

Section SelectPairsRuns.

Import Ssap SelectPairs SelectPairsExample.

Lemma by_score_less_when_below (x y : selected_pair) :
  get_score x < get_score y -> by_score x y = true.
Proof.
  intros H. unfold by_score. apply Z.ltb_lt. exact H.
Qed.

Lemma by_score_less_only_when_not_above (x y : selected_pair) :
  by_score x y = true -> get_score x <= get_score y.
Proof.
  unfold by_score. intros H. apply Z.ltb_lt in H. lia.
Qed.

Lemma update_best_pair_selections_keeps_the_best_witness :
  ascending_by_score two_pairs
  /\ best_of 2 two_pairs two_pairs
  /\ ascending_by_score
       (fst (update_best_pair_selections by_score two_pairs no_mask
               (mk_selected_pair 3 1 7) 2))
  /\ best_of 2 (mk_selected_pair 3 1 7 :: two_pairs)
       (fst (update_best_pair_selections by_score two_pairs no_mask
               (mk_selected_pair 3 1 7) 2)).
Proof.
  assert (Hascending : ascending_by_score two_pairs).
  { unfold ascending_by_score, two_pairs.
    repeat constructor; cbn [get_score]; lia. }
  assert (Hbest : best_of 2 two_pairs two_pairs).
  { exists []. rewrite app_nil_r. split; [reflexivity|].
    split; [intros d k []|]. split; [simpl; lia|left; reflexivity]. }
  split; [exact Hascending|]. split; [exact Hbest|].
  exact (update_best_pair_selections_keeps_the_best by_score
           by_score_less_when_below by_score_less_only_when_not_above
           2 two_pairs two_pairs no_mask (mk_selected_pair 3 1 7) Hascending Hbest).
Defined.

Lemma first_pass_masks_hold_similarity_witness :
  exists g',
    example_select_pairs 1 = Returns g'
    /\ (forall a b, In (a, b) example_window_cells ->
          similar_on_diagonal a b = Returns (global_lower_mask_matrix g' b a)
          /\ global_upper_ss_mask_matrix g' b a = global_lower_mask_matrix g' b a)
    /\ (forall a b, ~ In (a, b) example_window_cells ->
          global_lower_mask_matrix g' b a = global_lower_mask_matrix unselected b a
          /\ global_upper_ss_mask_matrix g' b a
             = global_upper_ss_mask_matrix unselected b a).
Proof.
  destruct (example_select_pairs 1) as [g'|e|] eqn:Hrun.
  - exists g'. split; [reflexivity|]. unfold example_select_pairs in Hrun.
    pose proof (first_pass_masks_hold_similarity by_score 2 2 0 true true
                  similar_on_diagonal example_scores full_window_index
                  full_window_start full_window_stop unselected g' Hrun)
      as [Hin [Hout _]].
    split; [exact Hin|exact Hout].
  - vm_compute in Hrun. discriminate.
  - vm_compute in Hrun. discriminate.
Defined.

Lemma later_pass_selects_the_best_pairs_witness :
  exists st,
    example_select_over_window 2 = Returns st
    /\ ascending_by_score (selected_pairs st)
    /\ best_of NUM_SELECTIONS_TO_SAVE
         (map (pair_of_cell 2 2 0 example_scores full_window_index)
              example_window_cells)
         (selected_pairs st)
    /\ total_num_entries_considered st
       = SizeT.wrap (Z.of_nat (length example_window_cells))
    /\ upper_ss_mask st = global_upper_ss_mask_matrix unselected.
Proof.
  destruct (example_select_over_window 2) as [st|e|] eqn:Hrun.
  - exists st. split; [reflexivity|]. unfold example_select_over_window in Hrun.
    exact (later_pass_selects_the_best_pairs by_score 2 2 0
             similar_on_diagonal example_scores full_window_index
             full_window_start full_window_stop
             by_score_less_when_below by_score_less_only_when_not_above
             2 unselected st eq_refl Hrun).
  - vm_compute in Hrun. discriminate.
  - vm_compute in Hrun. discriminate.
Defined.

Lemma align_pass_publishes_the_selected_pairs_witness :
  exists st,
    example_select_over_window 2 = Returns st
    /\ example_select_pairs 2
       = Returns (mk_selection_globals (lower_mask st) (upper_ss_mask st)
                    (repeat (0, 0) (21 - length (selected_pairs st))
                     ++ map (fun p => (get_index_a p, get_index_b p))
                            (selected_pairs st))
                    20
                    (Double.of_Z 20
                     / Double.of_Z (total_num_entries_considered st))%float)
    /\ (length (selected_pairs st) <= 20)%nat.
Proof.
  destruct (example_select_over_window 2) as [st|e|] eqn:Hrun.
  - exists st. split; [reflexivity|]. unfold example_select_over_window in Hrun.
    exact (align_pass_publishes_the_selected_pairs by_score 2 2 0 true true
             similar_on_diagonal example_scores full_window_index
             full_window_start full_window_stop
             by_score_less_when_below by_score_less_only_when_not_above
             2 unselected st eq_refl eq_refl Hrun).
  - vm_compute in Hrun. discriminate.
  - vm_compute in Hrun. discriminate.
Defined.

Lemma later_pass_mask_marks_the_selected_pairs_witness :
  NoDup example_window_cells
  /\ exists st,
       example_select_over_window 2 = Returns st
       /\ (forall a b, In (a, b) example_window_cells ->
             (lower_mask st b a = true
              <-> In (a, b) (map (fun p => (get_index_a p, get_index_b p))
                                 (selected_pairs st))))
       /\ (forall a b, ~ In (a, b) example_window_cells ->
             lower_mask st b a = global_lower_mask_matrix unselected b a).
Proof.
  assert (Hdistinct : NoDup example_window_cells).
  { change example_window_cells with [(2, 2); (1, 2); (2, 1); (1, 1)].
    repeat constructor; cbn [In]; intuition congruence. }
  split; [exact Hdistinct|].
  destruct (example_select_over_window 2) as [st|e|] eqn:Hrun.
  - exists st. split; [reflexivity|]. unfold example_select_over_window in Hrun.
    exact (later_pass_mask_marks_the_selected_pairs by_score 2 2 0
             similar_on_diagonal example_scores full_window_index
             full_window_start full_window_stop
             by_score_less_when_below by_score_less_only_when_not_above
             2 unselected st eq_refl Hdistinct Hrun).
  - vm_compute in Hrun. discriminate.
  - vm_compute in Hrun. discriminate.
Defined.

End SelectPairsRuns.

(** ** ssap.cpp: the runs and passes of SSAP *)

Section RunFacts.

Import Alignment EntryQuerier Ssap SsapRun.

Context {E W : Type}.

Variable prm_ssap_options : old_ssap_options_block.
Variable length_a length_b : Z.
Variable num_sec_strucs_a num_sec_strucs_b : Z.
Variable get_length_a get_length_b : entry_querier -> Z.
Variable get_ssap_score_over_smaller : ssap_scores float -> float.
Variable get_ssap_score_over_larger : ssap_scores float -> float.
Variable get_percentage_aligned_pairs_over_larger : ssap_scores float -> float.
Variable get_seq_id : ssap_scores float -> float.
Variable get_num_aligned_pairs : ssap_scores float -> Z.
Variable MIN_CUTOFF : float.
Variable superpose : alignment -> bool -> callee_ending E (Z * float).
Variable ssap_line : float -> Z -> Z -> Z -> float -> string.
Variable with_num_superposed : string -> Z -> string.
Variable zero_scores_line1 zero_scores_line2 : string.
Variable write_alignment_as_cath_ssap_legacy_format : alignment -> callee_ending E unit.
Variable calculate_log_score : entry_querier -> alignment -> outcome (ssap_scores float).
Variable resize_matrices : Z -> Z -> W -> W.
Variable assign_upper_ss_and_lower_masks : Z -> Z -> W -> W.
Variable assign_upper_score_matrix : Z -> Z -> W -> W.
Variable set_mask_matrix :
  option alignment -> option string -> ssap_globals W -> callee_ending E unit * (W * Z).
Variable select_pairs :
  Z -> entry_querier -> ssap_globals W -> callee_ending E unit * (W * Z).
Variable populate_upper_score_matrix :
  entry_querier -> bool -> ssap_globals W -> callee_ending E unit * W.
Variable align_upper_matrix :
  entry_querier -> ssap_globals W -> callee_ending E (Z * alignment).

Local Abbreviation select_score := (select_score_of prm_ssap_options
  get_ssap_score_over_smaller get_ssap_score_over_larger).
Local Abbreviation line_of := (line_of_scores (E := E) (W := W) prm_ssap_options
  get_percentage_aligned_pairs_over_larger get_seq_id get_num_aligned_pairs MIN_CUTOFF
  ssap_line with_num_superposed).
Local Abbreviation save_scores := (save_ssap_scores (W := W) prm_ssap_options
  get_ssap_score_over_smaller get_ssap_score_over_larger
  get_percentage_aligned_pairs_over_larger get_seq_id get_num_aligned_pairs MIN_CUTOFF
  superpose ssap_line with_num_superposed).
Local Abbreviation plot := (plot_aln (W := W) prm_ssap_options
  get_ssap_score_over_smaller get_ssap_score_over_larger
  get_percentage_aligned_pairs_over_larger get_seq_id get_num_aligned_pairs MIN_CUTOFF
  superpose ssap_line with_num_superposed write_alignment_as_cath_ssap_legacy_format
  calculate_log_score).
Local Abbreviation run_compare := (compare prm_ssap_options get_length_a get_length_b
  get_ssap_score_over_smaller get_ssap_score_over_larger
  get_percentage_aligned_pairs_over_larger get_seq_id get_num_aligned_pairs MIN_CUTOFF
  superpose ssap_line with_num_superposed zero_scores_line1 zero_scores_line2
  write_alignment_as_cath_ssap_legacy_format calculate_log_score
  resize_matrices assign_upper_ss_and_lower_masks assign_upper_score_matrix
  set_mask_matrix select_pairs populate_upper_score_matrix align_upper_matrix).

(** Case analysis on the innermost scrutinee of a hypothesis. *)
Ltac case_in H :=
  match type of H with
  | context [match ?x with _ => _ end] =>
      lazymatch x with
      | context [match _ with _ => _ end] => fail
      | _ => destruct x eqn:?
      end
  end.

Ltac globals_in H :=
  cbn [global_matrices global_num_selections global_window global_window_add
       global_res_sim_cutoff global_run_counter global_gap_penalty global_align_pass
       global_supaln global_doing_fast_ssap global_res_score global_score_run1
       global_score_run2 global_ssap_score1 global_ssap_score2 global_ssap_line1
       global_ssap_line2 set_matrices set_num_selections set_window set_window_add
       set_res_sim_cutoff set_run_counter set_gap_penalty set_align_pass
       set_doing_fast_ssap set_res_score set_score_run1 set_score_run2
       set_ssap_line1_and_score1 set_ssap_line2_and_score2 fst snd negb andb orb] in H.

Ltac known_in H :=
  repeat match goal with
         | Hb : _ = true |- _ => rewrite Hb in H
         | Hb : _ = false |- _ => rewrite Hb in H
         end.

Ltac globals_everywhere :=
  cbn [global_matrices global_num_selections global_window global_window_add
       global_res_sim_cutoff global_run_counter global_gap_penalty global_align_pass
       global_supaln global_doing_fast_ssap global_res_score global_score_run1
       global_score_run2 global_ssap_score1 global_ssap_score2 global_ssap_line1
       global_ssap_line2 set_matrices set_num_selections set_window set_window_add
       set_res_sim_cutoff set_run_counter set_gap_penalty set_align_pass
       set_doing_fast_ssap set_res_score set_score_run1 set_score_run2
       set_ssap_line1_and_score1 set_ssap_line2_and_score2 fst snd negb andb orb] in *.

Ltac globals :=
  cbn [global_matrices global_num_selections global_window global_window_add
       global_res_sim_cutoff global_run_counter global_gap_penalty global_align_pass
       global_supaln global_doing_fast_ssap global_res_score global_score_run1
       global_score_run2 global_ssap_score1 global_ssap_score2 global_ssap_line1
       global_ssap_line2 set_matrices set_num_selections set_window set_window_add
       set_res_sim_cutoff set_run_counter set_gap_penalty set_align_pass
       set_doing_fast_ssap set_res_score set_score_run1 set_score_run2
       set_ssap_line1_and_score1 set_ssap_line2_and_score2 fst snd negb andb orb].

(** How a sequence of two calls ends. *)
Lemma bind_cases {A B : Type} (c : run (E := E) (W := W) A) (k : A -> run B)
  (g g2 : ssap_globals W) (r : ending E B) :
  bind c k g = (r, g2) ->
  (exists a g1, c g = (Ends a, g1) /\ k a g1 = (r, g2))
  \/ (exists e, c g = (Raises e, g2) /\ r = Raises e)
  \/ (c g = (Unspecified, g2) /\ r = Unspecified).
Proof.
  unfold bind. destruct (c g) as [[a|e|] g1]; intros H.
  - left. exists a, g1. split; [reflexivity|exact H].
  - right. left. injection H as <- <-. exists e. split; reflexivity.
  - right. right. injection H as <- <-. split; reflexivity.
Qed.

(** [save_ssap_scores] writes the line and the score of the run that the
    counter names and nothing else; what it returns is whether the selected
    score reaches the minimum for writing files. *)
Lemma save_ssap_scores_effect
  (prm_alignment : alignment) (prm_ssap_scores : ssap_scores float)
  (g g' : ssap_globals W) (r : ending E bool) :
  save_scores prm_alignment prm_ssap_scores g = (r, g') ->
  settings_kept g g'
  /\ global_res_score g' = global_res_score g
  /\ global_score_run1 g' = global_score_run1 g
  /\ global_score_run2 g' = global_score_run2 g
  /\ global_matrices g' = global_matrices g
  /\ global_num_selections g' = global_num_selections g
  /\ (forall b, r = Ends b ->
        b = (get_min_score_for_writing_files prm_ssap_options
             <=? select_score prm_ssap_scores)%float)
  /\ (forall msg, r <> Raises (out_of_range_exception msg)).
Proof.
  clear length_a length_b num_sec_strucs_a num_sec_strucs_b.
  unfold save_ssap_scores, line_of_scores, settings_kept, bind, current, update, ret,
    of_callee, of_outcome.
  intros H. repeat case_in H; injection H as <- <-; cbn;
    repeat split; try reflexivity; try discriminate; intros; congruence.
Qed.

(** [plot_aln]: what it writes, and that its two decisions on whether
    the score is high enough agree. *)
Lemma plot_aln_effect
  (prm_pass : Z) (prm_entry_querier : entry_querier) (prm_alignment : alignment)
  (g g' : ssap_globals W) (r : ending E (ssap_scores float)) :
  plot prm_pass prm_entry_querier prm_alignment g = (r, g') ->
  settings_kept g g'
  /\ global_matrices g' = global_matrices g
  /\ global_num_selections g' = global_num_selections g
  /\ (forall msg, r <> Raises (out_of_range_exception msg))
  /\ (prm_entry_querier = sec_struc_querier \/ prm_pass <> 2 ->
      g' = g /\ forall scores, r = Ends scores -> scores = no_scores)
  /\ (prm_entry_querier = residue_querier ->
      forall scores, r = Ends scores -> prm_pass = 2 -> global_res_score g' = true).
Proof.
  clear length_a length_b num_sec_strucs_a num_sec_strucs_b.
  unfold plot_aln, out_score_of, bind, current, update, ret, raise, of_callee, of_outcome.
  intros H.
  destruct prm_entry_querier; cbn [temp_hacky_is_residue andb negb] in H;
    destruct (Z.eqb_spec prm_pass 2) as [Hpass|Hpass]; cbn [negb] in H;
    repeat (globals_in H; known_in H; case_in H).
  all: try match goal with
    | Hs : save_scores _ _ _ = _ |- _ =>
        apply save_ssap_scores_effect in Hs;
        destruct Hs as [Hkept [Hres [Hrun1 [Hrun2 [Hmat [Hnum [Hhigh Hnot]]]]]]];
        unfold settings_kept in Hkept; globals_in Hkept;
        try (specialize (Hhigh _ eq_refl); subst)
    end.
  all: injection H as <- <-.
  all: unfold settings_kept; globals.
  all: repeat split; intros; try reflexivity; try discriminate; try congruence;
    try intuition congruence.
  all: match goal with
       | Hc : negb (Bool.eqb ?x ?x) = true |- _ =>
           rewrite Bool.eqb_reflx in Hc; discriminate Hc
       end.
Qed.

(** [compare]: the settings it leaves alone, and what it returns and
    records for each kind of entry. *)
Lemma compare_effect
  (prm_pass_ctr : Z) (prm_entry_querier : entry_querier)
  (prm_previous_ss_alignment : option alignment)
  (g g' : ssap_globals W) (r : ending E (ssap_scores float * alignment)) :
  run_compare prm_pass_ctr prm_entry_querier prm_previous_ss_alignment g = (r, g') ->
  settings_kept g g'
  /\ (forall msg, r <> Raises (out_of_range_exception msg))
  /\ (prm_entry_querier = sec_struc_querier ->
      global_res_score g' = global_res_score g
      /\ results_kept g g'
      /\ forall scores aln, r = Ends (scores, aln) -> scores = no_scores)
  /\ (prm_entry_querier = residue_querier ->
      forall scores aln, r = Ends (scores, aln) ->
        (global_res_score g' = false -> scores = no_scores)
        /\ (prm_pass_ctr <> 2 -> scores = no_scores)
        /\ (prm_pass_ctr <> 2 -> global_res_score g' = true -> results_kept g g')).
Proof.
  clear length_a length_b num_sec_strucs_a num_sec_strucs_b.
  unfold compare, writes_matrices_and_num_selections, writes_matrices, save_zero_scores,
    bind, current, update, ret, raise, of_callee, of_outcome.
  intros H.
  destruct prm_entry_querier; cbn [temp_hacky_is_residue andb negb orb] in H;
    repeat (globals_in H; known_in H; case_in H).
  all: try match goal with
    | Hs : plot _ _ _ _ = _ |- _ =>
        apply plot_aln_effect in Hs;
        destruct Hs as [Hkept [Hmat [Hnum [Hnot [Hnone Hres]]]]];
        unfold settings_kept in Hkept; globals_in Hkept
    end.
  all: injection H as <- <-.
  all: unfold settings_kept, results_kept; globals.
  all: try (destruct Hkept as (? & ? & ? & ? & ? & ? & ? & ?); clear Hmat Hnum).
  all: repeat split; intros; try reflexivity; try discriminate; try congruence.
  all: try match goal with
           | Hf : global_res_score _ = false |- _ => globals_in Hf; discriminate Hf
           end.
  all: try (destruct (Hnone (or_introl eq_refl)) as [Hsame Hno]).
  all: try match goal with
           | Hp : _ <> 2 |- _ => destruct (Hnone (or_intror Hp)) as [Hsame Hno]
           end.
  all: try (rewrite Hsame; globals; reflexivity).
  all: try match goal with
           | Hr : Ends _ = Ends _ |- _ =>
               injection Hr as <- <-; apply Hno; reflexivity
           end.
Qed.

Local Abbreviation run_residue_pass := (residue_pass prm_ssap_options
  get_length_a get_length_b
  get_ssap_score_over_smaller get_ssap_score_over_larger
  get_percentage_aligned_pairs_over_larger get_seq_id get_num_aligned_pairs MIN_CUTOFF
  superpose ssap_line with_num_superposed zero_scores_line1 zero_scores_line2
  write_alignment_as_cath_ssap_legacy_format calculate_log_score
  resize_matrices assign_upper_ss_and_lower_masks assign_upper_score_matrix
  set_mask_matrix select_pairs populate_upper_score_matrix align_upper_matrix).
Local Abbreviation run_fast := (fast_ssap prm_ssap_options length_a length_b
  get_length_a get_length_b
  get_ssap_score_over_smaller get_ssap_score_over_larger
  get_percentage_aligned_pairs_over_larger get_seq_id get_num_aligned_pairs MIN_CUTOFF
  superpose ssap_line with_num_superposed zero_scores_line1 zero_scores_line2
  write_alignment_as_cath_ssap_legacy_format calculate_log_score
  resize_matrices assign_upper_ss_and_lower_masks assign_upper_score_matrix
  set_mask_matrix select_pairs populate_upper_score_matrix align_upper_matrix).
Local Abbreviation window_for_residues := (residue_window (W := W) length_a length_b).

(** One residue pass: [global_align_pass] says whether it is the second;
    the second pass is made only when the first left [global_res_score]
    set; and only the second pass gives scores. *)
Lemma residue_pass_effect
  (prm_previous_ss_alignment : option alignment) (pass_ctr : Z)
  (g g' : ssap_globals W) (r : ending E (option (ssap_scores float))) :
  run_residue_pass prm_previous_ss_alignment pass_ctr g = (r, g') ->
  (forall msg, r <> Raises (out_of_range_exception msg))
  /\ global_window g' = global_window g
  /\ global_window_add g' = global_window_add g
  /\ global_res_sim_cutoff g' = global_res_sim_cutoff g
  /\ global_run_counter g' = global_run_counter g
  /\ global_gap_penalty g' = global_gap_penalty g
  /\ global_supaln g' = global_supaln g
  /\ global_doing_fast_ssap g' = global_doing_fast_ssap g
  /\ global_align_pass g' = (1 <? pass_ctr)
  /\ forall o, r = Ends o ->
       (o = None -> global_res_score g' = global_res_score g
                    /\ (pass_ctr = 2 -> global_res_score g = false))
       /\ (forall scores, o = Some scores ->
             (global_res_score g' = false -> scores = no_scores)
             /\ (pass_ctr <> 2 -> scores = no_scores)).
Proof.
  clear length_a length_b num_sec_strucs_a num_sec_strucs_b.
  unfold residue_pass, bind, current, update, ret.
  intros H.
  repeat (globals_in H; known_in H; case_in H).
  all: try match goal with
    | Hs : run_compare _ _ _ _ = _ |- _ =>
        apply compare_effect in Hs;
        destruct Hs as [Hkept [Hnot [_ Hres]]];
        specialize (Hres eq_refl);
        destruct Hkept as (? & ? & ? & ? & ? & ? & ? & ?)
    end.
  all: injection H as <- <-.
  all: globals_everywhere.
  all: repeat split; intros; try reflexivity; try discriminate; try congruence.
  all: try match goal with
           | Ho : Ends (Some (fst ?a)) = Ends ?o, Hs : ?o = Some ?scores |- _ =>
               rewrite Hs in Ho; injection Ho as Ho;
               destruct (Hres (fst a) (snd a)) as [Hfalse [Hfirst _]];
               [destruct a; reflexivity|]; rewrite <- Ho; auto
           end.
  subst pass_ctr. cbn [Z.eqb Pos.eqb orb andb] in *. assumption.
Qed.

(** A run of fast SSAP. *)
Lemma fast_ssap_effect (g g' : ssap_globals W) (r : ending E (ssap_scores float)) :
  run_fast g = (r, g') ->
  (forall msg, r <> Raises (out_of_range_exception msg))
  /\ global_run_counter g' = global_run_counter g + 1
  /\ global_window_add g' = global_window_add g
  /\ global_res_sim_cutoff g' = global_res_sim_cutoff g
  /\ global_supaln g' = global_supaln g
  /\ forall scores, r = Ends scores ->
       global_align_pass g' = true
       /\ global_doing_fast_ssap g' = true
       /\ global_gap_penalty g' = 50
       /\ global_window g' = window_for_residues g
       /\ (global_res_score g' = false -> scores = no_scores).
Proof.
  clear num_sec_strucs_a num_sec_strucs_b.
  unfold fast_ssap, bind, current, update, ret.
  intros H.
  destruct (run_compare 1 sec_struc_querier None
              (set_run_counter (global_run_counter g + 1) g)) as [r0 g0] eqn:Hss.
  apply compare_effect in Hss. destruct Hss as [Hkept0 [Hnot0 [Hss _]]].
  destruct (Hss eq_refl) as [_ [_ Hnone]].
  destruct Hkept0 as (? & ? & ? & ? & ? & ? & ? & ?).
  globals_everywhere.
  destruct r0 as [[scores0 sec_struc_alignment]| |];
    [|injection H as <- <-; repeat split; intros; try congruence;
      try (intros Heq; injection Heq as ->; exact (Hnot0 _ eq_refl)) ..].
  cbn [fst snd] in H.
  match type of H with
  | context [run_residue_pass ?p 1 ?s] =>
      destruct (run_residue_pass p 1 s) as [r1 g1] eqn:Hfirst
  end.
  apply residue_pass_effect in Hfirst.
  destruct Hfirst as (Hnot1 & ? & ? & ? & ? & ? & ? & ? & ? & Hfirst).
  globals_everywhere.
  destruct r1 as [first| |];
    [|injection H as <- <-; repeat split; intros; try congruence;
      try (intros Heq; injection Heq as ->; exact (Hnot1 _ eq_refl)) ..].
  destruct (run_residue_pass (Some sec_struc_alignment) 2 g1) as [r2 g2] eqn:Hsecond.
  apply residue_pass_effect in Hsecond.
  destruct Hsecond as (Hnot2 & ? & ? & ? & ? & ? & ? & ? & ? & Hsecond).
  destruct r2 as [second| |];
    [|injection H as <- <-; repeat split; intros; try congruence;
      try (intros Heq; injection Heq as ->; exact (Hnot2 _ eq_refl)) ..].
  injection H as <- <-.
  destruct (Hfirst _ eq_refl) as [Hfirst_none Hfirst_some].
  destruct (Hsecond _ eq_refl) as [Hsecond_none Hsecond_some].
  change (1 <? 2) with true in *.
  unfold residue_window in *. globals_everywhere. cbv zeta in *.
  repeat split; try congruence; try discriminate.
  intros Hres.
  match goal with Hr : Ends _ = Ends _ |- _ => injection Hr as <- end.
  assert (Hs0 : scores0 = no_scores) by (apply (Hnone _ _ eq_refl)).
  assert (Hf : match first with Some scores => scores | None => scores0 end = no_scores).
  { destruct first as [s1|]; [|exact Hs0].
    apply (proj2 (Hfirst_some s1 eq_refl)). discriminate. }
  destruct second as [s2|]; [|exact Hf].
  apply (proj1 (Hsecond_some s2 eq_refl)). exact Hres.
Qed.

Local Abbreviation run_fast_phase := (run_fast_ssap prm_ssap_options length_a length_b
  num_sec_strucs_a num_sec_strucs_b get_length_a get_length_b
  get_ssap_score_over_smaller get_ssap_score_over_larger
  get_percentage_aligned_pairs_over_larger get_seq_id get_num_aligned_pairs MIN_CUTOFF
  superpose ssap_line with_num_superposed zero_scores_line1 zero_scores_line2
  write_alignment_as_cath_ssap_legacy_format calculate_log_score
  resize_matrices assign_upper_ss_and_lower_masks assign_upper_score_matrix
  set_mask_matrix select_pairs populate_upper_score_matrix align_upper_matrix).
Local Abbreviation run_align_proteins := (align_proteins prm_ssap_options length_a length_b
  num_sec_strucs_a num_sec_strucs_b get_length_a get_length_b
  get_ssap_score_over_smaller get_ssap_score_over_larger
  get_percentage_aligned_pairs_over_larger get_seq_id get_num_aligned_pairs MIN_CUTOFF
  superpose ssap_line with_num_superposed zero_scores_line1 zero_scores_line2
  write_alignment_as_cath_ssap_legacy_format calculate_log_score
  resize_matrices assign_upper_ss_and_lower_masks assign_upper_score_matrix
  set_mask_matrix select_pairs populate_upper_score_matrix align_upper_matrix).
Local Abbreviation fast_ssap_is_run :=
  (negb (get_slow_ssap_only prm_ssap_options)
   && (1 <? num_sec_strucs_a) && (1 <? num_sec_strucs_b)).

(** The runs of fast SSAP in [align_proteins]. *)
Lemma run_fast_ssap_effect (g g' : ssap_globals W) (r : ending E (ssap_scores float)) :
  run_fast_phase g = (r, g') ->
  (forall msg, r <> Raises (out_of_range_exception msg))
  /\ global_supaln g' = global_supaln g
  /\ forall scores, r = Ends scores ->
       global_run_counter g' = global_run_counter g + (if fast_ssap_is_run then 1 else 0)
       /\ (fast_ssap_is_run = false -> g' = g /\ scores = no_scores)
       /\ (fast_ssap_is_run = true ->
           global_align_pass g' = true
           /\ global_doing_fast_ssap g' = true
           /\ global_gap_penalty g' = 50
           /\ global_window g' = window_for_residues g'
           /\ (global_res_score g' = false -> scores = no_scores)
           /\ ((global_res_sim_cutoff g' = global_res_sim_cutoff g
                /\ global_window_add g' = global_window_add g)
               \/ (global_res_sim_cutoff g' = 1000 /\ global_window_add g' = 1000
                   /\ has_clique_file prm_ssap_options = false)
               \/ (global_res_sim_cutoff g' = 150 /\ global_window_add g' = 70
                   /\ has_clique_file prm_ssap_options = false))).
Proof.
  unfold run_fast_ssap, bind, update, ret.
  intros H.
  destruct (get_slow_ssap_only prm_ssap_options); cbn [negb andb] in *;
    [injection H as <- <-; repeat split; intros; try discriminate; try congruence;
     rewrite Z.add_0_r; reflexivity|].
  destruct (1 <? num_sec_strucs_a); cbn [andb] in *;
    [|injection H as <- <-; repeat split; intros; try discriminate; try congruence;
      rewrite Z.add_0_r; reflexivity].
  destruct (1 <? num_sec_strucs_b);
    [|injection H as <- <-; repeat split; intros; try discriminate; try congruence;
      rewrite Z.add_0_r; reflexivity].
  destruct (run_fast g) as [r1 g1] eqn:Hone.
  apply fast_ssap_effect in Hone.
  destruct Hone as (Hnot1 & Hc1 & Hw1 & Hs1 & Hsup1 & Hone).
  destruct r1 as [scores1| |];
    [|injection H as <- <-; repeat split; intros; try discriminate; try congruence;
      try apply Hnot1 ..].
  destruct (Hone _ eq_refl) as (? & ? & ? & Hwin1 & ?).
  destruct ((get_ssap_score_over_larger scores1
             <? get_max_score_to_fast_ssap_rerun prm_ssap_options)%float
            && negb (has_clique_file prm_ssap_options)) eqn:Hrerun.
  2:{ injection H as <- <-. repeat split; intros; try discriminate; try congruence.
      - unfold residue_window in *. cbv zeta in *. congruence.
      - match goal with Hr : Ends _ = Ends _ |- _ => injection Hr as <- end. auto.
      - left. split; assumption. }
  apply andb_prop in Hrerun. destruct Hrerun as [_ Hclique].
  apply negb_true_iff in Hclique.
  unfold fast_ssap_settings in H. globals_in H.
  match type of H with
  | context [run_fast ?s] => destruct (run_fast s) as [r2 g2] eqn:Htwo
  end.
  apply fast_ssap_effect in Htwo. globals_in Htwo.
  destruct Htwo as (Hnot2 & Hc2 & Hw2 & Hs2 & Hsup2 & Htwo).
  destruct r2 as [scores2| |];
    [|injection H as <- <-; repeat split; intros; try discriminate; try congruence;
      try apply Hnot2 ..].
  destruct (Htwo _ eq_refl) as (? & ? & ? & Hwin2 & ?).
  destruct (get_ssap_score_over_larger scores2 <=? get_ssap_score_over_larger scores1)%float.
  2:{ injection H as <- <-. repeat split; intros; try discriminate; try congruence.
      - lia.
      - unfold residue_window in *. globals_everywhere. cbv zeta in *. congruence.
      - match goal with Hr : Ends _ = Ends _ |- _ => injection Hr as <- end. auto.
      - right. left. repeat split; assumption. }
  match type of H with
  | context [run_fast ?s] => destruct (run_fast s) as [r3 g3] eqn:Hthree
  end.
  apply fast_ssap_effect in Hthree. globals_in Hthree.
  destruct Hthree as (Hnot3 & Hc3 & Hw3 & Hs3 & Hsup3 & Hthree).
  injection H as <- <-.
  repeat split; intros; try discriminate; try congruence; try apply Hnot3.
  all: destruct (Hthree _ H) as (? & ? & ? & Hwin3 & ?); try assumption.
  - lia.
  - unfold residue_window in *. globals_everywhere. cbv zeta in *. congruence.
  - auto.
  - right. right. repeat split; assumption.
Qed.

(** [align_proteins]: the runs it makes and the settings it leaves. *)
Lemma align_proteins_effect (g g' : ssap_globals W) (r : ending E unit) :
  run_align_proteins g = (r, g') ->
  (forall msg, r <> Raises (out_of_range_exception msg))
  /\ global_supaln g' = global_supaln g
  /\ (r = Ends tt ->
      exists slow_ssap_is_run : bool,
        global_run_counter g'
        = global_run_counter g + (if fast_ssap_is_run then 1 else 0)
          + (if slow_ssap_is_run then 1 else 0)
        /\ (slow_ssap_is_run = true ->
            has_clique_file prm_ssap_options = false
            /\ global_doing_fast_ssap g' = false
            /\ global_res_sim_cutoff g' = 150
            /\ global_window_add g' = 70
            /\ global_gap_penalty g' = 50
            /\ global_align_pass g' = true
            /\ global_window g' = window_for_residues g')
        /\ (slow_ssap_is_run = false -> fast_ssap_is_run = true ->
            global_doing_fast_ssap g' = true
            /\ global_gap_penalty g' = 50
            /\ global_align_pass g' = true
            /\ global_window g' = window_for_residues g'
            /\ ((global_res_sim_cutoff g' = global_res_sim_cutoff g
                 /\ global_window_add g' = global_window_add g)
                \/ (global_res_sim_cutoff g' = 1000 /\ global_window_add g' = 1000)
                \/ (global_res_sim_cutoff g' = 150 /\ global_window_add g' = 70)))
        /\ (slow_ssap_is_run = false -> fast_ssap_is_run = false ->
            g' = fast_ssap_settings num_sec_strucs_a num_sec_strucs_b g)).
Proof.
  unfold align_proteins, bind, update, ret.
  intros H.
  match type of H with
  | context [run_fast_phase ?s] => destruct (run_fast_phase s) as [r1 g1] eqn:Hfast
  end.
  apply run_fast_ssap_effect in Hfast.
  unfold fast_ssap_settings in Hfast. globals_in Hfast.
  destruct Hfast as (Hnot1 & Hsup1 & Hfast).
  destruct r1 as [fast_ssap_scores| |];
    [|injection H as <- <-; repeat split; intros; try discriminate; try congruence;
      try (intros Heq; injection Heq as ->; exact (Hnot1 _ eq_refl)) ..].
  destruct (Hfast _ eq_refl) as (Hcount & Hskipped & Hran).
  destruct (negb (has_clique_file prm_ssap_options)
            && negb (get_max_score_to_slow_ssap_rerun prm_ssap_options
                     <? get_ssap_score_over_larger fast_ssap_scores)%float) eqn:Hslow.
  2:{ injection H as <- <-. repeat split; try discriminate; try congruence.
      intros _. exists false. rewrite Z.add_0_r.
      split; [assumption|]. split; [discriminate|]. split.
      - intros _ Hrun. destruct (Hran Hrun) as (? & ? & ? & ? & _ & Hsettings).
        repeat split; try assumption.
        destruct Hsettings as [[? ?]|[[? [? _]]|[? [? _]]]]; auto.
      - intros _ Hrun. destruct (Hskipped Hrun) as [-> _]. reflexivity. }
  apply andb_prop in Hslow. destruct Hslow as [Hclique _].
  apply negb_true_iff in Hclique.
  match type of H with
  | context [run_residue_pass None 1 ?s] =>
      destruct (run_residue_pass None 1 s) as [r2 g2] eqn:Hfirst
  end.
  apply residue_pass_effect in Hfirst. globals_in Hfirst.
  destruct Hfirst as (Hnot2 & ? & ? & ? & ? & ? & ? & ? & ? & _).
  destruct r2 as [first| |];
    [|injection H as <- <-; repeat split; intros; try discriminate; try congruence;
      try (intros Heq; injection Heq as ->; exact (Hnot2 _ eq_refl)) ..].
  destruct (run_residue_pass None 2 g2) as [r3 g3] eqn:Hsecond.
  apply residue_pass_effect in Hsecond.
  destruct Hsecond as (Hnot3 & ? & ? & ? & ? & ? & ? & ? & ? & _).
  change (1 <? 2) with true in *.
  destruct r3 as [second| |];
    [|injection H as <- <-; repeat split; intros; try discriminate; try congruence;
      try (intros Heq; injection Heq as ->; exact (Hnot3 _ eq_refl)) ..].
  injection H as <- <-. repeat split; try discriminate; try congruence.
  intros _. exists true.
  unfold residue_window in *. globals_everywhere. cbv zeta in *.
  repeat split; try discriminate; try congruence; try lia.
Qed.

(** [plot_aln] decides twice whether the score is high enough, once in
    [save_ssap_scores] and once on its own [out_score]; the
    [out_of_range_exception] it throws when the two decisions differ is
    never thrown, by [plot_aln] or by a run of [align_proteins], whatever
    the globals, the scores (NaNs included) and the functions called do. *)
Theorem plot_aln_decisions_on_the_score_agree
  (prm_pass : Z) (prm_entry_querier : entry_querier) (prm_alignment : alignment)
  (g : ssap_globals W) (msg : string) :
  fst (plot prm_pass prm_entry_querier prm_alignment g)
  <> Raises (out_of_range_exception msg)
  /\ fst (run_align_proteins g) <> Raises (out_of_range_exception msg).
Proof.
  split.
  - destruct (plot prm_pass prm_entry_querier prm_alignment g) as [r g'] eqn:Hrun.
    apply plot_aln_effect in Hrun. destruct Hrun as (_ & _ & _ & Hnot & _).
    apply Hnot.
  - destruct (run_align_proteins g) as [r g'] eqn:Hrun.
    apply align_proteins_effect in Hrun. destruct Hrun as (Hnot & _).
    apply Hnot.
Qed.

(** A call of [compare] that returns has left the window, the cutoff,
    the run counter, the gap penalty and the flags of the pass and the run
    as they were.  For secondary structures it returns [ssap_scores()] and
    leaves [global_res_score] and the saved scores and lines untouched; for
    residues it returns scores other than [ssap_scores()] only on pass 2
    and only with [global_res_score] set, and a pass other than 2 that sets
    [global_res_score] saves no score and no line. *)
Theorem compare_gives_scores_only_on_the_second_residue_pass
  (prm_pass_ctr : Z) (prm_entry_querier : entry_querier)
  (prm_previous_ss_alignment : option alignment)
  (g g' : ssap_globals W) (scores : ssap_scores float) (aln : alignment)
  (Hrun : run_compare prm_pass_ctr prm_entry_querier prm_previous_ss_alignment g
          = (Ends (scores, aln), g')) :
  settings_kept g g'
  /\ (prm_entry_querier = sec_struc_querier ->
      scores = no_scores
      /\ global_res_score g' = global_res_score g
      /\ results_kept g g')
  /\ (prm_entry_querier = residue_querier ->
      (prm_pass_ctr <> 2 -> scores = no_scores)
      /\ (global_res_score g' = false -> scores = no_scores)
      /\ (prm_pass_ctr <> 2 -> global_res_score g' = true -> results_kept g g')).
Proof.
  apply compare_effect in Hrun. destruct Hrun as (Hkept & _ & Hss & Hres).
  split; [exact Hkept|]. split.
  - intros Hq. destruct (Hss Hq) as (? & ? & Hnone).
    split; [apply (Hnone _ _ eq_refl)|split; assumption].
  - intros Hq. destruct (Hres Hq _ _ eq_refl) as (? & ? & ?).
    split; [assumption|split; assumption].
Qed.

(** A run of [fast_ssap] that returns has advanced the run counter by
    one and left [global_res_sim_cutoff], [global_window_add] and
    [global_supaln] as they were; the gap penalty is 50, the window is the
    difference of the lengths plus [global_window_add], and the flags say
    fast SSAP and second pass, whether or not a second pass was made; and
    unless it leaves [global_res_score] set (the second residue pass was
    made and scored), what it returns is [ssap_scores()]. *)
Theorem fast_ssap_gives_scores_only_after_a_scored_second_pass
  (g g' : ssap_globals W) (scores : ssap_scores float)
  (Hrun : run_fast g = (Ends scores, g')) :
  global_run_counter g' = global_run_counter g + 1
  /\ global_res_sim_cutoff g' = global_res_sim_cutoff g
  /\ global_window_add g' = global_window_add g
  /\ global_supaln g' = global_supaln g
  /\ global_gap_penalty g' = 50
  /\ global_window g' = window_for_residues g
  /\ global_doing_fast_ssap g' = true
  /\ global_align_pass g' = true
  /\ (global_res_score g' = false -> scores = no_scores).
Proof.
  apply fast_ssap_effect in Hrun.
  destruct Hrun as (_ & ? & ? & ? & ? & Hends).
  destruct (Hends _ eq_refl) as (? & ? & ? & ? & ?).
  repeat split; assumption.
Qed.

(** From a run counter of 0 (as [run_ssap] sets it), a call of
    [align_proteins] that returns leaves the counter at the number of runs
    made: one for fast SSAP, which is run when slow SSAP only is not asked
    for and both proteins have more than one secondary structure, however
    often it is re-run; and one for slow SSAP.  Slow SSAP is not run with a
    clique file, and leaves the cutoff at 150 and the window addition at
    70; without it the re-runs of fast SSAP may leave them at 1000.
    [print_ssap_scores] then writes nothing when no run was made, the first
    line when one run was made (be it the slow one), and after both runs
    both lines or the line of the better score, the second on a tie. *)
Theorem align_proteins_counts_its_runs
  (g g' : ssap_globals W)
  (Hcounter : global_run_counter g = 0)
  (Hrun : run_align_proteins g = (Ends tt, g')) :
  exists slow_ssap_is_run : bool,
    global_run_counter g'
    = (if fast_ssap_is_run then 1 else 0) + (if slow_ssap_is_run then 1 else 0)
    /\ (slow_ssap_is_run = true ->
        has_clique_file prm_ssap_options = false
        /\ global_doing_fast_ssap g' = false
        /\ global_res_sim_cutoff g' = 150
        /\ global_window_add g' = 70)
    /\ (slow_ssap_is_run = false -> fast_ssap_is_run = true ->
        global_doing_fast_ssap g' = true
        /\ ((global_res_sim_cutoff g' = global_res_sim_cutoff g
             /\ global_window_add g' = global_window_add g)
            \/ (global_res_sim_cutoff g' = 1000 /\ global_window_add g' = 1000)
            \/ (global_res_sim_cutoff g' = 150 /\ global_window_add g' = 70)))
    /\ print_ssap_scores (global_ssap_score1 g') (global_ssap_score2 g')
         (global_ssap_line1 g') (global_ssap_line2 g') (global_run_counter g')
         (get_write_all_scores prm_ssap_options)
       = if fast_ssap_is_run && slow_ssap_is_run then
           if get_write_all_scores prm_ssap_options
           then [global_ssap_line1 g'; global_ssap_line2 g']
           else [if (global_ssap_score1 g' <=? global_ssap_score2 g')%float
                 then global_ssap_line2 g' else global_ssap_line1 g']
         else if fast_ssap_is_run || slow_ssap_is_run
              then [global_ssap_line1 g']
              else [].
Proof.
  apply align_proteins_effect in Hrun. destruct Hrun as (_ & _ & Hends).
  destruct (Hends eq_refl) as (slow & Hcount & Hslow & Hfast & _).
  exists slow. rewrite Hcounter in Hcount. cbn [Z.add] in Hcount.
  split; [exact Hcount|]. split.
  { intros Hs. destruct (Hslow Hs) as (? & ? & ? & ? & _). repeat split; assumption. }
  split.
  { intros Hs Hf. destruct (Hfast Hs Hf) as (? & _ & _ & _ & ?). split; assumption. }
  rewrite Hcount. unfold print_ssap_scores.
  destruct fast_ssap_is_run, slow; reflexivity.
Qed.

End RunFacts.

Section SsapRunWitnesses.

Import Alignment EntryQuerier Ssap SsapRun SsapRunExample.

Lemma compare_gives_scores_only_on_the_second_residue_pass_witness :
  exists scores aln g',
    example_compare 1 residue_querier None at_reset = (Ends (scores, aln), g')
    /\ settings_kept at_reset g'
    /\ scores = no_scores
    /\ results_kept at_reset g'.
Proof.
  destruct (example_compare 1 residue_querier None at_reset)
    as [[[scores aln]| |] g'] eqn:Hrun.
  - exists scores, aln, g'. split; [reflexivity|].
    assert (Hset : global_res_score g' = true).
    { vm_compute in Hrun. injection Hrun as _ _ <-. reflexivity. }
    apply compare_gives_scores_only_on_the_second_residue_pass in Hrun.
    destruct Hrun as (Hkept & _ & Hres).
    destruct (Hres eq_refl) as (Hnone & _ & Hsaved).
    split; [exact Hkept|]. split; [apply Hnone; discriminate|].
    apply Hsaved; [discriminate|exact Hset].

  - vm_compute in Hrun. discriminate.
  - vm_compute in Hrun. discriminate.
Defined.

Lemma fast_ssap_gives_scores_only_after_a_scored_second_pass_witness :
  exists scores g',
    example_fast_ssap at_reset = (Ends scores, g')
    /\ global_run_counter g' = global_run_counter at_reset + 1
    /\ global_gap_penalty g' = 50
    /\ global_window g' = residue_window 3 3 at_reset
    /\ global_doing_fast_ssap g' = true
    /\ global_align_pass g' = true.
Proof.
  destruct (example_fast_ssap at_reset) as [[scores| |] g'] eqn:Hrun.
  - exists scores, g'. split; [reflexivity|].
    apply fast_ssap_gives_scores_only_after_a_scored_second_pass in Hrun.
    destruct Hrun as (? & _ & _ & _ & ? & ? & ? & ? & _).
    repeat split; assumption.
  - vm_compute in Hrun. discriminate.
  - vm_compute in Hrun. discriminate.
Defined.

Lemma align_proteins_counts_its_runs_witness :
  global_run_counter at_reset = 0
  /\ exists g',
       example_align_proteins at_reset = (Ends tt, g')
       /\ exists slow_ssap_is_run : bool,
            global_run_counter g' = 1 + (if slow_ssap_is_run then 1 else 0)
            /\ (slow_ssap_is_run = true ->
                global_doing_fast_ssap g' = false
                /\ global_res_sim_cutoff g' = 150
                /\ global_window_add g' = 70).
Proof.
  split; [reflexivity|].
  destruct (example_align_proteins at_reset) as [[[]| |] g'] eqn:Hrun.
  - exists g'. split; [reflexivity|].
    apply align_proteins_counts_its_runs in Hrun; [|reflexivity].
    destruct Hrun as (slow & Hcount & Hslow & _).
    exists slow. split; [exact Hcount|].
    intros Hs. destruct (Hslow Hs) as (_ & ? & ? & ?). repeat split; assumption.
  - vm_compute in Hrun. discriminate.
  - vm_compute in Hrun. discriminate.
Defined.

End SsapRunWitnesses.

(** ** ssap.cpp: the clique file and the mask matrices *)

Section CliqueFileFacts.

Import Alignment Ssap SsapRun MaskMatrix.

Variable scan_cliquesize : string -> Z.
Variable scan_equivalency : string -> sec_struc_equivalency.

Local Abbreviation read_one := (read_equivalency scan_equivalency).
Local Abbreviation read_file := (read_clique_file scan_cliquesize scan_equivalency).

(** At the end of the file every call pushes back what it scans from the
    buffer as it stands. *)
Lemma for_n_at_end_of_file (n : nat) (buf : string) (l : list sec_struc_equivalency) :
  for_n n read_one (mk_clique_reader [] buf l)
  = Reads (mk_clique_reader [] buf (l ++ repeat (scan_equivalency buf) n)).
Proof.
  revert l. induction n as [|n IH]; intros l; simpl.
  - rewrite app_nil_r. reflexivity.
  - rewrite IH. rewrite <- app_assoc. reflexivity.
Qed.

(** Before the end of the file the first call throws. *)
Lemma for_n_before_end_of_file
  (n : nat) (line : string) (rest : list string) (buf : string)
  (l : list sec_struc_equivalency) :
  for_n (S n) read_one (mk_clique_reader (line :: rest) buf l)
  = Stops (runtime_error_exception "Parsing error in reading clique file").
Proof.
  reflexivity.
Qed.

(** What [read_clique_file] makes of a file that is not empty. *)
Lemma read_clique_file_cases (first : string) (rest : list string) :
  read_file (Some (first :: rest))
  = if (0 <? scan_cliquesize first) && negb (match rest with [] => true | _ => false end)
    then Stops (runtime_error_exception "Parsing error in reading clique file")
    else Reads (mk_clique (scan_cliquesize first)
                  (repeat (scan_equivalency first) (Z.to_nat (scan_cliquesize first)))).
Proof.
  unfold read_clique_file. cbv zeta.
  destruct rest as [|line rest]; cbn [negb andb].
  - rewrite andb_false_r, for_n_at_end_of_file. reflexivity.
  - rewrite andb_true_r.
    destruct (Z.ltb_spec 0 (scan_cliquesize first)) as [Hpos|Hzero].
    + destruct (Z.to_nat (scan_cliquesize first)) as [|n] eqn:Hn; [lia|].
      rewrite for_n_before_end_of_file. reflexivity.
    + replace (Z.to_nat (scan_cliquesize first)) with O by lia. reflexivity.
Qed.

(** [read_clique_file] on a file that opens and is not empty throws its
    parsing error exactly when the first line declares a positive size and
    a line follows it.  When it returns, every equivalency of the clique
    has been scanned from the first line again: no line after the first is
    ever read into a clique. *)
Theorem read_clique_file_reads_no_entry (first : string) (rest : list string) :
  read_clique_file scan_cliquesize scan_equivalency (Some (first :: rest))
  = if (0 <? scan_cliquesize first) && negb (match rest with [] => true | _ => false end)
    then Stops (runtime_error_exception "Parsing error in reading clique file")
    else Reads (mk_clique (scan_cliquesize first)
                  (repeat (scan_equivalency first) (Z.to_nat (scan_cliquesize first)))).
Proof.
  exact (read_clique_file_cases first rest).
Qed.

End CliqueFileFacts.

Section MaskMatrixFacts.

Import Alignment Ssap SsapRun MaskMatrix.

Variable scan_cliquesize : string -> Z.
Variable scan_equivalency : string -> sec_struc_equivalency.
Variable length_a length_b : Z.
Variable global_window : Z.
Variable global_doing_fast_ssap : bool.
Variable global_res_sim_cutoff : Z.
Variable residue_a residue_b : Z -> residue.
Variable pdb_number_a pdb_number_b : Z -> Z.
Variable sec_struc_number_a sec_struc_number_b : Z -> Z.
Variable atoi : string -> Z.
Variable get_last_present_a_position : alignment -> option Z.
Variable get_last_present_b_position : alignment -> option Z.
Variable get_window_matrix_a_index__offset_1 : Z -> Z -> Z -> Z -> Z -> Z.
Variable get_window_start_a_for_b__offset_1 : Z -> Z -> Z -> Z -> Z.
Variable get_window_stop_a_for_b__offset_1 : Z -> Z -> Z -> Z -> Z.

Local Abbreviation run_set_mask_matrix prm_clique_file :=
  (set_mask_matrix scan_cliquesize scan_equivalency length_a length_b global_window
     global_doing_fast_ssap global_res_sim_cutoff prm_clique_file residue_a residue_b
     pdb_number_a pdb_number_b sec_struc_number_a sec_struc_number_b atoi
     get_last_present_a_position get_last_present_b_position
     get_window_matrix_a_index__offset_1 get_window_start_a_for_b__offset_1
     get_window_stop_a_for_b__offset_1).
Local Abbreviation run_set_masks prm_clique_file :=
  (set_masks length_a length_b global_window
     global_doing_fast_ssap global_res_sim_cutoff prm_clique_file residue_a residue_b
     pdb_number_a pdb_number_b sec_struc_number_a sec_struc_number_b atoi
     get_last_present_a_position get_last_present_b_position
     get_window_matrix_a_index__offset_1 get_window_start_a_for_b__offset_1
     get_window_stop_a_for_b__offset_1).

(** A clique without equivalencies is read out of its bounds. *)
Lemma use_clique_without_equivalencies
  (clique_data : clique) (lower lower' : Z -> Z -> bool) :
  equivs clique_data = [] ->
  use_clique length_a length_b pdb_number_a pdb_number_b atoi clique_data lower
  <> Returns lower'.
Proof.
  intros Hnone. unfold use_clique. rewrite Hnone. cbn [nth_error].
  destruct (fold_outcome _ _ _); cbn [lift_outcome]; discriminate.
Qed.

(** With a clique file, [set_mask_matrix] returns only when the file
    consists of one line that declares a positive size (the clique is then
    that many equivalencies, all scanned from that line): it throws when
    the file cannot be opened, is empty, or has entries after a positive
    size, and its behaviour is undefined when the size is 0, the clique
    then being read out of its bounds. *)
Theorem set_mask_matrix_uses_no_entry_of_a_clique_file
  (opened : option (list string)) (prm_opt_ss_alignment : option alignment)
  (g g' : mask_globals)
  (Hrun : run_set_mask_matrix (Some opened) prm_opt_ss_alignment g = Ends g') :
  exists first, opened = Some [first] /\ 0 < scan_cliquesize first.
Proof.
  unfold set_mask_matrix in Hrun.
  destruct opened as [[|first rest]|]; try discriminate Hrun.
  rewrite read_clique_file_cases in Hrun.
  destruct (Z.ltb_spec 0 (scan_cliquesize first)) as [Hpos|Hzero]; cbn [andb] in Hrun.
  - destruct rest as [|line rest]; [|discriminate Hrun].
    exists first. split; [reflexivity|exact Hpos].
  - exfalso. unfold set_masks in Hrun.
    replace (Z.to_nat (scan_cliquesize first)) with O in Hrun by lia.
    cbn [repeat] in Hrun.
    match type of Hrun with
    | context [use_clique ?la ?lb ?pa ?pb ?f ?c ?l] =>
        pose proof (use_clique_without_equivalencies c l) as Hnot;
        destruct (use_clique la lb pa pb f c l) as [lower'| |]
    end; cbn [lift_outcome] in Hrun; try discriminate Hrun.
    apply (Hnot lower'); reflexivity.
Qed.

Local Abbreviation in_block := (in_cleared_block length_a length_b).
Local Abbreviation counters_of_window :=
  (window_counters length_a length_b global_window
     get_window_start_a_for_b__offset_1 get_window_stop_a_for_b__offset_1).
Local Abbreviation selects_without_clique :=
  (selects global_doing_fast_ssap global_res_sim_cutoff None residue_a residue_b
     sec_struc_number_a sec_struc_number_b).
Local Abbreviation cell_of :=
  (cell_of_counters length_a length_b global_window get_window_matrix_a_index__offset_1).
Local Abbreviation match_matrix_of :=
  (sec_struc_match_matrix_of get_last_present_a_position get_last_present_b_position).

Lemma In_irange (first last k : Z) : In k (irange first last) <-> first <= k < last.
Proof.
  unfold irange. rewrite in_map_iff. split.
  - intros [n [<- Hn]]. apply in_seq in Hn. lia.
  - intros Hk. exists (Z.to_nat (k - first)). split; [lia|].
    apply in_seq. lia.
Qed.

Lemma existsb_eqb_irange (n k : Z) :
  existsb (Z.eqb k) (irange 0 n) = (0 <=? k) && (k <? n).
Proof.
  apply eq_true_iff_eq. rewrite existsb_exists, andb_true_iff, Z.leb_le, Z.ltb_lt.
  split.
  - intros [x [Hin Heq]]. apply Z.eqb_eq in Heq. subst x.
    apply In_irange in Hin. lia.
  - intros Hk. exists k. split; [apply In_irange; lia|apply Z.eqb_refl].
Qed.

(** The masks after the loops that clear the cells of some rows and
    columns. *)
Lemma clear_cells_effect (rows cols : list Z) (g : mask_globals) :
  let g' := fold_left (fun g b => fold_left (fun g a => clear_cell g b a) cols g) rows g in
  (forall row col,
     let cleared := existsb (Z.eqb row) rows && existsb (Z.eqb col) cols in
     global_upper_res_mask_matrix g' row col
     = (if cleared then false else global_upper_res_mask_matrix g row col)
     /\ global_upper_ss_mask_matrix g' row col
        = (if cleared then false else global_upper_ss_mask_matrix g row col)
     /\ global_lower_mask_matrix g' row col
        = (if cleared then false else global_lower_mask_matrix g row col))
  /\ global_num_selections g' = global_num_selections g
  /\ global_frac_selected g' = global_frac_selected g.
Proof.
  assert (Hrow : forall b cols g,
    let g' := fold_left (fun g a => clear_cell g b a) cols g in
    (forall row col,
       let cleared := (row =? b) && existsb (Z.eqb col) cols in
       global_upper_res_mask_matrix g' row col
       = (if cleared then false else global_upper_res_mask_matrix g row col)
       /\ global_upper_ss_mask_matrix g' row col
          = (if cleared then false else global_upper_ss_mask_matrix g row col)
       /\ global_lower_mask_matrix g' row col
          = (if cleared then false else global_lower_mask_matrix g row col))
    /\ global_num_selections g' = global_num_selections g
    /\ global_frac_selected g' = global_frac_selected g).
  { intros b cs. induction cs as [|a cs IH]; intros g0; cbn [fold_left existsb].
    - split; [|split; reflexivity]. intros row col. rewrite andb_false_r. auto.
    - destruct (IH (clear_cell g0 b a)) as (Hmasks & Hnum & Hfrac).
      split; [|split; [rewrite Hnum|rewrite Hfrac]; reflexivity].
      intros row col. destruct (Hmasks row col) as (Hres & Hss & Hlower).
      rewrite Hres, Hss, Hlower. unfold clear_cell, SelectPairs.mask_set.
      cbn [global_upper_res_mask_matrix global_upper_ss_mask_matrix
           global_lower_mask_matrix].
      destruct (row =? b), (col =? a), (existsb (Z.eqb col) cs); auto. }
  revert g. induction rows as [|b rows IH]; intros g; cbn [fold_left existsb].
  - split; [|split; reflexivity]. intros row col. cbn [andb]. auto.
  - destruct (IH (fold_left (fun g a => clear_cell g b a) cols g))
      as (Hmasks & Hnum & Hfrac).
    destruct (Hrow b cols g) as (Hmasks0 & Hnum0 & Hfrac0).
    split; [|split; [rewrite Hnum, Hnum0|rewrite Hfrac, Hfrac0]; reflexivity].
    intros row col. destruct (Hmasks row col) as (Hres & Hss & Hlower).
    destruct (Hmasks0 row col) as (Hres0 & Hss0 & Hlower0).
    rewrite Hres, Hss, Hlower, Hres0, Hss0, Hlower0.
    destruct (row =? b), (existsb (Z.eqb row) rows), (existsb (Z.eqb col) cols); auto.
Qed.

(** The loops that initialise the arrays clear the block. *)
Lemma initialise_arrays_effect (g : mask_globals) :
  let g' := initialise_arrays length_a length_b g in
  (forall row col,
     global_upper_res_mask_matrix g' row col
     = (if in_block row col then false else global_upper_res_mask_matrix g row col)
     /\ global_upper_ss_mask_matrix g' row col
        = (if in_block row col then false else global_upper_ss_mask_matrix g row col)
     /\ global_lower_mask_matrix g' row col
        = (if in_block row col then false else global_lower_mask_matrix g row col))
  /\ global_num_selections g' = global_num_selections g
  /\ global_frac_selected g' = global_frac_selected g.
Proof.
  unfold initialise_arrays.
  destruct (clear_cells_effect (irange 0 (SizeT.add length_b 1))
              (irange 0 (SizeT.add length_a 1)) g) as (Hmasks & Hnum & Hfrac).
  split; [|split; assumption].
  intros row col. specialize (Hmasks row col). cbv zeta in Hmasks.
  rewrite !existsb_eqb_irange, !andb_assoc in Hmasks. exact Hmasks.
Qed.

Local Abbreviation pair_step prm_clique_file :=
  (select_residue_pair length_a length_b global_window global_doing_fast_ssap
     global_res_sim_cutoff prm_clique_file residue_a residue_b
     sec_struc_number_a sec_struc_number_b get_window_matrix_a_index__offset_1).
Local Abbreviation row_step prm_clique_file :=
  (select_residue_row length_a length_b global_window global_doing_fast_ssap
     global_res_sim_cutoff prm_clique_file residue_a residue_b
     sec_struc_number_a sec_struc_number_b get_window_matrix_a_index__offset_1
     get_window_start_a_for_b__offset_1 get_window_stop_a_for_b__offset_1).

Lemma filter_permutation {A : Type} (f : A -> bool) (l l' : list A) :
  Permutation l l' -> Permutation (filter f l) (filter f l').
Proof.
  induction 1 as [|x l l' _ IH|x y l|l l' l'' _ IH1 _ IH2]; simpl.
  - constructor.
  - destruct (f x); [constructor|]; exact IH.
  - destruct (f x), (f y); try reflexivity. constructor.
  - exact (Permutation_trans IH1 IH2).
Qed.

(** The last loops keep every invariant of the pairs visited so far (in
    any order) that their body keeps. *)
Lemma select_residues_invariant
  (prm_clique_file : option (option (list string)))
  (prm_opt_ss_alignment : option alignment) (m : bool_vec_of_vec)
  (lower : Z -> Z -> bool) (P : list (Z * Z) -> mask_selection -> Prop) :
  (forall visited visited' st, Permutation visited visited' -> P visited st -> P visited' st) ->
  (forall visited st ctr_a ctr_b st',
      P visited st ->
      pair_step prm_clique_file prm_opt_ss_alignment m lower ctr_b st ctr_a = Returns st' ->
      P ((ctr_a, ctr_b) :: visited) st') ->
  forall st0 st,
    P [] st0 ->
    fold_outcome (rev (irange 0 length_b))
      (row_step prm_clique_file prm_opt_ss_alignment m lower) st0 = Returns st ->
    P counters_of_window st.
Proof.
  intros Hperm Hcell st0 st Hinit Hrun.
  set (row_counters := fun b : Z =>
         map (fun a : Z => (a, b))
             (rev (irange
                     (SizeT.sub (get_window_start_a_for_b__offset_1 length_a length_b
                                   global_window (SizeT.add b 1)) 1)
                     (get_window_stop_a_for_b__offset_1 length_a length_b global_window
                        (SizeT.add b 1))))).
  apply (fold_outcome_invariant _
           (fun done_b s => P (flat_map (fun b => rev (row_counters b)) done_b) s))
    with (done := []) in Hrun.
  - rewrite app_nil_r in Hrun. revert Hrun. apply Hperm.
    unfold window_counters. fold row_counters.
    generalize (rev (irange 0 length_b)). intros l.
    induction l as [|b l IH]; simpl; [reflexivity|].
    rewrite flat_map_app. simpl. rewrite app_nil_r.
    rewrite Permutation_app_comm. apply Permutation_app; [|exact IH].
    symmetry. apply Permutation_rev.
  - intros done_b s b s' HP Hrow. unfold select_residue_row in Hrow.
    apply (fold_outcome_invariant _
             (fun done_a s0 =>
                P (map (fun a : Z => (a, b)) done_a
                   ++ flat_map (fun b => rev (row_counters b)) done_b) s0))
      with (done := []) in Hrow.
    + rewrite app_nil_r in Hrow. simpl. unfold row_counters.
      rewrite <- map_rev. exact Hrow.
    + intros done_a s0 ctr_a s1 HP0 Hstep. simpl.
      apply (Hcell _ s0 ctr_a b s1 HP0 Hstep).
    + exact HP.
  - exact Hinit.
Qed.

(** What the last loops have done when they return. *)
Lemma select_residues_effect
  (prm_opt_ss_alignment : option alignment) (m : bool_vec_of_vec)
  (lower base : Z -> Z -> bool) (st : mask_selection) :
  fold_outcome (rev (irange 0 length_b))
    (row_step None prm_opt_ss_alignment m lower) (mk_mask_selection base 0 0) = Returns st ->
  (forall row col,
     upper_res_mask st row col = true
     <-> (exists counters,
            In counters counters_of_window
            /\ selects_without_clique prm_opt_ss_alignment m lower counters = true
            /\ cell_of counters = Returns (row, col))
         \/ base row col = true)
  /\ total_num_residues_considered st
     = SizeT.wrap (Z.of_nat (List.length counters_of_window))
  /\ num_residues_selected st
     = SizeT.wrap (Z.of_nat (List.length (filter (selects_without_clique prm_opt_ss_alignment
                                               m lower) counters_of_window))).
Proof.
  apply (select_residues_invariant None prm_opt_ss_alignment m lower
           (fun visited s =>
              (forall row col,
                 upper_res_mask s row col = true
                 <-> (exists counters,
                        In counters visited
                        /\ selects_without_clique prm_opt_ss_alignment m lower counters
                           = true
                        /\ cell_of counters = Returns (row, col))
                     \/ base row col = true)
              /\ total_num_residues_considered s = SizeT.wrap (Z.of_nat (List.length visited))
              /\ num_residues_selected s
                 = SizeT.wrap
                     (Z.of_nat (List.length (filter (selects_without_clique
                                                  prm_opt_ss_alignment m lower)
                                           visited))))).
  - intros visited visited' s Hperm (Hmask & Htotal & Hcount).
    split; [|split].
    + intros row col. rewrite Hmask. split.
      * intros [[p [Hin Hp]]|Hb]; [left|right; exact Hb].
        exists p. split; [apply (Permutation_in _ Hperm Hin)|exact Hp].
      * intros [[p [Hin Hp]]|Hb]; [left|right; exact Hb].
        exists p. split; [apply (Permutation_in _ (Permutation_sym Hperm) Hin)|exact Hp].
    + rewrite Htotal, (Permutation_length Hperm). reflexivity.
    + rewrite Hcount.
      rewrite (Permutation_length
                 (filter_permutation (selects_without_clique prm_opt_ss_alignment m lower)
                    _ _ Hperm)).
      reflexivity.
  - intros visited s ctr_a ctr_b s' (Hmask & Htotal & Hcount) Hstep.
    unfold select_residue_pair in Hstep.
    assert (Hlen : SizeT.add (total_num_residues_considered s) 1
                   = SizeT.wrap (Z.of_nat (List.length ((ctr_a, ctr_b) :: visited)))).
    { rewrite Htotal, size_t_wrap_succ. f_equal. cbn [List.length]. lia. }
    destruct (is_selected _ _ _ _ _ _ _ _ _ _ ctr_a ctr_b) as [selected| |] eqn:Hsel;
      cbn [lift_outcome] in Hstep; try discriminate Hstep.
    assert (Hsel' : selects_without_clique prm_opt_ss_alignment m lower (ctr_a, ctr_b)
                    = selected).
    { unfold selects. cbn [fst snd]. rewrite Hsel. reflexivity. }
    cbn [filter]. rewrite Hsel'.
    destruct selected.
    + destruct (numeric_cast_int_to_size_t _) as [col| |] eqn:Hcast;
        cbn [lift_outcome] in Hstep; try discriminate Hstep.
      injection Hstep as <-.
      cbn [upper_res_mask total_num_residues_considered num_residues_selected].
      split; [|split; [exact Hlen|]].
      * intros row col0.
        assert (Hcell : cell_of (ctr_a, ctr_b) = Returns (SizeT.add ctr_b 1, col)).
        { unfold cell_of_counters. cbn [fst snd]. rewrite Hcast. reflexivity. }
        destruct (cell_eq_dec (col0, row) (col, SizeT.add ctr_b 1)) as [E|E].
        -- injection E as -> ->. rewrite mask_set_same. split; [intros _|reflexivity].
           left. exists (ctr_a, ctr_b). split; [left; reflexivity|].
           split; [exact Hsel'|exact Hcell].
        -- rewrite mask_set_other by exact E. rewrite Hmask. split.
           ++ intros [[p [Hin Hp]]|Hb]; [left|right; exact Hb].
              exists p. split; [right; exact Hin|exact Hp].
           ++ intros [[p [[<-|Hin] [Hp Hc]]]|Hb]; [| |right; exact Hb].
              ** exfalso. apply E. rewrite Hcell in Hc. injection Hc as <- <-.
                 reflexivity.
              ** left. exists p. split; [exact Hin|split; assumption].
      * rewrite Hcount, size_t_wrap_succ. f_equal. cbn [List.length]. lia.
    + injection Hstep as <-.
      cbn [upper_res_mask total_num_residues_considered num_residues_selected].
      split; [|split; [exact Hlen|exact Hcount]].
      intros row col. rewrite Hmask. split.
      * intros [[p [Hin Hp]]|Hb]; [left|right; exact Hb].
        exists p. split; [right; exact Hin|exact Hp].
      * intros [[p [[<-|Hin] [Hp Hc]]]|Hb]; [| |right; exact Hb].
        -- exfalso. rewrite Hsel' in Hp. discriminate Hp.
        -- left. exists p. split; [exact Hin|split; assumption].
  - cbn [upper_res_mask total_num_residues_considered num_residues_selected List.length filter].
    split; [|split; reflexivity].
    intros row col. split; [intros Hb; right; exact Hb|].
    intros [[p [[] _]]|Hb]. exact Hb.
Qed.

(** Without a clique file, a call of [set_mask_matrix] that returns has
    cleared the block of rows 0 to [length_b] and columns 0 to [length_a]
    of the lower mask and of the upper secondary-structure mask and left
    the rest of them alone.  [global_upper_res_mask_matrix] is then true
    exactly at the cells of the selected pairs of the window (the row of
    the second residue, the window's column of the first) and at the cells
    outside the block where it was true before: a cell of an earlier
    comparison whose column lies beyond [length_a] stays set.
    [global_num_selections] is 0, and [global_frac_selected] is the number
    of selected pairs over the number of pairs of the window. *)
Theorem set_mask_matrix_selects_within_the_window
  (prm_opt_ss_alignment : option alignment) (g g' : mask_globals)
  (Hrun : run_set_mask_matrix None prm_opt_ss_alignment g = Ends g') :
  exists sec_struc_match_matrix,
    match_matrix_of prm_opt_ss_alignment = Returns sec_struc_match_matrix
    /\ (forall row col,
          global_lower_mask_matrix g' row col
          = (if in_block row col then false else global_lower_mask_matrix g row col)
          /\ global_upper_ss_mask_matrix g' row col
             = (if in_block row col then false
                else global_upper_ss_mask_matrix g row col))
    /\ (forall row col,
          global_upper_res_mask_matrix g' row col = true
          <-> (exists counters,
                 In counters counters_of_window
                 /\ selects_without_clique prm_opt_ss_alignment sec_struc_match_matrix
                      (global_lower_mask_matrix g') counters = true
                 /\ cell_of counters = Returns (row, col))
              \/ (in_block row col = false
                  /\ global_upper_res_mask_matrix g row col = true))
    /\ global_num_selections g' = 0
    /\ global_frac_selected g'
       = (Double.of_Z
            (SizeT.wrap
               (Z.of_nat
                  (List.length
                     (filter (selects_without_clique prm_opt_ss_alignment
                                sec_struc_match_matrix (global_lower_mask_matrix g'))
                             counters_of_window))))
          / Double.of_Z (SizeT.wrap (Z.of_nat (List.length counters_of_window))))%float.
Proof.
  unfold set_mask_matrix, set_masks in Hrun. cbn [lift_outcome] in Hrun.
  destruct (initialise_arrays_effect g) as (Hinit & _ & _). cbv zeta in Hinit.
  destruct (match_matrix_of prm_opt_ss_alignment) as [m| |];
    cbn [lift_outcome] in Hrun; try discriminate Hrun.
  exists m. split; [reflexivity|].
  destruct (fold_outcome _ _ _) as [st| |] eqn:Hloop;
    cbn [lift_outcome] in Hrun; try discriminate Hrun.
  apply select_residues_effect in Hloop. destruct Hloop as (Hmask & Htotal & Hcount).
  injection Hrun as <-.
  cbn [global_upper_res_mask_matrix global_upper_ss_mask_matrix global_lower_mask_matrix
       global_num_selections global_frac_selected].
  split; [|split; [|split; [reflexivity|]]].
  - intros row col. destruct (Hinit row col) as (_ & Hss & Hlower).
    split; assumption.
  - intros row col. rewrite Hmask. destruct (Hinit row col) as (Hres & _ & _).
    rewrite Hres. destruct (in_block row col).
    + split; intros [H|H]; [left; exact H|discriminate H|left; exact H|].
      destruct H as [H _]. discriminate H.
    + split; intros [H|H]; [left; exact H|right; split; [reflexivity|exact H]
                           |left; exact H|right; exact (proj2 H)].
  - rewrite Htotal, Hcount. reflexivity.
Qed.

End MaskMatrixFacts.

Section MaskMatrixRuns.

Import Alignment Ssap SsapRun MaskMatrix MaskMatrixExample.

Lemma set_mask_matrix_uses_no_entry_of_a_clique_file_witness :
  exists g',
    example_set_mask_matrix true (Some (Some ["1"%string])) None all_false = Ends g'
    /\ exists first,
         Some ["1"%string] = Some [first] /\ 0 < example_scan_cliquesize first.
Proof.
  assert (Hrun : exists g',
            example_set_mask_matrix true (Some (Some ["1"%string])) None all_false
            = Ends g').
  { eexists. vm_compute. reflexivity. }
  destruct Hrun as [g' Hrun]. exists g'. split; [exact Hrun|].
  apply set_mask_matrix_uses_no_entry_of_a_clique_file in Hrun. exact Hrun.
Defined.

Lemma set_mask_matrix_selects_within_the_window_witness :
  exists g',
    example_set_mask_matrix false None None all_false = Ends g'
    /\ global_num_selections g' = 0
    /\ forall row col,
         global_lower_mask_matrix g' row col
         = (if in_cleared_block 2 2 row col then false
            else global_lower_mask_matrix all_false row col).
Proof.
  assert (Hrun : exists g', example_set_mask_matrix false None None all_false = Ends g').
  { eexists. vm_compute. reflexivity. }
  destruct Hrun as [g' Hrun]. exists g'. split; [exact Hrun|].
  apply set_mask_matrix_selects_within_the_window in Hrun.
  destruct Hrun as (m & _ & Hmasks & _ & Hnum & _).
  split; [exact Hnum|]. intros row col. apply (Hmasks row col).
Defined.

End MaskMatrixRuns.

(** ** [context_res_vec] and [simplified_context_res_vec] *)

(** On doubles the scaling of the views is rounded, and the two functions
    can give different values for the same two views. *)
Remark context_res_vec_on_doubles_is_rounded
  (int_cast_copy : float -> float) (debug_numeric_cast_int : float -> Z) :
  (ContextResVec.context_res_vec ContextRes.legacy_constants 10
     int_cast_copy debug_numeric_cast_int false ContextRes.USED_IN_PREVIOUS_CODE
     example_double_view_a example_double_view_b
   =? ContextResVec.simplified_context_res_vec ContextRes.legacy_constants
        example_double_view_a example_double_view_b)%float = false.
Proof. vm_compute. reflexivity. Qed.

Section ContextResVecFacts.

Import ContextRes ContextResVec.

Local Open Scope R_scope.

Variable constants : residue_constants R.







End ContextResVecFacts.

